(** * Minimarket Aurelion: analytic pipeline (2. programa.py)

    A shallow embedding of the ingestion, cleaning and metrics pipeline of
    [2. programa.py] and of the helpers of [aurelion.pipeline_utils] that
    it calls.  Data frames are lists of typed rows together with the list of
    column names they carry; amounts, which the program holds as floating
    point numbers, are idealised as exact rationals [Q]; logging and
    exceptions are threaded through a small writer-and-error monad. *)

From Stdlib Require Import QArith Lqa.
From stdpp Require Import base decidable option list sorting gmap strings.

Local Open Scope string_scope.
Local Open Scope list_scope.

(** ** Cells, rows and data frames *)

(** A raw spreadsheet cell, before any coercion. *)
Inductive celda : Type :=
| Nulo : celda
| Num (q : Q) : celda
| Texto (s : string) : celda.

(** A canonical calendar date. *)
Record Fecha : Type := { anio : Z; mes : Z; dia : Z }.

(** The rows are parametrised by the representation [N] of their numeric
    fields and [D] of their date fields: raw cells when loaded, rationals
    and dates once cleaned. *)
Module Productos.
Record fila (N : Type) : Type := {
  id_producto : Z;
  nombre_producto : option string;
  categoria : string;
  precio_unitario : N }.
Arguments id_producto {N} _.
Arguments nombre_producto {N} _.
Arguments categoria {N} _.
Arguments precio_unitario {N} _.
End Productos.

Module Clientes.
Record fila (D : Type) : Type := {
  id_cliente : Z;
  nombre_cliente : string;
  email : string;
  ciudad : string;
  fecha_alta : D }.
Arguments id_cliente {D} _.
Arguments nombre_cliente {D} _.
Arguments email {D} _.
Arguments ciudad {D} _.
Arguments fecha_alta {D} _.
End Clientes.

Module Ventas.
Record fila (D : Type) : Type := {
  id_venta : Z;
  fecha : D;
  id_cliente : Z;
  medio_pago : string;
  canal : string }.
Arguments id_venta {D} _.
Arguments fecha {D} _.
Arguments id_cliente {D} _.
Arguments medio_pago {D} _.
Arguments canal {D} _.
End Ventas.

Module Detalle.
Record fila (N : Type) : Type := {
  id_venta : Z;
  id_producto : Z;
  cantidad : N;
  precio_unitario : N;
  importe : N;
  nombre_producto : option string }.
Arguments id_venta {N} _.
Arguments id_producto {N} _.
Arguments cantidad {N} _.
Arguments precio_unitario {N} _.
Arguments importe {N} _.
Arguments nombre_producto {N} _.
End Detalle.

(** One row of the integrated table [df_completo]. *)
Module Fact.
Record fila : Type := {
  id_venta : Z;
  fecha : Fecha;
  id_cliente : Z;
  medio_pago : string;
  canal : string;
  id_producto : Z;
  nombre_producto : option string;
  cantidad : Q;
  precio_unitario : Q;
  importe : Q }.
End Fact.

(** A pandas data frame: the column index and the rows. *)
Record DataFrame (F : Type) : Type := {
  columns : list string;
  filas : list F }.
Arguments columns {F} _.
Arguments filas {F} _.

Definition len {F} (df : DataFrame F) : nat := length (filas df).

(** The four tables as loaded (raw cells) and as cleaned. *)
Record Tablas (N D : Type) : Type := {
  df_productos : DataFrame (Productos.fila N);
  df_clientes : DataFrame (Clientes.fila D);
  df_ventas : DataFrame (Ventas.fila D);
  df_detalle : DataFrame (Detalle.fila N) }.
Arguments df_productos {N D} _.
Arguments df_clientes {N D} _.
Arguments df_ventas {N D} _.
Arguments df_detalle {N D} _.

Abbreviation TablasCrudas := (Tablas celda celda).
Abbreviation TablasLimpias := (Tablas Q Fecha).

(** ** Exceptions, log events and the pipeline monad *)

Inductive excepcion : Type :=
| ValueError_faltan_columnas (tabla : string) (faltantes : gset string)
| KeyError (columna : string)
| ValueError_sin_claves
| TypeError (mensaje : string)
| ErrorExterno (origen : string) (mensaje : string).

Global Instance excepcion_eq_dec : EqDecision excepcion.
Proof. solve_decision. Defined.

(** Stages of [ejecutar_pipeline]. *)
Inductive etapa : Type :=
| EtCarga | EtIntegridad | EtLimpieza | EtIntegracion | EtMetricas | EtExportacion.

Global Instance etapa_eq_dec : EqDecision etapa.
Proof. solve_decision. Defined.

(** Orphan counts of the three foreign-key relations. *)
Record RIStats : Type := {
  detalle_sin_venta : nat;
  detalle_sin_producto : nat;
  ventas_sin_cliente : nat }.

Global Instance RIStats_eq_dec : EqDecision RIStats.
Proof. solve_decision. Defined.

(** A message handed to [manejar_error] in the place of an exception: the
    text of an exception ([str(e)], or the f-string the exception is built
    from), a literal, or a literal followed by the text of an exception. *)
Inductive texto : Type :=
| TextoDe (e : excepcion)
| Literal (s : string)
| Seguido (s : string) (e : excepcion).

Global Instance texto_eq_dec : EqDecision texto.
Proof. solve_decision. Defined.

(** What a run leaves behind: the boundaries of the stages (the call and
    the return of the function that carries the stage out), the lines of
    the logger and the records written by [manejar_error], which is handed
    an exception or a message. *)
Inductive evento : Type :=
| Inicio (e : etapa)
| Fin (e : etapa)
| Info (event : string)
| OptionalColumnMissing (tabla : string) (faltantes : gset string)
| RiCheck (stats : RIStats)
| RiWarning
| Descartes (tabla : string) (inicial final : nat)
| ErrorRegistrado (donde : string) (e : excepcion)
| MensajeRegistrado (donde : string) (t : texto).

Global Instance evento_eq_dec : EqDecision evento.
Proof. solve_decision. Defined.

Definition resultado (A : Type) : Type := excepcion + A.

(** A computation writes a log and either raises or returns. *)
Definition M (A : Type) : Type := list evento * resultado A.

Definition registro {A} (m : M A) : list evento := fst m.
Definition salida {A} (m : M A) : resultado A := snd m.

Global Instance M_ret : MRet M := λ A a, ([], inr a).
Global Instance M_bind : MBind M := λ A B f m,
  match snd m with
  | inl e => (fst m, inl e)
  | inr a => let r := f a in (fst m ++ fst r, snd r)
  end.

Definition emitir (ev : evento) : M unit := ([ev], inr tt).
Definition raise {A} (e : excepcion) : M A := ([], inl e).
Definition llamar {A} (r : resultado A) : M A := ([], r).

(** [manejar_error(etapa, error)]: the error is logged and appended to
    [logs/errors.log.jsonl]; nothing is raised. *)
Definition manejar_error (donde : string) (e : excepcion) : M unit :=
  emitir (ErrorRegistrado donde e).

(** [manejar_error(etapa, mensaje)], with a string for the error. *)
Definition manejar_mensaje (donde : string) (t : texto) : M unit :=
  emitir (MensajeRegistrado donde t).

(** [try: m  except Exception as e: manejar_error(donde, e); raise]. *)
Definition try_except {A} (donde : string) (m : M A) : M A :=
  match snd m with
  | inl e => (fst m ++ registro (manejar_error donde e), inl e)
  | inr a => m
  end.

Definition fallo {A} (m : M A) : Prop := ∃ e, salida m = inl e.

(** [if b: m] *)
Definition cuando (b : bool) (m : M unit) : M unit :=
  if b then m else mret tt.

(** ** Ingestion: the schema check of [cargar_datasets] *)

Definition columnas_esperadas : list (string * gset string) :=
  [ ("productos", {[ "id_producto"; "nombre_producto"; "categoria"; "precio_unitario" ]});
    ("clientes", {[ "id_cliente"; "nombre_cliente"; "email"; "ciudad"; "fecha_alta" ]});
    ("ventas", {[ "id_venta"; "fecha"; "id_cliente"; "medio_pago"; "canal" ]});
    ("detalle", {[ "id_venta"; "id_producto"; "cantidad"; "precio_unitario"; "importe" ]}) ].

Definition columnas_opcionales : gmap string (gset string) :=
  {[ "detalle" := {[ "nombre_producto" ]} ]}.

(** The dictionary literal of the loop, [{'productos': df_productos, ...}[nombre]],
    as far as the check looks at it: the columns of the table. *)
Definition columnas_de {N D} (t : Tablas N D) (nombre : string) : list string :=
  if decide (nombre = "productos") then columns (df_productos t)
  else if decide (nombre = "clientes") then columns (df_clientes t)
  else if decide (nombre = "ventas") then columns (df_ventas t)
  else columns (df_detalle t).

(** [columnas_opcionales.get(nombre, set())] *)
Definition opcionales_de (nombre : string) : gset string :=
  default ∅ (columnas_opcionales !! nombre).

(** [[col for col in cols_obligatorias - set(df.columns) if col not in opcionales]] *)
Definition faltantes_requeridos (nombre : string) (cols_obligatorias : gset string)
    (cols : list string) : gset string :=
  filter (λ col, col ∉ opcionales_de nombre) (cols_obligatorias ∖ list_to_set cols).

(** [[col for col in opcionales if col not in df.columns]] *)
Definition faltantes_opcionales (nombre : string) (cols : list string) : gset string :=
  filter (λ col, col ∉ cols) (opcionales_de nombre).

(** One turn of the loop over [columnas_esperadas.items()].  The warning is
    guarded by [and logger]: the logger of the module is set by [main]
    before anything is loaded, and [cargar_datasets] has already used it.
    Line 170 hands [manejar_error] the message the [ValueError] of line 171
    is then built from. *)
Definition validar_tabla (nombre : string) (cols_obligatorias : gset string)
    (cols : list string) : M unit :=
  if decide (faltantes_requeridos nombre cols_obligatorias cols = ∅) then
    if decide (faltantes_opcionales nombre cols = ∅) then mret tt
    else emitir (OptionalColumnMissing nombre (faltantes_opcionales nombre cols))
  else
    manejar_mensaje "ingesta"
      (TextoDe (ValueError_faltan_columnas nombre
                  (faltantes_requeridos nombre cols_obligatorias cols))) ;;
    raise (ValueError_faltan_columnas nombre
             (faltantes_requeridos nombre cols_obligatorias cols)).

Fixpoint validar_bucle {N D} (t : Tablas N D) (pendientes : list (string * gset string))
    : M unit :=
  match pendientes with
  | [] => mret tt
  | (nombre, cols_obligatorias) :: resto =>
      validar_tabla nombre cols_obligatorias (columnas_de t nombre) ;;
      validar_bucle t resto
  end.

Definition validar_columnas {N D} (t : Tablas N D) : M unit :=
  validar_bucle t columnas_esperadas.

(** The required columns a table lacks. *)
Definition faltan_en {N D} (t : Tablas N D) (nombre : string) (req : gset string)
    : gset string :=
  filter (λ col, col ∉ columnas_de t nombre) req.

(** ** Ingestion: product names for the detail lines *)

(** [DataFrame.drop_duplicates()]: of rows that are equal, the first stays. *)
Fixpoint drop_duplicates_desde {F K} `{EqDecision K} (clave : F → K)
    (vistos : list K) (fs : list F) : list F :=
  match fs with
  | [] => []
  | r :: resto =>
      if decide (clave r ∈ vistos) then drop_duplicates_desde clave vistos resto
      else r :: drop_duplicates_desde clave (clave r :: vistos) resto
  end.

Definition drop_duplicates {F K} `{EqDecision K} (clave : F → K) (fs : list F)
    : list F :=
  drop_duplicates_desde clave [] fs.

Definition con_nombre {N} (n : option string) (r : Detalle.fila N) : Detalle.fila N :=
  {| Detalle.id_venta := Detalle.id_venta r;
     Detalle.id_producto := Detalle.id_producto r;
     Detalle.cantidad := Detalle.cantidad r;
     Detalle.precio_unitario := Detalle.precio_unitario r;
     Detalle.importe := Detalle.importe r;
     Detalle.nombre_producto := n |}.

(** Two detail lines with the same fields, the product name apart. *)
Definition misma_linea {N} (r' r : Detalle.fila N) : Prop :=
  Detalle.id_venta r' = Detalle.id_venta r
  ∧ Detalle.id_producto r' = Detalle.id_producto r
  ∧ Detalle.cantidad r' = Detalle.cantidad r
  ∧ Detalle.precio_unitario r' = Detalle.precio_unitario r
  ∧ Detalle.importe r' = Detalle.importe r.

(** [df_productos[['id_producto', 'nombre_producto']].drop_duplicates()] *)
Definition nombre_map {N} (prods : list (Productos.fila N)) : list (Z * option string) :=
  drop_duplicates id
    ((λ p, (Productos.id_producto p, Productos.nombre_producto p)) <$> prods).

(** One line of [df_detalle.merge(nombre_map, on='id_producto', how='left')]:
    a copy of the line for every entry of the map with its identifier, in
    the order of the map, and a single copy with a null name when there is
    none. *)
Definition merge_linea {N} (nmap : list (Z * option string)) (r : Detalle.fila N)
    : list (Detalle.fila N) :=
  match filter (λ p, fst p = Detalle.id_producto r) nmap with
  | [] => [con_nombre None r]
  | coincidencias => (λ p, con_nombre (snd p) r) <$> coincidencias
  end.

Definition merge_nombre {N} (nmap : list (Z * option string))
    (det : DataFrame (Detalle.fila N)) : DataFrame (Detalle.fila N) :=
  {| columns := columns det ++ ["nombre_producto"];
     filas := mbind (M := list) (merge_linea nmap) (filas det) |}.

(** Lines 182-188 of [cargar_datasets]. *)
Definition agregar_nombre_producto {N D} (t : Tablas N D) : M (Tablas N D) :=
  if decide (("nombre_producto" ∉ columns (df_detalle t))
             ∧ ("id_producto" ∈ columns (df_detalle t))
             ∧ ("nombre_producto" ∈ columns (df_productos t))) then
    if decide ("id_producto" ∈ columns (df_productos t)) then
      let det := merge_nombre (nombre_map (filas (df_productos t))) (df_detalle t) in
      emitir (Info "detalle_nombre_producto_merge") ;;
      mret {| df_productos := df_productos t; df_clientes := df_clientes t;
              df_ventas := df_ventas t; df_detalle := det |}
    else raise (KeyError "id_producto")
  else mret t.

(** ** The helpers imported from [aurelion.pipeline_utils] *)

Inductive clase : Type := ClaseA | ClaseB | ClaseC.

Global Instance clase_eq_dec : EqDecision clase.
Proof. solve_decision. Defined.

(** A row of the table returned by [clasificacion_abc]. *)
Record FilaABC (K : Type) : Type := {
  entidad : K;
  ingreso : Q;
  participacion_acumulada : Q;
  clasificacion : clase }.
Arguments entidad {K} _.
Arguments ingreso {K} _.
Arguments participacion_acumulada {K} _.
Arguments clasificacion {K} _.

(** The index of [productos_importe]: the key columns the integrated table
    carries. *)
Inductive clave_producto : Type :=
| ClaveIdNombre (id : Z) (nombre : string)
| ClaveId (id : Z)
| ClaveNombre (nombre : string).

Global Instance clave_producto_eq_dec : EqDecision clave_producto.
Proof. solve_decision. Defined.

Definition CleanStats : Type := list (string * (nat * nat)).

(** A product of the ranking: its identifier and, when it has one, its
    name. *)
Definition producto : Type := Z * option string.

Record Metricas : Type := {
  ticket_promedio : list (Z * Z * Q);
  top5_productos : list (producto * Q);
  medios_pago : list (string * Q);
  abc_productos : list (FilaABC clave_producto);
  abc_clientes : list (FilaABC Z);
  df_completo : DataFrame Fact.fila }.

(** The functions the program imports and the effects it has on its
    surroundings; each may raise.  [con_handlers] tells whether the logger
    named performance has its handler already, and [FileHandler] opens the
    file of a log.  [crear_carpetas] are the two [mkdir] calls of
    [exportar_resultados] (lines 300-301) and [escribir_archivos] its four
    [to_csv] calls and the summary (lines 303-307). *)
Class PipelineUtils : Type := {
  Config : Type;
  Rutas : Type;
  con_handlers : bool;
  FileHandler : string → resultado unit;
  configure_metrics_logger : resultado unit;
  resolve_routes : Config → resultado Rutas;
  read_tables : Rutas → resultado TablasCrudas;
  validate_referential_integrity :
    TablasCrudas → Config → resultado (bool * RIStats);
  clean_all : TablasCrudas → resultado (TablasLimpias * CleanStats);
  integrate :
    DataFrame (Detalle.fila Q) → DataFrame (Ventas.fila Fecha) →
    DataFrame (Productos.fila Q) → resultado (DataFrame Fact.fila);
  ticket_promedio_mensual : DataFrame Fact.fila → resultado (list (Z * Z * Q));
  top5_productos_por_importe :
    DataFrame Fact.fila → resultado (list (producto * Q));
  medios_pago_pct : DataFrame Fact.fila → resultado (list (string * Q));
  clasificacion_abc : ∀ K : Type, list (K * Q) → resultado (list (FilaABC K));
  crear_carpetas : resultado unit;
  escribir_archivos : Metricas → Config → resultado unit }.

(** ** [configurar_performance_logger] *)

(** The handler is made the first time only; what is returned is the
    logger, which the run uses for nothing but its last line. *)
Definition configurar_performance_logger `{PipelineUtils} : resultado unit :=
  if con_handlers then inr tt else FileHandler "logs/performance.log.jsonl".

(** ** [cargar_datasets] *)

Definition cargar_datasets `{PipelineUtils} (config : Config) : M TablasCrudas :=
  emitir (Info "load_start") ;;
  rutas ← llamar (resolve_routes config) ;
  try_except "ingesta" (
    t ← llamar (read_tables rutas) ;
    validar_columnas t ;;
    t ← agregar_nombre_producto t ;
    emitir (Info "load_ok") ;;
    '(ok, stats) ← llamar (validate_referential_integrity t config) ;
    emitir (RiCheck stats) ;;
    cuando (negb ok) (emitir RiWarning) ;;
    mret t).

(** ** [limpiar_datos] *)

Definition informar_descartes (stats : CleanStats) : M unit :=
  foldr (λ '(tabla, (inicial, final)) k,
           emitir (if decide (0 < inicial - final)%nat
                   then Descartes tabla inicial final
                   else Info "sin descartes") ;; k)
        (mret tt) stats.

Definition limpiar_datos `{PipelineUtils} (t : TablasCrudas) : M TablasLimpias :=
  emitir (Info "limpieza") ;;
  '(limpias, stats) ← llamar (clean_all t) ;
  informar_descartes stats ;;
  emitir (Info "limpieza completada") ;;
  mret limpias.

(** ** Group-by sums *)

Definition sumQ (l : list Q) : Q := foldr Qplus 0%Q l.

(** The order a boolean comparison stands for, and sorting by it. *)
Definition rel_de {K} (leb : K → K → bool) : relation K := λ a b, leb a b = true.

Global Instance rel_de_dec {K} (leb : K → K → bool) a b : Decision (rel_de leb a b).
Proof. unfold rel_de. apply _. Defined.

Definition ordenar {K} (leb : K → K → bool) (l : list K) : list K :=
  merge_sort (rel_de leb) l.

(** The sum of the rows of a key. *)
Definition suma_de {F K} `{EqDecision K} (clave : F → option K) (valor : F → Q)
    (fs : list F) (k : K) : Q :=
  sumQ (valor <$> filter (λ r, clave r = Some k) fs).

(** What a table of groups holds of the rows [fs]: one group for each key,
    with the sum of the rows of the key. *)
Definition grupos_de {F K} `{EqDecision K} (clave : F → option K) (valor : F → Q)
    (fs : list F) (acc : list (K * Q)) : Prop :=
  NoDup (fst <$> acc)
  ∧ (∀ k, k ∈ fst <$> acc ↔ ∃ r, r ∈ fs ∧ clave r = Some k)
  ∧ ∀ k v, (k, v) ∈ acc → (v == suma_de clave valor fs k)%Q.

(** [df.groupby(clave)[valor].sum()]: the keys in ascending order, each with
    the sum of its rows; a row whose key is null belongs to no group. *)
Definition groupby_sum {F K} `{EqDecision K} (leb : K → K → bool)
    (clave : F → option K) (valor : F → Q) (fs : list F) : list (K * Q) :=
  (λ k, (k, suma_de clave valor fs k))
    <$> ordenar leb (remove_dups (omap clave fs)).

Definition clave_producto_leb (a b : clave_producto) : bool :=
  match a, b with
  | ClaveIdNombre i n, ClaveIdNombre j m =>
      (i <? j)%Z || ((i =? j)%Z && String.leb n m)
  | ClaveId i, ClaveId j => (i <=? j)%Z
  | ClaveNombre n, ClaveNombre m => String.leb n m
  | ClaveIdNombre _ _, _ => true
  | ClaveId _, ClaveNombre _ => true
  | _, _ => false
  end.

(** [[c for c in ("id_producto", "nombre_producto") if c in df_completo.columns]] *)
Definition columnas_clave (df : DataFrame Fact.fila) : list string :=
  filter (λ c, c ∈ columns df) ["id_producto"; "nombre_producto"].

(** The group key of a row under the selected columns. *)
Definition clave_de (cols : list string) (r : Fact.fila) : option clave_producto :=
  if decide ("id_producto" ∈ cols) then
    if decide ("nombre_producto" ∈ cols)
    then ClaveIdNombre (Fact.id_producto r) <$> Fact.nombre_producto r
    else Some (ClaveId (Fact.id_producto r))
  else
    if decide ("nombre_producto" ∈ cols)
    then ClaveNombre <$> Fact.nombre_producto r
    else None.

(** Line 251 of [calcular_metricas]. *)
Definition productos_importe (df : DataFrame Fact.fila)
    : resultado (list (clave_producto * Q)) :=
  if decide (columnas_clave df = []) then inl ValueError_sin_claves
  else if decide ("importe" ∈ columns df) then
    inr (groupby_sum clave_producto_leb (clave_de (columnas_clave df))
           Fact.importe (filas df))
  else inl (KeyError "importe").

(** Line 252 of [calcular_metricas]. *)
Definition clientes_importe (df : DataFrame Fact.fila) : resultado (list (Z * Q)) :=
  if decide ("id_cliente" ∈ columns df) then
    if decide ("importe" ∈ columns df) then
      inr (groupby_sum Z.leb (λ r, Some (Fact.id_cliente r)) Fact.importe (filas df))
    else inl (KeyError "importe")
  else inl (KeyError "id_cliente").

(** ** [calcular_metricas] *)

Definition calcular_metricas `{PipelineUtils} (t : TablasLimpias) : M Metricas :=
  emitir (Info "calculando métricas") ;;
  emitir (Inicio EtIntegracion) ;;
  completo ← llamar (integrate (df_detalle t) (df_ventas t) (df_productos t)) ;
  emitir (Fin EtIntegracion) ;;
  emitir (Inicio EtMetricas) ;;
  ticket ← llamar (ticket_promedio_mensual completo) ;
  top5 ← llamar (top5_productos_por_importe completo) ;
  medios ← llamar (medios_pago_pct completo) ;
  prod_imp ← llamar (productos_importe completo) ;
  cli_imp ← llamar (clientes_importe completo) ;
  abc_p ← llamar (clasificacion_abc clave_producto prod_imp) ;
  abc_c ← llamar (clasificacion_abc Z cli_imp) ;
  emitir (Fin EtMetricas) ;;
  emitir (Info "métricas calculadas") ;;
  mret {| ticket_promedio := ticket; top5_productos := top5; medios_pago := medios;
          abc_productos := abc_p; abc_clientes := abc_c; df_completo := completo |}.

(** ** [exportar_resultados] *)

(** What the export does to the file system: the folders, then the
    files. *)
Definition escribir_exportaciones `{PipelineUtils} (m : Metricas) (config : Config)
    : resultado unit :=
  match crear_carpetas with
  | inl e => inl e
  | inr _ => escribir_archivos m config
  end.

(** The folders are made before the [try]: an exception of theirs is not
    recorded here. *)
Definition exportar_resultados `{PipelineUtils} (m : Metricas) (config : Config)
    : M unit :=
  emitir (Info "exportando") ;;
  llamar crear_carpetas ;;
  try_except "exportación" (
    llamar (escribir_archivos m config) ;;
    emitir (Info "archivos exportados") ;;
    emitir (Info "resumen generado") ;;
    emitir (Info "exportación completada")).

(** ** [ejecutar_pipeline] *)

(** The two loggers of the run are set up before the [try] (lines 354-355),
    so that an exception of theirs is neither recorded nor followed by any
    stage.  The stage timers, the memory figures and what the two loggers
    write at the end ([registrar_metricas], [registrar_performance]) do not
    touch the data, and are left out. *)

Definition Corrida : Type := Metricas * TablasLimpias.

Definition ejecutar_pipeline `{PipelineUtils} (config : Config) (fastmode : bool)
    : M Corrida :=
  emitir (Info "pipeline_start") ;;
  llamar configurar_performance_logger ;;
  llamar configure_metrics_logger ;;
  try_except "pipeline" (
    emitir (Inicio EtCarga) ;;
    t ← cargar_datasets config ;
    emitir (Fin EtCarga) ;;
    emitir (Inicio EtIntegridad) ;;
    ri ← llamar (validate_referential_integrity t config) ;
    emitir (Fin EtIntegridad) ;;
    emitir (Inicio EtLimpieza) ;;
    limpias ← limpiar_datos t ;
    emitir (Fin EtLimpieza) ;;
    metricas ← calcular_metricas limpias ;
    cuando (negb fastmode) (
      emitir (Inicio EtExportacion) ;;
      exportar_resultados metricas config ;;
      emitir (Fin EtExportacion)) ;;
    emitir (Info "pipeline_success") ;;
    mret (metricas, limpias)).

(** The set-up of the two loggers returns; or it raises [err]: the first
    logger does, or the second one after the first has returned. *)
Definition loggers_listos `{PipelineUtils} : Prop :=
  configurar_performance_logger = inr tt ∧ configure_metrics_logger = inr tt.

Definition fallo_de_loggers `{PipelineUtils} (err : excepcion) : Prop :=
  configurar_performance_logger = inl err
  ∨ (configurar_performance_logger = inr tt ∧ configure_metrics_logger = inl err).

(** A relation without orphans: one of its sides is empty, or every row of
    the referring side has its key among the rows of the referred side. *)
Definition sin_huerfanos {A B} (hijo : A → Z) (padre : B → Z) (hijos : list A)
    (padres : list B) : Prop :=
  hijos = [] ∨ padres = [] ∨ ∀ h, h ∈ hijos → ∃ p, p ∈ padres ∧ padre p = hijo h.

(** ** [aurelion.pipeline_utils] *)

Module pipeline_utils.

(** *** Referential integrity *)

(** The rows of the referring side whose key is absent from the referred
    side; with an empty table on either side there is nothing to count. *)
Definition huerfanos (hijos padres : list Z) : nat :=
  if decide (hijos = [] ∨ padres = []) then 0%nat
  else length (filter (λ k, k ∉ padres) hijos).

(** Modelled from the spec: [validate_referential_integrity] is defined in
    [aurelion/pipeline_utils.py], which is not among the sources.  It
    returns the flag "fully consistent" and the number of orphaned rows of
    each foreign-key relation: detail lines without their sale or their
    product, sales without their customer. *)
Definition validate_referential_integrity {N D C : Type} (t : Tablas N D)
    (config : C) : bool * RIStats :=
  let stats :=
    {| detalle_sin_venta :=
         huerfanos (Detalle.id_venta <$> filas (df_detalle t))
                   (Ventas.id_venta <$> filas (df_ventas t));
       detalle_sin_producto :=
         huerfanos (Detalle.id_producto <$> filas (df_detalle t))
                   (Productos.id_producto <$> filas (df_productos t));
       ventas_sin_cliente :=
         huerfanos (Ventas.id_cliente <$> filas (df_ventas t))
                   (Clientes.id_cliente <$> filas (df_clientes t)) |} in
  (bool_decide (detalle_sin_venta stats = 0%nat
                ∧ detalle_sin_producto stats = 0%nat
                ∧ ventas_sin_cliente stats = 0%nat), stats).

(** *** Cleaning *)

Section Limpieza.
(** Reading a number or a date out of a text cell, trimming and
    lower-casing are the library's. *)
Variable parse_number : string → option Q.
Variable parse_date : string → option Fecha.
Variable strip : string → string.
Variable lower : string → string.

Definition to_numeric (c : celda) : option Q :=
  match c with
  | Nulo => None
  | Num q => Some q
  | Texto s => parse_number s
  end.

Definition to_datetime (c : celda) : option Fecha :=
  match c with
  | Nulo => None
  | Num _ => None
  | Texto s => parse_date s
  end.

Definition limpiar_producto (r : Productos.fila celda) : option (Productos.fila Q) :=
  precio ← to_numeric (Productos.precio_unitario r) ;
  if Qle_bool 0 precio then
    Some {| Productos.id_producto := Productos.id_producto r;
            Productos.nombre_producto := strip <$> Productos.nombre_producto r;
            Productos.categoria := strip (Productos.categoria r);
            Productos.precio_unitario := precio |}
  else None.

Definition limpiar_cliente (r : Clientes.fila celda) : option (Clientes.fila Fecha) :=
  alta ← to_datetime (Clientes.fecha_alta r) ;
  Some {| Clientes.id_cliente := Clientes.id_cliente r;
          Clientes.nombre_cliente := strip (Clientes.nombre_cliente r);
          Clientes.email := strip (Clientes.email r);
          Clientes.ciudad := strip (Clientes.ciudad r);
          Clientes.fecha_alta := alta |}.

Definition limpiar_venta (r : Ventas.fila celda) : option (Ventas.fila Fecha) :=
  f ← to_datetime (Ventas.fecha r) ;
  Some {| Ventas.id_venta := Ventas.id_venta r;
          Ventas.fecha := f;
          Ventas.id_cliente := Ventas.id_cliente r;
          Ventas.medio_pago := lower (strip (Ventas.medio_pago r));
          Ventas.canal := lower (strip (Ventas.canal r)) |}.

Definition limpiar_linea (r : Detalle.fila celda) : option (Detalle.fila Q) :=
  cant ← to_numeric (Detalle.cantidad r) ;
  precio ← to_numeric (Detalle.precio_unitario r) ;
  imp ← to_numeric (Detalle.importe r) ;
  if negb (Qle_bool cant 0) && Qle_bool 0 precio then
    Some {| Detalle.id_venta := Detalle.id_venta r;
            Detalle.id_producto := Detalle.id_producto r;
            Detalle.cantidad := cant;
            Detalle.precio_unitario := precio;
            Detalle.importe := imp;
            Detalle.nombre_producto := strip <$> Detalle.nombre_producto r |}
  else None.

(** The identifier of a detail line is the pair of its references. *)
Definition id_linea {N} (r : Detalle.fila N) : Z * Z :=
  (Detalle.id_venta r, Detalle.id_producto r).

(** One table: the rows that repeat an identifier go, the first one
    stays; then the rows that cannot be coerced or break a rule go, and
    the others are normalised. *)
Definition limpiar_tabla {F G K} `{EqDecision K} (ident : F → K)
    (limpiar : F → option G) (df : DataFrame F) : DataFrame G :=
  {| columns := columns df;
     filas := omap limpiar (drop_duplicates ident (filas df)) |}.

(** Modelled from the spec: [clean_all] is defined in
    [aurelion/pipeline_utils.py], which is not among the sources.  Each
    table is cleaned on its own, by the rules in the order the spec
    lists them, and comes with its row counts before and after. *)
Definition clean_all (t : TablasCrudas) : TablasLimpias * CleanStats :=
  let prod := limpiar_tabla Productos.id_producto limpiar_producto (df_productos t) in
  let cli := limpiar_tabla Clientes.id_cliente limpiar_cliente (df_clientes t) in
  let ven := limpiar_tabla Ventas.id_venta limpiar_venta (df_ventas t) in
  let det := limpiar_tabla id_linea limpiar_linea (df_detalle t) in
  ({| df_productos := prod; df_clientes := cli; df_ventas := ven; df_detalle := det |},
   [ ("productos", (len (df_productos t), len prod));
     ("clientes", (len (df_clientes t), len cli));
     ("ventas", (len (df_ventas t), len ven));
     ("detalle", (len (df_detalle t), len det)) ]).
End Limpieza.

(** *** Integration *)

Definition columnas_completo : list string :=
  [ "id_venta"; "id_producto"; "cantidad"; "precio_unitario"; "importe";
    "nombre_producto"; "fecha"; "id_cliente"; "medio_pago"; "canal" ].

Definition nombre_en_productos (prods : list (Productos.fila Q)) (idp : Z)
    : option string :=
  p ← head (filter (λ p, Productos.id_producto p = idp) prods) ;
  Productos.nombre_producto p.

Definition fila_completa (prods : list (Productos.fila Q)) (d : Detalle.fila Q)
    (v : Ventas.fila Fecha) : Fact.fila :=
  {| Fact.id_venta := Detalle.id_venta d;
     Fact.fecha := Ventas.fecha v;
     Fact.id_cliente := Ventas.id_cliente v;
     Fact.medio_pago := Ventas.medio_pago v;
     Fact.canal := Ventas.canal v;
     Fact.id_producto := Detalle.id_producto d;
     Fact.nombre_producto :=
       match Detalle.nombre_producto d with
       | Some n => Some n
       | None => nombre_en_productos prods (Detalle.id_producto d)
       end;
     Fact.cantidad := Detalle.cantidad d;
     Fact.precio_unitario := Detalle.precio_unitario d;
     Fact.importe := Detalle.importe d |}.

(** Modelled from the spec: [integrate] is defined in
    [aurelion/pipeline_utils.py], which is not among the sources.  Inner
    join of the lines with their sale; the name a line carries is kept,
    a missing one is looked up among the products and stays null when the
    product is unknown. *)
Definition integrate (det : DataFrame (Detalle.fila Q))
    (ven : DataFrame (Ventas.fila Fecha)) (prod : DataFrame (Productos.fila Q))
    : DataFrame Fact.fila :=
  {| columns := columnas_completo;
     filas :=
       mbind (M := list)
         (λ d, fila_completa (filas prod) d
                 <$> filter (λ v, Ventas.id_venta v = Detalle.id_venta d) (filas ven))
         (filas det) |}.

(** *** Metrics *)

(** Adding an amount to the group of its key; a new key opens a group at
    the end. *)
Fixpoint acumular {K} `{EqDecision K} (k : K) (v : Q) (acc : list (K * Q))
    : list (K * Q) :=
  match acc with
  | [] => [(k, v)]
  | (k', v') :: resto =>
      if decide (k = k') then (k', (v' + v)%Q) :: resto
      else (k', v') :: acumular k v resto
  end.

(** Grouping rows by a key while summing an amount, row after row. *)
Definition agrupar_sumando {F K} `{EqDecision K} (clave : F → option K)
    (valor : F → Q) (fs : list F) : list (K * Q) :=
  foldl (λ acc r, match clave r with
                  | Some k => acumular k (valor r) acc
                  | None => acc
                  end) [] fs.

(** The product of a row: its identifier with the name the row carries,
    which may be null. *)
Definition producto_de (r : Fact.fila) : producto :=
  (Fact.id_producto r, Fact.nombre_producto r).

(** The per-product totals the ranking is made of: rows grouped by
    product identifier (and name); every row is of some product, so none
    is left out. *)
Definition importe_por_producto (df : DataFrame Fact.fila) : list (producto * Q) :=
  agrupar_sumando (λ r, Some (producto_de r)) Fact.importe (filas df).

(** [a] goes before [b]: the larger amount first, and of equal amounts
    the smaller product identifier. *)
Definition antes (a b : producto * Q) : bool :=
  negb (Qle_bool (snd a) (snd b))
  || (Qeq_bool (snd a) (snd b) && (fst (fst a) <=? fst (fst b))%Z).

(** Modelled from the spec: [top5_productos_por_importe] is defined in
    [aurelion/pipeline_utils.py], which is not among the sources.  Rows
    are grouped by product identifier (and name) summing the line amounts,
    the groups are sorted by amount, descending, ties by product
    identifier, ascending, and the first five are kept. *)
Definition top5_productos_por_importe (df : DataFrame Fact.fila)
    : list (producto * Q) :=
  take 5 (ordenar antes (importe_por_producto df)).

(** The share [x] has of [total], as a percentage.  The spec gives no
    share over a total of zero; nothing below is stated of that case. *)
Definition porcentaje (total x : Q) : Q := (x / total * 100)%Q.

(** Modelled from the spec: [medios_pago_pct] is defined in
    [aurelion/pipeline_utils.py], which is not among the sources.  The
    amounts are summed by payment method and divided by the total of all
    rows, as a percentage; a zero total gives the empty distribution. *)
Definition medios_pago_pct (df : DataFrame Fact.fila) : list (string * Q) :=
  let total := sumQ (Fact.importe <$> filas df) in
  if Qeq_bool total 0 then []
  else (λ kv, (fst kv, porcentaje total (snd kv)))
         <$> groupby_sum String.leb (λ r, Some (Fact.medio_pago r))
               Fact.importe (filas df).

(** The class of an entity, from its cumulative share of the revenue. *)
Definition clase_de (p : Q) : clase :=
  if Qle_bool p 80 then ClaseA
  else if Qle_bool p 95 then ClaseB
  else ClaseC.

(** The cumulative share of an entity is the share of the entities up to
    and including it. *)
Fixpoint etiquetar {K} (total acumulado : Q) (serie : list (K * Q))
    : list (FilaABC K) :=
  match serie with
  | [] => []
  | (k, v) :: resto =>
      {| entidad := k;
         ingreso := v;
         participacion_acumulada := porcentaje total (acumulado + v);
         clasificacion := clase_de (porcentaje total (acumulado + v)) |}
        :: etiquetar total (acumulado + v)%Q resto
  end.

Definition mayor_ingreso {K} (a b : K * Q) : bool := Qle_bool (snd b) (snd a).

(** Modelled from the spec: [clasificacion_abc] is defined in
    [aurelion/pipeline_utils.py], which is not among the sources.  The
    entities are sorted by revenue, descending, and the cumulative share
    of the revenue is computed along the list: an entity is of class A
    while its cumulative share is at most 80%, of class B while it is at
    most 95%, of class C otherwise; so the entity that takes the share
    over a threshold belongs to the class it crosses into. *)
Definition clasificacion_abc {K} (serie : list (K * Q)) : list (FilaABC K) :=
  etiquetar (sumQ (snd <$> serie)) 0 (ordenar mayor_ingreso serie).

Definition mes_de (r : Fact.fila) : Z * Z :=
  (anio (Fact.fecha r), mes (Fact.fecha r)).

Definition mes_leb (a b : Z * Z) : bool :=
  (fst a <? fst b)%Z || ((fst a =? fst b)%Z && (snd a <=? snd b)%Z).

Definition venta_mes_leb (a b : Z * Z * Z) : bool :=
  mes_leb (fst a) (fst b).

(** Modelled from the spec: [ticket_promedio_mensual] is defined in
    [aurelion/pipeline_utils.py], which is not among the sources.  One
    total per sale, then the mean of the totals of the sales of each
    calendar month, in chronological order. *)
Definition ticket_promedio_mensual (df : DataFrame Fact.fila) : list (Z * Z * Q) :=
  let por_venta :=
    groupby_sum venta_mes_leb (λ r, Some (mes_de r, Fact.id_venta r))
      Fact.importe (filas df) in
  let meses := ordenar mes_leb (remove_dups ((λ kv, fst (fst kv)) <$> por_venta)) in
  (λ m, let tickets := snd <$> filter (λ kv, fst (fst kv) = m) por_venta in
        (m, (sumQ tickets / inject_Z (Z.of_nat (length tickets)))%Q))
    <$> meses.
End pipeline_utils.

(** The products of an integrated table, once each: the identifiers of its
    rows with the names they carry; and the total of a product, the sum of
    the amounts of its rows. *)
Definition productos_de (df : DataFrame Fact.fila) : list producto :=
  remove_dups ((λ r, (Fact.id_producto r, Fact.nombre_producto r)) <$> filas df).

Definition total_de (df : DataFrame Fact.fila) (p : producto) : Q :=
  sumQ (Fact.importe
          <$> filter (λ r, Fact.id_producto r = fst p ∧ Fact.nombre_producto r = snd p)
                (filas df)).

(** The order of the ranking: [a] comes before [b] when its amount is
    larger, or the amounts are equal and its product identifier is not the
    larger one. *)
Definition va_antes (a b : producto * Q) : Prop :=
  (snd b < snd a)%Q ∨ ((snd a == snd b)%Q ∧ (fst (fst a) ≤ fst (fst b))%Z).

(** ** The stages of a run *)

Definition es_etapa (ev : evento) : bool :=
  match ev with
  | Inicio _ | Fin _ => true
  | _ => false
  end.

(** The stage boundaries of a log, in the order they were crossed. *)
Definition etapas (log : list evento) : list evento :=
  filter (λ ev, es_etapa ev = true) log.

Definition traza {X} (m : M X) : list evento := etapas (registro m).

(** The stages in the order the program goes through them; the export is
    left out in fast mode. *)
Definition secuencia (fastmode : bool) : list etapa :=
  [EtCarga; EtIntegridad; EtLimpieza; EtIntegracion; EtMetricas]
  ++ (if fastmode then [] else [EtExportacion]).

Definition orden_de (l : list etapa) : list evento :=
  mbind (M := list) (λ e, [Inicio e; Fin e]) l.

Definition orden_etapas (fastmode : bool) : list evento :=
  orden_de (secuencia fastmode).

(** [e'] comes before [e] in the sequence [l]. *)
Definition precede (l : list etapa) (e' e : etapa) : Prop :=
  ∃ l1 l2 l3, l = l1 ++ e' :: l2 ++ e :: l3.

(** ** A reference instance of the helpers *)

Definition parse_date_iso (s : string) : option Fecha :=
  if decide (s = "2025-01-05") then Some {| anio := 2025; mes := 1; dia := 5 |}
  else if decide (s = "2025-02-10") then Some {| anio := 2025; mes := 2; dia := 10 |}
  else None.

(** The helpers as modelled above, none of which raises, around a file
    system that does what it is told to: opening the performance log,
    reading the tables, making the folders of the export and writing its
    files. *)
Definition utils_con (apertura : resultado unit) (lectura : resultado TablasCrudas)
    (carpetas escritura : resultado unit) : PipelineUtils :=
  {| Config := unit;
     Rutas := unit;
     con_handlers := false;
     FileHandler := λ _, apertura;
     configure_metrics_logger := inr tt;
     resolve_routes := λ _, inr tt;
     read_tables := λ _, lectura;
     validate_referential_integrity := λ t c,
       inr (pipeline_utils.validate_referential_integrity t c);
     clean_all := λ t,
       inr (pipeline_utils.clean_all (λ _, None) parse_date_iso id id t);
     integrate := λ det ven prod, inr (pipeline_utils.integrate det ven prod);
     ticket_promedio_mensual := λ df, inr (pipeline_utils.ticket_promedio_mensual df);
     top5_productos_por_importe := λ df,
       inr (pipeline_utils.top5_productos_por_importe df);
     medios_pago_pct := λ df, inr (pipeline_utils.medios_pago_pct df);
     clasificacion_abc := λ K serie, inr (pipeline_utils.clasificacion_abc serie);
     crear_carpetas := carpetas;
     escribir_archivos := λ _ _, escritura |}.

(** The log opens and the folders are there. *)
Definition utils_modelo (lectura : resultado TablasCrudas)
    (escritura : resultado unit) : PipelineUtils :=
  utils_con (inr tt) lectura (inr tt) escritura.

(** ** Sample tables *)

Definition columnas_productos : list string :=
  ["id_producto"; "nombre_producto"; "categoria"; "precio_unitario"].
Definition columnas_clientes : list string :=
  ["id_cliente"; "nombre_cliente"; "email"; "ciudad"; "fecha_alta"].
Definition columnas_ventas : list string :=
  ["id_venta"; "fecha"; "id_cliente"; "medio_pago"; "canal"].
Definition columnas_detalle : list string :=
  ["id_venta"; "id_producto"; "cantidad"; "precio_unitario"; "importe"].

Definition pan : Productos.fila celda :=
  {| Productos.id_producto := 1; Productos.nombre_producto := Some "Bread";
     Productos.categoria := "bakery"; Productos.precio_unitario := Num 2 |}.

Definition ana : Clientes.fila celda :=
  {| Clientes.id_cliente := 10; Clientes.nombre_cliente := "Ana";
     Clientes.email := "ana@example.org"; Clientes.ciudad := "Lima";
     Clientes.fecha_alta := Texto "2025-01-05" |}.

Definition venta_100 : Ventas.fila celda :=
  {| Ventas.id_venta := 100; Ventas.fecha := Texto "2025-01-05";
     Ventas.id_cliente := 10; Ventas.medio_pago := "cash";
     Ventas.canal := "store" |}.

Definition linea_pan : Detalle.fila celda :=
  {| Detalle.id_venta := 100; Detalle.id_producto := 1; Detalle.cantidad := Num 3;
     Detalle.precio_unitario := Num 2; Detalle.importe := Num 6;
     Detalle.nombre_producto := None |}.

(** A line that refers to a product nobody knows. *)
Definition linea_huerfana : Detalle.fila celda :=
  {| Detalle.id_venta := 100; Detalle.id_producto := 99; Detalle.cantidad := Num 1;
     Detalle.precio_unitario := Num 5; Detalle.importe := Num 5;
     Detalle.nombre_producto := None |}.

Definition tablas_con (lineas : list (Detalle.fila celda)) : TablasCrudas :=
  {| df_productos := {| columns := columnas_productos; filas := [pan] |};
     df_clientes := {| columns := columnas_clientes; filas := [ana] |};
     df_ventas := {| columns := columnas_ventas; filas := [venta_100] |};
     df_detalle := {| columns := columnas_detalle; filas := lineas |} |}.

Definition tablas_ejemplo : TablasCrudas := tablas_con [linea_pan].
Definition tablas_huerfana : TablasCrudas := tablas_con [linea_pan; linea_huerfana].

(** A row of the integrated table: a line of sale [v], paid by [m], of
    product [p] named [n], bought by customer [c] for the amount [imp]. *)
Definition fila_de (v : Z) (m : string) (c p : Z) (n : option string) (imp : Q)
    : Fact.fila :=
  {| Fact.id_venta := v; Fact.fecha := {| anio := 2025; mes := 1; dia := 5 |};
     Fact.id_cliente := c; Fact.medio_pago := m; Fact.canal := "store";
     Fact.id_producto := p; Fact.nombre_producto := n;
     Fact.cantidad := 1; Fact.precio_unitario := imp; Fact.importe := imp |}.

Definition completo_de (fs : list Fact.fila) : DataFrame Fact.fila :=
  {| columns := pipeline_utils.columnas_completo; filas := fs |}.

Definition completo_dos_medios : DataFrame Fact.fila :=
  completo_de [ fila_de 100 "cash" 10 1 (Some "Bread") 6;
                fila_de 101 "card" 11 2 (Some "Milk") 2 ].

(** The helpers as modelled, reading the sample tables; the export works,
    or finds the disk full. *)
Definition utils_ejemplo : PipelineUtils :=
  utils_modelo (inr tablas_huerfana) (inr tt).

Definition utils_disco_lleno : PipelineUtils :=
  utils_modelo (inr tablas_ejemplo) (inl (ErrorExterno "exportación" "disco lleno")).

(** The sample tables once the detail lines have got their product names. *)
Definition tablas_huerfana_con_nombre : TablasCrudas :=
  {| df_productos := df_productos tablas_huerfana;
     df_clientes := df_clientes tablas_huerfana;
     df_ventas := df_ventas tablas_huerfana;
     df_detalle :=
       {| columns := columnas_detalle ++ ["nombre_producto"];
          filas := [con_nombre (Some "Bread") linea_pan;
                    con_nombre None linea_huerfana] |} |}.

Definition stats_huerfana : RIStats :=
  {| detalle_sin_venta := 0; detalle_sin_producto := 1; ventas_sin_cliente := 0 |}.



(** Two sales of bread, the second one a refund paid back on a card. *)
Definition venta_101 : Ventas.fila celda :=
  {| Ventas.id_venta := 101; Ventas.fecha := Texto "2025-02-10";
     Ventas.id_cliente := 10; Ventas.medio_pago := "card";
     Ventas.canal := "store" |}.

Definition linea_de (v : Z) (cant precio imp : Q) : Detalle.fila celda :=
  {| Detalle.id_venta := v; Detalle.id_producto := 1; Detalle.cantidad := Num cant;
     Detalle.precio_unitario := Num precio; Detalle.importe := Num imp;
     Detalle.nombre_producto := None |}.

Definition tablas_devolucion : TablasCrudas :=
  {| df_productos := {| columns := columnas_productos; filas := [pan] |};
     df_clientes := {| columns := columnas_clientes; filas := [ana] |};
     df_ventas := {| columns := columnas_ventas; filas := [venta_100; venta_101] |};
     df_detalle := {| columns := columnas_detalle;
                      filas := [linea_de 100 75 2 150; linea_de 101 25 2 (-50)] |} |}.



(** Six products, two of them with the same total. *)
Definition completo_seis : DataFrame Fact.fila :=
  completo_de [ fila_de 100 "cash" 10 3 (Some "Milk") 5;
                fila_de 100 "cash" 10 1 (Some "Bread") 6;
                fila_de 101 "card" 11 2 (Some "Eggs") 5;
                fila_de 101 "card" 11 4 (Some "Salt") 1;
                fila_de 102 "cash" 10 5 (Some "Rice") 9;
                fila_de 102 "cash" 10 6 (Some "Soap") 3;
                fila_de 103 "cash" 12 1 (Some "Bread") 6 ].

(** ** [make_json_serializable] *)

(** The entries of a numeric or boolean [numpy] array, and the array with
    its axes. *)
Inductive escalar : Type :=
| EInt (z : Z)
| EFloat (q : Q)
| EBool (b : bool).

#[warnings="-register-all"]
Inductive ndarray : Type :=
| Escalar (e : escalar)
| Eje (l : list ndarray).

(** The values the loggers are given: Python's own scalars and containers
    (dictionaries with string keys), and the scalars and arrays of [numpy].
    An array of dtype [object] holds Python objects of any kind, and is
    given by what its [tolist] returns: the objects as they are, in a list
    for each axis. *)
#[warnings="-register-all"]
Inductive objeto : Type :=
| PyNone
| PyBool (b : bool)
| PyInt (z : Z)
| PyFloat (q : Q)
| PyStr (s : string)
| NpInteger (z : Z)
| NpFloating (q : Q)
| NpBool (b : bool)
| NdArray (a : ndarray)
| NdObject (contenido : objeto)
| PyDict (d : list (string * objeto))
| PyList (l : list objeto)
| PyTuple (l : list objeto).

Definition item (e : escalar) : objeto :=
  match e with
  | EInt z => PyInt z
  | EFloat q => PyFloat q
  | EBool b => PyBool b
  end.

(** [ndarray.tolist()] of a numeric or boolean array: the entries become
    Python scalars. *)
Fixpoint tolist (a : ndarray) : objeto :=
  match a with
  | Escalar e => item e
  | Eje l => PyList (List.map tolist l)
  end.

(** The branches in their order: the integers and the floats of [numpy],
    arrays (what an array of objects holds is not looked at), dictionaries,
    lists, then anything with an [item] method (of the values here, the
    booleans of [numpy]); the rest comes back as it is, tuples among it. *)
Fixpoint make_json_serializable (obj : objeto) : objeto :=
  match obj with
  | NpInteger z => PyInt z
  | NpFloating q => PyFloat q
  | NdArray a => tolist a
  | NdObject contenido => contenido
  | PyDict d =>
      PyDict (List.map (λ kv, match kv with
                              | (key, value) => (key, make_json_serializable value)
                              end) d)
  | PyList l => PyList (List.map make_json_serializable l)
  | NpBool b => PyBool b
  | _ => obj
  end.

(** The number of constructors of a value. *)
Fixpoint objeto_size (obj : objeto) : nat :=
  match obj with
  | NdObject contenido => S (objeto_size contenido)
  | PyDict d => S (list_sum (List.map (λ kv, objeto_size (snd kv)) d))
  | PyList l => S (list_sum (List.map objeto_size l))
  | PyTuple l => S (list_sum (List.map objeto_size l))
  | _ => 1%nat
  end.

(** No value of [numpy] anywhere in the value. *)
Fixpoint libre_de_numpy (obj : objeto) : bool :=
  match obj with
  | NpInteger _ | NpFloating _ | NpBool _ | NdArray _ | NdObject _ => false
  | PyDict d => forallb (λ kv, libre_de_numpy (snd kv)) d
  | PyList l => forallb libre_de_numpy l
  | PyTuple l => forallb libre_de_numpy l
  | _ => true
  end.

(** No value of [numpy] inside a tuple or an array of objects of the value,
    the tuples and the arrays being looked for in the value itself and
    through its dictionaries and lists. *)
Fixpoint interior_limpio (obj : objeto) : bool :=
  match obj with
  | PyDict d => forallb (λ kv, interior_limpio (snd kv)) d
  | PyList l => forallb interior_limpio l
  | PyTuple l => forallb libre_de_numpy l
  | NdObject contenido => libre_de_numpy contenido
  | _ => true
  end.

(** No value of [numpy] in the value itself or met through its dictionaries
    and lists: nothing the conversion would touch. *)
Fixpoint convertido (obj : objeto) : bool :=
  match obj with
  | NpInteger _ | NpFloating _ | NpBool _ | NdArray _ | NdObject _ => false
  | PyDict d => forallb (λ kv, convertido (snd kv)) d
  | PyList l => forallb convertido l
  | _ => true
  end.

(** Every array of objects met through the dictionaries and lists of the
    value holds nothing the conversion would touch. *)
Fixpoint arreglos_convertidos (obj : objeto) : bool :=
  match obj with
  | NdObject contenido => convertido contenido
  | PyDict d => forallb (λ kv, arreglos_convertidos (snd kv)) d
  | PyList l => forallb arreglos_convertidos l
  | _ => true
  end.

(** ** [_format_bytes] *)

Definition step : Q := 1024.

Definition units : list string := ["B"; "KB"; "MB"; "GB"; "TB"].

(** The loop over the units: the size is returned with the first unit
    under which it is below the step, and divided by the step otherwise;
    past the last unit it is in petabytes. *)
Fixpoint format_bytes_bucle (size : Q) (pendientes : list string) : Q * string :=
  match pendientes with
  | [] => (size, "PB")
  | unit :: resto =>
      if negb (Qle_bool step size) then (size, unit)
      else format_bytes_bucle (size / step) resto
  end.

(** The size and the unit that [_format_bytes] writes, the size with one
    decimal.  Dividing a float by 1024 is exact, and so is [float(num_bytes)]
    for a number of bytes up to 2^53, so nothing is lost in the rationals
    for such numbers. *)
Definition _format_bytes (num_bytes : Z) : Q * string :=
  format_bytes_bucle (inject_Z num_bytes) units.

(** The units with the petabytes after them, and the number of bytes the
    [j]-th of them stands for. *)
Definition unidades : list string := units ++ ["PB"].

Definition escala (j : nat) : Q := inject_Z (1024 ^ Z.of_nat j).

(** ** The log of a run that returns *)

(** What [cargar_datasets] logs when it returns: the start, the warning for
    the optional column and the notice of the merge when the detail lines
    came without product names, the end of the load, the orphan counts, and
    the warning when they are not all zero. *)
Definition registro_carga (t0 : TablasCrudas) (ok : bool) (stats : RIStats)
    : list evento :=
  [Info "load_start"]
  ++ (if decide ("nombre_producto" ∈ columns (df_detalle t0)) then []
      else [OptionalColumnMissing "detalle" {[ "nombre_producto" ]};
            Info "detalle_nombre_producto_merge"])
  ++ [Info "load_ok"; RiCheck stats]
  ++ (if ok then [] else [RiWarning]).

(** What [limpiar_datos] logs for the counts of [clean_all]: a line for each
    table, a warning when rows were discarded. *)
Definition registro_limpieza (cstats : CleanStats) : list evento :=
  [Info "limpieza"]
  ++ ((λ '(tabla, (inicial, final)),
         if decide (final < inicial)%nat then Descartes tabla inicial final
         else Info "sin descartes") <$> cstats)
  ++ [Info "limpieza completada"].

Definition registro_exportacion : list evento :=
  [Inicio EtExportacion; Info "exportando"; Info "archivos exportados";
   Info "resumen generado"; Info "exportación completada"; Fin EtExportacion].

Definition registro_corrida (t0 : TablasCrudas) (ok : bool) (stats : RIStats)
    (cstats : CleanStats) (fastmode : bool) : list evento :=
  [Info "pipeline_start"; Inicio EtCarga]
  ++ registro_carga t0 ok stats
  ++ [Fin EtCarga; Inicio EtIntegridad; Fin EtIntegridad; Inicio EtLimpieza]
  ++ registro_limpieza cstats
  ++ [Fin EtLimpieza; Info "calculando métricas"; Inicio EtIntegracion;
      Fin EtIntegracion; Inicio EtMetricas; Fin EtMetricas;
      Info "métricas calculadas"]
  ++ (if fastmode then [] else registro_exportacion)
  ++ [Info "pipeline_success"].

Definition es_error (ev : evento) : bool :=
  match ev with
  | ErrorRegistrado _ _ | MensajeRegistrado _ _ => true
  | _ => false
  end.

(** The records of [manejar_error] in a log. *)
Definition errores (log : list evento) : list evento :=
  filter (λ ev, es_error ev = true) log.

(** ** The log of a run that raises *)

(** The places [manejar_error] is called from in the course of a run. *)
Definition lugares : list string := ["ingesta"; "exportación"; "pipeline"].

(** A record of [manejar_error] for the exception [e], written at one of
    these places: it holds [e], or the message of [e]. *)
Definition registra (ev : evento) (e : excepcion) : Prop :=
  ∃ donde, donde ∈ lugares
           ∧ (ev = ErrorRegistrado donde e ∨ ev = MensajeRegistrado donde (TextoDe e)).

(** Every record of [manejar_error] in the log is for the exception the
    computation raises. *)
Definition errores_propios {A} (m : M A) : Prop :=
  ∀ ev, ev ∈ registro m → es_error ev = true →
        ∃ e, salida m = inl e ∧ registra ev e.

(** The mark of success is not in the log. *)
Definition sin_exito {A} (m : M A) : Prop :=
  Info "pipeline_success" ∉ registro m.

(** The mark of success is in the log of a computation that returns only. *)
Definition exito_al_volver {A} (m : M A) : Prop :=
  Info "pipeline_success" ∈ registro m → ∃ v, salida m = inr v.

(** ** The two modes of a run *)

(** What the export stage leaves in the log, for the results of making the
    folders and of writing the files: an exception of the folders is not
    recorded by the export, one of the files is. *)
Definition registro_de_exportar (carpetas archivos : resultado unit) : list evento :=
  [Inicio EtExportacion; Info "exportando"]
  ++ match carpetas with
     | inl _ => []
     | inr _ =>
         match archivos with
         | inl e => [ErrorRegistrado "exportación" e]
         | inr _ => [Info "archivos exportados"; Info "resumen generado";
                     Info "exportación completada"; Fin EtExportacion]
         end
     end.

(** Two computations that differ by the export only: they are the same
    when the first raises, and otherwise the second one exports what the
    first returns before the mark of success; when the export raises, the
    second one ends with the records [al_fallar] of the exception. *)
Definition exporta_de_mas `{PipelineUtils} (config : Config)
    (al_fallar : excepcion → list evento) (rapida completa : M Corrida) : Prop :=
  match salida rapida with
  | inl _ => completa = rapida
  | inr v =>
      ∃ comun,
        registro rapida = comun ++ [Info "pipeline_success"]
        ∧ registro completa
          = comun ++ registro_de_exportar crear_carpetas
                       (escribir_archivos (fst v) config)
              ++ match escribir_exportaciones (fst v) config with
                 | inl e => al_fallar e
                 | inr _ => [Info "pipeline_success"]
                 end
        ∧ salida completa
          = match escribir_exportaciones (fst v) config with
            | inl e => inl e
            | inr _ => inr v
            end
  end.

(** ** Errors of the ingestion *)

(** What is in the log when [cargar_datasets] starts to read, in a run
    whose loggers are set up. *)
Definition inicio_de_la_carga : list evento :=
  [Info "pipeline_start"; Inicio EtCarga; Info "load_start"].

(** Tables of which the products come without category and price. *)
Definition tablas_sin_categoria : TablasCrudas :=
  {| df_productos := {| columns := ["id_producto"; "nombre_producto"]; filas := [pan] |};
     df_clientes := df_clientes tablas_ejemplo;
     df_ventas := df_ventas tablas_ejemplo;
     df_detalle := df_detalle tablas_ejemplo |}.

Definition utils_sin_categoria : PipelineUtils :=
  utils_modelo (inr tablas_sin_categoria) (inr tt).

(** Tables of which the products come without category and price, and the
    customers without e-mail. *)
Definition tablas_sin_email : TablasCrudas :=
  {| df_productos := df_productos tablas_sin_categoria;
     df_clientes :=
       {| columns := ["id_cliente"; "nombre_cliente"; "ciudad"; "fecha_alta"];
          filas := [ana] |};
     df_ventas := df_ventas tablas_ejemplo;
     df_detalle := df_detalle tablas_ejemplo |}.

(** ** Rows without a product name *)

(** Two lines of a sale, the second one of a product nobody knows. *)
Definition completo_con_huerfana : DataFrame Fact.fila :=
  completo_de [ fila_de 100 "cash" 10 1 (Some "Bread") 6;
                fila_de 100 "cash" 10 99 None 5 ].

(** ** [mostrar_registros_recientes] *)

(** Dates in the order of the calendar. *)
Definition fecha_leb (a b : Fecha) : bool :=
  (anio a <? anio b)%Z
  || ((anio a =? anio b)%Z
      && ((mes a <? mes b)%Z || ((mes a =? mes b)%Z && (dia a <=? dia b)%Z))).

(** The order of [nlargest]: the later sale comes first. *)
Definition mas_reciente (a b : Ventas.fila Fecha) : bool :=
  fecha_leb (Ventas.fecha b) (Ventas.fecha a).

(** What is printed for a line of a sale, and for the sale. *)
Module Recientes.
Record linea : Type := {
  nombre_producto : option string;
  cantidad : Q;
  precio_unitario : Q;
  importe : Q }.

Record bloque : Type := {
  venta : Ventas.fila Fecha;
  lineas : list linea;
  total : Q }.
End Recientes.

(** The first of the columns asked for that a table lacks: looking up a
    column that is not there raises [KeyError]. *)
Definition columna_ausente (cols pedidas : list string) : option string :=
  head (filter (λ c, c ∉ cols) pedidas).

(** [item.get('nombre_producto', 'Producto sin nombre')] *)
Definition nombre_mostrado (cols : list string) (r : Detalle.fila Q) : option string :=
  if decide ("nombre_producto" ∈ cols) then Detalle.nombre_producto r
  else Some "Producto sin nombre".

(** The line printed for a detail line. *)
Definition linea_mostrada (cols : list string) (r : Detalle.fila Q)
    : resultado Recientes.linea :=
  match columna_ausente cols ["cantidad"; "precio_unitario"; "importe"] with
  | Some c => inl (KeyError c)
  | None =>
      inr {| Recientes.nombre_producto := nombre_mostrado cols r;
             Recientes.cantidad := Detalle.cantidad r;
             Recientes.precio_unitario := Detalle.precio_unitario r;
             Recientes.importe := Detalle.importe r |}
  end.

(** [for _, item in detalle.iterrows(): print(...)] *)
Fixpoint lineas_mostradas (cols : list string) (detalle : list (Detalle.fila Q))
    : resultado (list Recientes.linea) :=
  match detalle with
  | [] => inr []
  | r :: resto =>
      match linea_mostrada cols r with
      | inl e => inl e
      | inr l =>
          match lineas_mostradas cols resto with
          | inl e => inl e
          | inr ls => inr (l :: ls)
          end
      end
  end.

(** One turn of the loop over the sales: the lines of the sale, then their
    total. *)
Definition bloque_de (df_detalle : DataFrame (Detalle.fila Q))
    (v : Ventas.fila Fecha) : resultado Recientes.bloque :=
  if decide ("id_venta" ∈ columns df_detalle) then
    let detalle :=
      filter (λ r, Detalle.id_venta r = Ventas.id_venta v) (filas df_detalle) in
    match lineas_mostradas (columns df_detalle) detalle with
    | inl e => inl e
    | inr ls =>
        if decide ("importe" ∈ columns df_detalle) then
          inr {| Recientes.venta := v; Recientes.lineas := ls;
                 Recientes.total := sumQ (Detalle.importe <$> detalle) |}
        else inl (KeyError "importe")
    end
  else inl (KeyError "id_venta").

Fixpoint bloques_de (df_detalle : DataFrame (Detalle.fila Q))
    (ventas : list (Ventas.fila Fecha)) : resultado (list Recientes.bloque) :=
  match ventas with
  | [] => inr []
  | v :: resto =>
      match bloque_de df_detalle v with
      | inl e => inl e
      | inr b =>
          match bloques_de df_detalle resto with
          | inl e => inl e
          | inr bs => inr (b :: bs)
          end
      end
  end.

(** [df_ventas.nlargest(n, 'fecha')[['id_venta', 'fecha', 'id_cliente', 'medio_pago']]]:
    the [n] latest sales, the latest first; none when [n] is not positive. *)
Definition ventas_recientes (df_ventas : DataFrame (Ventas.fila Fecha)) (n : Z)
    : resultado (list (Ventas.fila Fecha)) :=
  if decide ("fecha" ∈ columns df_ventas) then
    match columna_ausente (columns df_ventas)
            ["id_venta"; "fecha"; "id_cliente"; "medio_pago"] with
    | Some c => inl (KeyError c)
    | None => inr (take (Z.to_nat n) (ordenar mas_reciente (filas df_ventas)))
    end
  else inl (KeyError "fecha").

(** What [mostrar_registros_recientes] prints when it returns, sale by
    sale; what it has printed before it raises is left out. *)
Definition mostrar_registros_recientes (df_ventas : DataFrame (Ventas.fila Fecha))
    (df_detalle : DataFrame (Detalle.fila Q)) (n : Z)
    : resultado (list Recientes.bloque) :=
  match ventas_recientes df_ventas n with
  | inl e => inl e
  | inr ventas => bloques_de df_detalle ventas
  end.

(** The cleaned sample tables: two sales, the second one a refund. *)
Definition ventas_limpias_ejemplo : DataFrame (Ventas.fila Fecha) :=
  {| columns := columnas_ventas;
     filas := [ {| Ventas.id_venta := 100;
                   Ventas.fecha := {| anio := 2025; mes := 1; dia := 5 |};
                   Ventas.id_cliente := 10; Ventas.medio_pago := "cash";
                   Ventas.canal := "store" |};
                {| Ventas.id_venta := 101;
                   Ventas.fecha := {| anio := 2025; mes := 2; dia := 10 |};
                   Ventas.id_cliente := 10; Ventas.medio_pago := "card";
                   Ventas.canal := "store" |} ] |}.

Definition detalle_limpio_ejemplo : DataFrame (Detalle.fila Q) :=
  {| columns := columnas_detalle;
     filas := [ {| Detalle.id_venta := 100; Detalle.id_producto := 1;
                   Detalle.cantidad := 75%Q; Detalle.precio_unitario := 2%Q;
                   Detalle.importe := 150%Q; Detalle.nombre_producto := None |};
                {| Detalle.id_venta := 101; Detalle.id_producto := 1;
                   Detalle.cantidad := 25%Q; Detalle.precio_unitario := 2%Q;
                   Detalle.importe := (-50)%Q; Detalle.nombre_producto := None |};
                {| Detalle.id_venta := 999; Detalle.id_producto := 1;
                   Detalle.cantidad := 1%Q; Detalle.precio_unitario := 2%Q;
                   Detalle.importe := 2%Q; Detalle.nombre_producto := None |} ] |}.

(** ** [menu_interactivo] *)

(** What the menu needs of its surroundings: the two string methods it
    reads a number with, the two functions of the program that write the
    metrics out, each of which may raise, and the lines of the performance
    log.  The surroundings are taken not to change during a session. *)
Class Consola : Type := {
  isdigit : string → bool;
  int : string → resultado Z;
  mostrar_metricas_consola : Metricas → resultado unit;
  generar_resumen_markdown : Metricas → resultado unit;
  leer_performance : resultado (list string) }.

(** The variables of the loop: the results of the last run that returned. *)
Module Menu.
Record estado : Type := {
  metricas : option Metricas;
  df_ventas : option (DataFrame (Ventas.fila Fecha));
  df_detalle : option (DataFrame (Detalle.fila Q)) }.
End Menu.

(** What a session puts on the screen: the menu, the run of the pipeline
    with its log and its outcome, the warning that nothing has been run
    yet, the calls that show results with their arguments, the tail of the
    performance log, the outcome of the report, the farewell, and the
    complaint about an option that is none. *)
Inductive pantalla : Type :=
| MenuMostrado
| PipelineEjecutado (log : list evento)
| PipelineCorrecto
| PipelineError (e : excepcion)
| DebeEjecutar
| MetricasMostradas (m : Metricas)
| RegistrosRecientes (ventas : DataFrame (Ventas.fila Fecha))
    (detalle : DataFrame (Detalle.fila Q)) (n : Z)
| Performance (lineas : list string)
| PerformanceIlegible (e : excepcion)
| ReporteGenerado (m : Metricas)
| ReporteError (m : Metricas) (e : excepcion)
| Despedida
| OpcionInvalida.

(** [input] raises [EOFError] when there is nothing left to read. *)
Definition EOFError : excepcion := ErrorExterno "input" "EOFError".

(** [int(n) if n.isdigit() else 10] *)
Definition cuantos `{Consola} (n : string) : resultado Z :=
  if isdigit n then int n else inr 10%Z.

(** [list(f)[-5:]] *)
Definition ultimas {A} (k : nat) (l : list A) : list A :=
  drop (length l - k) l.

(** The screen of a turn of the loop, then the rest of the session. *)
Definition seguir (turno : list pantalla) (r : list pantalla * resultado unit)
    : list pantalla * resultado unit :=
  (turno ++ fst r, snd r).

(** The loop of [menu_interactivo], over the answers typed in, each one
    already stripped of the blanks around it. *)
Fixpoint menu_bucle `{PipelineUtils} `{Consola} (config : Config) (st : Menu.estado)
    (entradas : list string) : list pantalla * resultado unit :=
  match entradas with
  | [] => ([MenuMostrado], inl EOFError)
  | opcion :: resto =>
      if decide (opcion = "1") then
        let corrida := ejecutar_pipeline config false in
        match salida corrida with
        | inr (metricas, limpias) =>
            seguir [MenuMostrado; PipelineEjecutado (registro corrida); PipelineCorrecto]
              (menu_bucle config
                 {| Menu.metricas := Some metricas;
                    Menu.df_ventas := Some (df_ventas limpias);
                    Menu.df_detalle := Some (df_detalle limpias) |} resto)
        | inl e =>
            seguir [MenuMostrado; PipelineEjecutado (registro corrida); PipelineError e]
              (menu_bucle config st resto)
        end
      else if decide (opcion = "2") then
        match Menu.metricas st with
        | None => seguir [MenuMostrado; DebeEjecutar] (menu_bucle config st resto)
        | Some m =>
            match mostrar_metricas_consola m with
            | inl e => ([MenuMostrado; MetricasMostradas m], inl e)
            | inr _ =>
                seguir [MenuMostrado; MetricasMostradas m] (menu_bucle config st resto)
            end
        end
      else if decide (opcion = "3") then
        match Menu.df_ventas st, Menu.df_detalle st with
        | Some ventas, Some detalle =>
            match resto with
            | [] => ([MenuMostrado], inl EOFError)
            | n :: resto' =>
                match cuantos n with
                | inl e => ([MenuMostrado], inl e)
                | inr k =>
                    match mostrar_registros_recientes ventas detalle k with
                    | inl e => ([MenuMostrado; RegistrosRecientes ventas detalle k], inl e)
                    | inr _ =>
                        seguir [MenuMostrado; RegistrosRecientes ventas detalle k]
                          (menu_bucle config st resto')
                    end
                end
            end
        | _, _ => seguir [MenuMostrado; DebeEjecutar] (menu_bucle config st resto)
        end
      else if decide (opcion = "4") then
        seguir [MenuMostrado;
                match leer_performance with
                | inl e => PerformanceIlegible e
                | inr lineas => Performance (ultimas 5 lineas)
                end]
          (menu_bucle config st resto)
      else if decide (opcion = "5") then
        match Menu.metricas st with
        | None => seguir [MenuMostrado; DebeEjecutar] (menu_bucle config st resto)
        | Some m =>
            seguir [MenuMostrado;
                    match generar_resumen_markdown m with
                    | inl e => ReporteError m e
                    | inr _ => ReporteGenerado m
                    end]
              (menu_bucle config st resto)
        end
      else if decide (opcion = "0") then ([MenuMostrado; Despedida], inr tt)
      else seguir [MenuMostrado; OpcionInvalida] (menu_bucle config st resto)
  end.

Definition menu_interactivo `{PipelineUtils} `{Consola} (config : Config)
    (entradas : list string) : list pantalla * resultado unit :=
  menu_bucle config
    {| Menu.metricas := None; Menu.df_ventas := None; Menu.df_detalle := None |}
    entradas.

(** A screen that shows results of a run. *)
Definition es_muestra (p : pantalla) : bool :=
  match p with
  | MetricasMostradas _ | RegistrosRecientes _ _ _ | ReporteGenerado _
  | ReporteError _ _ => true
  | _ => false
  end.

(** The results on a screen are those of the run [c]. *)
Definition muestra_de (c : Corrida) (p : pantalla) : Prop :=
  match p with
  | MetricasMostradas m | ReporteGenerado m | ReporteError m _ => m = fst c
  | RegistrosRecientes ventas detalle _ =>
      ventas = df_ventas (snd c) ∧ detalle = df_detalle (snd c)
  | _ => True
  end.

(** The variables of the loop hold nothing to show. *)
Definition sin_resultados (st : Menu.estado) : Prop :=
  Menu.metricas st = None
  ∧ (Menu.df_ventas st = None ∨ Menu.df_detalle st = None).

(** The variables of the loop hold nothing but results of the run [c]. *)
Definition resultados_de (c : Corrida) (st : Menu.estado) : Prop :=
  (∀ m, Menu.metricas st = Some m → m = fst c)
  ∧ (∀ ventas, Menu.df_ventas st = Some ventas → ventas = df_ventas (snd c))
  ∧ (∀ detalle, Menu.df_detalle st = Some detalle → detalle = df_detalle (snd c)).

(** The screen after a run that has returned. *)
Definition es_correcto (p : pantalla) : bool :=
  match p with
  | PipelineCorrecto => true
  | _ => false
  end.

(** No screen shows results before a run has returned; [hay] tells whether
    one has returned already. *)
Fixpoint protegido (hay : bool) (l : list pantalla) : Prop :=
  match l with
  | [] => True
  | p :: l =>
      (es_muestra p = true → hay = true)
      ∧ protegido (hay || es_correcto p) l
  end.
(** The variables of the loop hold what a run of the pipeline gives: its
    results, or nothing when it raises. *)
Definition estado_acorde `{PipelineUtils} (config : Config) (st : Menu.estado) : Prop :=
  match salida (ejecutar_pipeline config false) with
  | inr c => resultados_de c st
  | inl _ => sin_resultados st
  end.

(** A console for the sample session: decimal numbers are read as such,
    and everything that is shown or written works. *)
Definition es_digito (c : Ascii.ascii) : bool :=
  (48 <=? Ascii.nat_of_ascii c)%nat && (Ascii.nat_of_ascii c <=? 57)%nat.

Fixpoint todos_digitos (s : string) : bool :=
  match s with
  | EmptyString => true
  | String c s => es_digito c && todos_digitos s
  end.

Fixpoint valor_decimal (acc : Z) (s : string) : Z :=
  match s with
  | EmptyString => acc
  | String c s => valor_decimal (10 * acc + Z.of_nat (Ascii.nat_of_ascii c) - 48) s
  end.

Definition consola_ejemplo : Consola :=
  {| isdigit := λ s, negb (String.eqb s "") && todos_digitos s;
     int := λ s, inr (valor_decimal 0 s);
     mostrar_metricas_consola := λ _, inr tt;
     generar_resumen_markdown := λ _, inr tt;
     leer_performance := inr [] |}.

(** ** [main] *)

(** The arguments of the command line, as [argparse] hands them over. *)
Module Args.
Record t : Type := { run : option string; help : bool }.
End Args.

(** What [main] needs of its surroundings besides the helpers of the
    pipeline and the console: what [init] of [colorama] does when the
    package can be imported, the version of the interpreter, the set-up of
    the logger, the configuration file with the two kinds of error the
    program tells apart, and the overview of the project, which may
    raise. *)
Class Arranque `{PipelineUtils} : Type := {
  colorama : option (resultado unit);
  version_info : Z * Z;
  configurar_logging : resultado unit;
  load_config : resultado Config;
  es_FileNotFoundError : excepcion → bool;
  es_JSONDecodeError : excepcion → bool;
  mostrar_resumen_proyecto : Config → resultado unit }.

(** [colorama_init(autoreset=True)] (line 676): without the package the
    name stands for [lambda: None] (line 48), which takes no argument, and
    the call raises. *)
Definition colorama_init `{Arranque} : resultado unit :=
  match colorama with
  | Some r => r
  | None => inl (TypeError "autoreset")
  end.

(** How [main] ends: it returns, it leaves through [sys.exit], or it lets
    an exception through. *)
Inductive final : Type :=
| Termina
| SystemExit (codigo : Z)
| Propaga (e : excepcion).

(** [sys.version_info < (3, 11)], on the major and minor numbers. *)
Definition version_menor (v w : Z * Z) : bool :=
  (fst v <? fst w)%Z || ((fst v =? fst w)%Z && (snd v <? snd w)%Z).

(** [cargar_configuracion] hands [manejar_error] a message. *)
Definition cargar_configuracion `{Arranque} : M Config :=
  match load_config with
  | inr config => emitir (Info "config_loaded") ;; mret config
  | inl e =>
      if es_FileNotFoundError e then
        manejar_mensaje "configuración"
          (Literal "Archivo de configuración no encontrado") ;;
        raise e
      else if es_JSONDecodeError e then
        manejar_mensaje "configuración"
          (Seguido "Error al parsear configuración: " e) ;;
        raise e
      else raise e
  end.

(** What a session of the menu leaves in the log: the logs of its runs. *)
Definition registro_de_pantalla (p : pantalla) : list evento :=
  match p with
  | PipelineEjecutado log => log
  | _ => []
  end.

Definition registro_de_sesion (sesion : list pantalla) : list evento :=
  mbind (M := list) registro_de_pantalla sesion.

(** The mode [main] runs the pipeline in: fast with [--run fastmode], full
    with [--run full] and from the menu. *)
Definition modo (args : Args.t) : bool :=
  bool_decide (Args.run args = Some "fastmode").

(** The branches on [args.run]. *)
Definition despachar `{PipelineUtils} `{Consola} (config : Config) (args : Args.t)
    (entradas : list string) : M unit :=
  if decide (Args.run args = Some "full") then
    ejecutar_pipeline config false ;; mret tt
  else if decide (Args.run args = Some "fastmode") then
    ejecutar_pipeline config true ;; mret tt
  else
    let sesion := menu_interactivo config entradas in
    (registro_de_sesion (fst sesion), snd sesion).

(** The body of the [try] of [main]. *)
Definition cuerpo_de_main `{PipelineUtils} `{Consola} `{!Arranque} (args : Args.t)
    (entradas : list string) : M unit :=
  config ← cargar_configuracion ;
  llamar (mostrar_resumen_proyecto config) ;;
  emitir (Info "env_detected") ;;
  despachar config args entradas.

(** [main]: the log it leaves and how it ends. *)
Definition main `{PipelineUtils} `{Consola} `{!Arranque} (args : Args.t)
    (entradas : list string) : list evento * final :=
  match colorama_init with
  | inl e => ([], Propaga e)
  | inr _ =>
      if version_menor version_info (3, 11)%Z then ([], SystemExit 1)
      else
        match configurar_logging with
        | inl e => ([], Propaga e)
        | inr _ =>
            if Args.help args then ([], SystemExit 0)
            else
              let cuerpo := cuerpo_de_main args entradas in
              (registro cuerpo
                 ++ match salida cuerpo with
                    | inl e => [ErrorRegistrado "main" e]
                    | inr _ => []
                    end
                 ++ [Info "cerrando"], Termina)
        end
  end.

(** A start on a recent interpreter, with a configuration file. *)
Definition arranque_ejemplo (H : PipelineUtils) (config : Config) : Arranque :=
  {| colorama := Some (inr tt);
     version_info := (3, 12)%Z;
     configurar_logging := inr tt;
     load_config := inr config;
     es_FileNotFoundError := λ _, false;
     es_JSONDecodeError := λ _, false;
     mostrar_resumen_proyecto := λ _, inr tt |}.

(** The same start without [colorama]. *)
Definition arranque_sin_colorama (H : PipelineUtils) (config : Config) : Arranque :=
  {| colorama := None;
     version_info := (3, 12)%Z;
     configurar_logging := inr tt;
     load_config := inr config;
     es_FileNotFoundError := λ _, false;
     es_JSONDecodeError := λ _, false;
     mostrar_resumen_proyecto := λ _, inr tt |}.

(** ** Products listed twice *)

(** The bread under a second name, and the sample tables with the bread
    listed under both. *)
Definition pan_integral : Productos.fila celda :=
  {| Productos.id_producto := 1; Productos.nombre_producto := Some "Brown bread";
     Productos.categoria := "bakery"; Productos.precio_unitario := Num 2 |}.

Definition tablas_pan_doble : TablasCrudas :=
  {| df_productos := {| columns := columnas_productos; filas := [pan; pan_integral] |};
     df_clientes := df_clientes tablas_ejemplo;
     df_ventas := df_ventas tablas_ejemplo;
     df_detalle := df_detalle tablas_ejemplo |}.

Definition utils_pan_doble : PipelineUtils :=
  utils_modelo (inr tablas_pan_doble) (inr tt).

(** ** The ABC summary of [mostrar_metricas_consola] and [generar_resumen_markdown] *)

(** [abc['clasificacion'].value_counts()[clase]]: the rows of a class. *)
Definition cuenta {K} (abc : list (FilaABC K)) (c : clase) : nat :=
  length (filter (λ f, clasificacion f = c) abc).

(** [clase in conteo]: the index of [value_counts()] holds the classes that
    have rows, and, when the column is categorical, all its categories, those
    without rows with a count of zero.  What [clasificacion_abc] makes of
    the column is not in the sources: [categorias] are the categories of a
    categorical column, and [None] stands for a column of plain labels. *)
Definition en_conteo {K} (categorias : option (list clase)) (abc : list (FilaABC K))
    (c : clase) : Prop :=
  match categorias with
  | Some cats => c ∈ cats
  | None => (0 < cuenta abc c)%nat
  end.

Global Instance en_conteo_dec {K} categorias (abc : list (FilaABC K)) c :
  Decision (en_conteo categorias abc c).
Proof. unfold en_conteo. destruct categorias; apply _. Defined.

(** [for clase in ['A', 'B', 'C']: if clase in conteo: print(...)]: a line
    for each class of the index, with the number of its rows. *)
Definition lineas_abc {K} (categorias : option (list clase)) (abc : list (FilaABC K))
    : list (clase * nat) :=
  omap (λ c, if decide (en_conteo categorias abc c) then Some (c, cuenta abc c)
             else None)
    [ClaseA; ClaseB; ClaseC].

(** * Properties *)

(** A decidable proposition on concrete data is settled by evaluating its
    decision procedure. *)
Ltac por_calculo :=
  match goal with
  | |- ?P => refine (bool_decide_unpack P _); vm_compute; exact I
  end.

(** ** The monad *)

Lemma salida_bind {X Y} (m : M X) (f : X → M Y) :
  salida (m ≫= f) = match salida m with
                    | inl e => inl e
                    | inr a => salida (f a)
                    end.
Proof. unfold salida, mbind, M_bind. by destruct (snd m). Qed.

Lemma registro_bind {X Y} (m : M X) (f : X → M Y) :
  registro (m ≫= f) = match salida m with
                      | inl e => registro m
                      | inr a => registro m ++ registro (f a)
                      end.
Proof. unfold registro, salida, mbind, M_bind. by destruct (snd m). Qed.

(** ** Schema validation *)

Lemma opcionales_de_detalle : opcionales_de "detalle" = {[ "nombre_producto" ]}.
Proof. reflexivity. Qed.

Lemma opcionales_de_otra nombre : nombre ≠ "detalle" → opcionales_de nombre = ∅.
Proof.
  intros Hne. unfold opcionales_de, columnas_opcionales.
  by rewrite lookup_singleton_ne.
Qed.

Lemma esperadas_sin_opcionales nombre req col :
  (nombre, req) ∈ columnas_esperadas → col ∈ req → col ∉ opcionales_de nombre.
Proof.
  unfold columnas_esperadas. intros Hin Hcol.
  repeat (apply elem_of_cons in Hin as [Heq | Hin]; [injection Heq as -> -> |]).
  - rewrite opcionales_de_otra by done. set_solver.
  - rewrite opcionales_de_otra by done. set_solver.
  - rewrite opcionales_de_otra by done. set_solver.
  - rewrite opcionales_de_detalle. intros Hop. apply elem_of_singleton in Hop.
    subst col. revert Hcol. by vm_compute.
  - by apply elem_of_nil in Hin.
Qed.

Lemma elem_of_faltan_en {N D} (t : Tablas N D) nombre req col :
  col ∈ faltan_en t nombre req ↔ col ∈ req ∧ col ∉ columnas_de t nombre.
Proof. unfold faltan_en. rewrite elem_of_filter. tauto. Qed.

Lemma faltantes_requeridos_esperadas {N D} (t : Tablas N D) nombre req :
  (nombre, req) ∈ columnas_esperadas →
  faltantes_requeridos nombre req (columnas_de t nombre) = faltan_en t nombre req.
Proof.
  intros Hin. apply set_eq. intros col. rewrite elem_of_faltan_en.
  unfold faltantes_requeridos.
  rewrite elem_of_filter, elem_of_difference, elem_of_list_to_set.
  split.
  - tauto.
  - intros [Hreq Hcol]. eauto using esperadas_sin_opcionales.
Qed.

Lemma validar_tabla_ok nombre req cols :
  faltantes_requeridos nombre req cols = ∅ →
  validar_tabla nombre req cols
  = (if decide (faltantes_opcionales nombre cols = ∅) then []
     else [OptionalColumnMissing nombre (faltantes_opcionales nombre cols)], inr tt).
Proof.
  intros Hreq. unfold validar_tabla. rewrite decide_True by done.
  by destruct (decide (faltantes_opcionales nombre cols = ∅)).
Qed.

Lemma validar_tabla_error nombre req cols :
  faltantes_requeridos nombre req cols ≠ ∅ →
  validar_tabla nombre req cols
  = ([MensajeRegistrado "ingesta"
        (TextoDe (ValueError_faltan_columnas nombre
                    (faltantes_requeridos nombre req cols)))],
     inl (ValueError_faltan_columnas nombre (faltantes_requeridos nombre req cols))).
Proof. intros Hreq. unfold validar_tabla. by rewrite decide_False by done. Qed.

(** The loop stops at the first table that lacks a required column. *)
Lemma validar_bucle_salida {N D} (t : Tablas N D) pend :
  match salida (validar_bucle t pend) with
  | inl e =>
      ∃ pre nombre req post,
        pend = pre ++ (nombre, req) :: post
        ∧ Forall (λ nr, faltantes_requeridos (fst nr) (snd nr)
                          (columnas_de t (fst nr)) = ∅) pre
        ∧ faltantes_requeridos nombre req (columnas_de t nombre) ≠ ∅
        ∧ e = ValueError_faltan_columnas nombre
                (faltantes_requeridos nombre req (columnas_de t nombre))
  | inr _ =>
      Forall (λ nr, faltantes_requeridos (fst nr) (snd nr)
                      (columnas_de t (fst nr)) = ∅) pend
  end.
Proof.
  induction pend as [| [nombre req] pend IH]; simpl.
  - constructor.
  - rewrite salida_bind.
    destruct (decide (faltantes_requeridos nombre req (columnas_de t nombre) = ∅))
      as [Hok | Hno].
    + rewrite (validar_tabla_ok _ _ _ Hok). simpl.
      destruct (salida (validar_bucle t pend)) as [e | []].
      * destruct IH as (pre & n & r & post & -> & Hpre & Hne & ->).
        exists ((nombre, req) :: pre), n, r, post. split_and!; auto.
      * by constructor.
    + rewrite (validar_tabla_error _ _ _ Hno). simpl.
      exists [], nombre, req, pend. split_and!; auto.
Qed.

Lemma faltantes_opcionales_otra nombre cols :
  nombre ≠ "detalle" → faltantes_opcionales nombre cols = ∅.
Proof.
  intros Hne. unfold faltantes_opcionales. rewrite opcionales_de_otra by done.
  apply set_eq. intros col. rewrite elem_of_filter.
  split; [intros [_ Hc] | intros Hc]; by apply not_elem_of_empty in Hc.
Qed.

Lemma faltantes_opcionales_detalle cols :
  faltantes_opcionales "detalle" cols
  = if decide ("nombre_producto" ∈ cols) then ∅ else {[ "nombre_producto" ]}.
Proof.
  unfold faltantes_opcionales. rewrite opcionales_de_detalle.
  apply set_eq. intros col. rewrite elem_of_filter, elem_of_singleton.
  destruct (decide ("nombre_producto" ∈ cols)) as [Hin | Hno].
  - split; [intros [Hc ->]; done | intros Hc; by apply not_elem_of_empty in Hc].
  - rewrite elem_of_singleton. split; [tauto | intros ->; done].
Qed.

(** What a successful check leaves in the log. *)
Lemma validar_columnas_registro {N D} (t : Tablas N D) :
  salida (validar_columnas t) = inr tt →
  registro (validar_columnas t)
  = if decide ("nombre_producto" ∈ columns (df_detalle t)) then []
    else [OptionalColumnMissing "detalle" {[ "nombre_producto" ]}].
Proof.
  intros Hok. pose proof (validar_bucle_salida t columnas_esperadas) as Hs.
  fold (validar_columnas t) in Hs. rewrite Hok in Hs.
  unfold columnas_esperadas in Hs.
  apply Forall_cons in Hs as [H1 Hs]. apply Forall_cons in Hs as [H2 Hs].
  apply Forall_cons in Hs as [H3 Hs]. apply Forall_cons in Hs as [H4 _].
  simpl in H1, H2, H3, H4.
  unfold validar_columnas, columnas_esperadas, validar_bucle.
  rewrite (validar_tabla_ok _ _ _ H1), (validar_tabla_ok _ _ _ H2),
    (validar_tabla_ok _ _ _ H3), (validar_tabla_ok _ _ _ H4).
  rewrite (faltantes_opcionales_otra "productos"),
    (faltantes_opcionales_otra "clientes"), (faltantes_opcionales_otra "ventas") by done.
  rewrite faltantes_opcionales_detalle.
  repeat (rewrite (decide_True (P := (∅ : gset string) = ∅)) by done).
  change (columnas_de t "detalle") with (columns (df_detalle t)).
  destruct (decide ("nombre_producto" ∈ columns (df_detalle t))) as [Hin | Hno].
  - by rewrite decide_True by done.
  - rewrite decide_False; [done |].
    intros Hvacio. assert (Hel : "nombre_producto" ∈ (∅ : gset string)).
    { rewrite <- Hvacio. by apply elem_of_singleton. }
    by apply not_elem_of_empty in Hel.
Qed.

(** A check that fails leaves nothing in the log but the record of its
    message: no table before the detail lines has optional columns. *)
Lemma validar_bucle_registro_error {N D} (t : Tablas N D) r1 r2 r3 r4 e :
  salida (validar_bucle t [("productos", r1); ("clientes", r2); ("ventas", r3);
                           ("detalle", r4)]) = inl e →
  registro (validar_bucle t [("productos", r1); ("clientes", r2); ("ventas", r3);
                             ("detalle", r4)])
  = [MensajeRegistrado "ingesta" (TextoDe e)].
Proof.
  unfold validar_bucle.
  destruct (decide (faltantes_requeridos "productos" r1 (columnas_de t "productos") = ∅))
    as [H1 | H1];
    [rewrite (validar_tabla_ok _ _ _ H1), (faltantes_opcionales_otra "productos") by done
    | rewrite (validar_tabla_error _ _ _ H1); by intros [= <-]].
  destruct (decide (faltantes_requeridos "clientes" r2 (columnas_de t "clientes") = ∅))
    as [H2 | H2];
    [rewrite (validar_tabla_ok _ _ _ H2), (faltantes_opcionales_otra "clientes") by done
    | rewrite (validar_tabla_error _ _ _ H2); by intros [= <-]].
  destruct (decide (faltantes_requeridos "ventas" r3 (columnas_de t "ventas") = ∅))
    as [H3 | H3];
    [rewrite (validar_tabla_ok _ _ _ H3), (faltantes_opcionales_otra "ventas") by done
    | rewrite (validar_tabla_error _ _ _ H3); by intros [= <-]].
  destruct (decide (faltantes_requeridos "detalle" r4 (columnas_de t "detalle") = ∅))
    as [H4 | H4];
    [rewrite (validar_tabla_ok _ _ _ H4)
    | rewrite (validar_tabla_error _ _ _ H4); by intros [= <-]].
  by destruct (decide (faltantes_opcionales "detalle" (columnas_de t "detalle") = ∅)).
Qed.

Lemma validar_columnas_registro_error {N D} (t : Tablas N D) e :
  salida (validar_columnas t) = inl e →
  registro (validar_columnas t) = [MensajeRegistrado "ingesta" (TextoDe e)].
Proof. apply validar_bucle_registro_error. Qed.

(** C4, as stated, at tables of which the products lack their category
    and price and the customers their e-mail: the check fails with an error
    that enumerates the two columns the products lack, and the e-mail,
    a required column that is absent as well, is not in it. *)
Lemma validar_columnas_primera_tabla :
  salida (validar_columnas tablas_sin_email)
  = inl (ValueError_faltan_columnas "productos" {[ "categoria"; "precio_unitario" ]})
  ∧ ("clientes", {[ "id_cliente"; "nombre_cliente"; "email"; "ciudad"; "fecha_alta" ]})
    ∈ columnas_esperadas
  ∧ ("email" ∉ columnas_de tablas_sin_email "clientes")
  ∧ ("email" ∉ ({[ "categoria"; "precio_unitario" ]} : gset string)).
Proof. split_and!; por_calculo. Qed.

(** C4, amended.  The schema check of the ingestion fails if and only if
    some table lacks one of its required columns, and the error it raises
    names the first such table (in the order products, customers, sales,
    detail lines) and enumerates exactly the required columns that table
    lacks: the tables after it are not looked at.  A missing optional column
    (the product name of the detail lines) is never a cause of failure: when
    no required column is absent the check returns, and its log holds the
    warning that lists the absent optional column, and nothing when the
    column is there.  A check that fails logs the message of its error
    only. *)
Theorem validar_columnas_esquema {N D} (t : Tablas N D) :
  (fallo (validar_columnas t) ↔
     ∃ nombre req col,
       (nombre, req) ∈ columnas_esperadas ∧ col ∈ req ∧ col ∉ columnas_de t nombre)
  ∧ (∀ e, salida (validar_columnas t) = inl e →
       ∃ nombre req,
         (nombre, req) ∈ columnas_esperadas
         ∧ e = ValueError_faltan_columnas nombre (faltan_en t nombre req)
         ∧ (∀ col, col ∈ faltan_en t nombre req ↔ col ∈ req ∧ col ∉ columnas_de t nombre)
         ∧ ∃ antes despues,
             columnas_esperadas = antes ++ (nombre, req) :: despues
             ∧ ∀ n r, (n, r) ∈ antes → faltan_en t n r = ∅)
  ∧ (∀ e, salida (validar_columnas t) = inl e →
       registro (validar_columnas t) = [MensajeRegistrado "ingesta" (TextoDe e)])
  ∧ ((∀ nombre req col,
        (nombre, req) ∈ columnas_esperadas → col ∈ req → col ∈ columnas_de t nombre) →
     salida (validar_columnas t) = inr tt
     ∧ registro (validar_columnas t)
       = if decide ("nombre_producto" ∈ columns (df_detalle t)) then []
         else [OptionalColumnMissing "detalle" {[ "nombre_producto" ]}]).
Proof.
  pose proof (validar_bucle_salida t columnas_esperadas) as Hs.
  fold (validar_columnas t) in Hs.
  assert (Hfalla : fallo (validar_columnas t) →
    ∃ nombre req col,
      (nombre, req) ∈ columnas_esperadas ∧ col ∈ req ∧ col ∉ columnas_de t nombre).
  { intros [e He]. rewrite He in Hs.
    destruct Hs as (pre & nombre & req & post & Hpend & _ & Hne & _).
    assert (Hin : (nombre, req) ∈ columnas_esperadas).
    { rewrite Hpend. apply elem_of_app. right. by left. }
    rewrite (faltantes_requeridos_esperadas t _ _ Hin) in Hne.
    apply set_choose_L in Hne as [col Hcol].
    apply elem_of_faltan_en in Hcol. by exists nombre, req, col. }
  assert (Hbien : (∀ nombre req col,
      (nombre, req) ∈ columnas_esperadas → col ∈ req → col ∈ columnas_de t nombre) →
    salida (validar_columnas t) = inr tt).
  { intros Htodas. destruct (salida (validar_columnas t)) as [e | []] eqn:He; [| done].
    destruct Hfalla as (nombre & req & col & Hin & Hreq & Hno); [by exists e |].
    destruct Hno. eauto. }
  split_and!.
  - split; [done |].
    intros (nombre & req & col & Hin & Hreq & Hno).
    destruct (salida (validar_columnas t)) as [e | []] eqn:He; [by exists e |].
    exfalso. apply list_elem_of_lookup in Hin as [i Hi].
    pose proof (Forall_lookup_1 _ _ _ _ Hs Hi) as Hvacio. simpl in Hvacio.
    rewrite faltantes_requeridos_esperadas in Hvacio
      by (apply list_elem_of_lookup; eauto).
    assert (Hel : col ∈ faltan_en t nombre req) by (by apply elem_of_faltan_en).
    rewrite Hvacio in Hel. by apply not_elem_of_empty in Hel.
  - intros e He. rewrite He in Hs.
    destruct Hs as (pre & nombre & req & post & Hpend & Hpre & _ & ->).
    assert (Hin : (nombre, req) ∈ columnas_esperadas).
    { rewrite Hpend. apply elem_of_app. right. by left. }
    exists nombre, req. split_and!; [done | | apply elem_of_faltan_en |].
    + by rewrite (faltantes_requeridos_esperadas t _ _ Hin).
    + exists pre, post. split; [done |]. intros n r Hnr.
      rewrite <- (faltantes_requeridos_esperadas t n r)
        by (rewrite Hpend; apply elem_of_app; by left).
      by apply (proj1 (Forall_forall _ _) Hpre (n, r)).
  - apply validar_columnas_registro_error.
  - intros Htodas. split; [by apply Hbien |].
    apply validar_columnas_registro. by apply Hbien.
Qed.

(** ** Dropping duplicates *)

Section drop_duplicates.
Context {F K : Type} `{EqDecision K} (clave : F → K).

Lemma drop_duplicates_desde_elem_of vistos fs r :
  r ∈ drop_duplicates_desde clave vistos fs → r ∈ fs ∧ clave r ∉ vistos.
Proof.
  revert vistos. induction fs as [| x fs IH]; intros vistos; simpl.
  - intros Hr. by apply elem_of_nil in Hr.
  - destruct (decide (clave x ∈ vistos)) as [Hvisto | Hnuevo].
    + intros Hr. apply IH in Hr as [Hr Hk]. split; [by right | done].
    + intros Hr. apply elem_of_cons in Hr as [-> | Hr].
      * split; [by left | done].
      * apply IH in Hr as [Hr Hk]. split; [by right |].
        intros Hv. apply Hk. by right.
Qed.

Lemma drop_duplicates_desde_sublist vistos fs :
  sublist (drop_duplicates_desde clave vistos fs) fs.
Proof.
  revert vistos. induction fs as [| x fs IH]; intros vistos; simpl.
  - constructor.
  - destruct (decide (clave x ∈ vistos)).
    + by apply sublist_cons.
    + by apply sublist_skip.
Qed.

Lemma drop_duplicates_desde_NoDup vistos fs :
  NoDup (clave <$> drop_duplicates_desde clave vistos fs).
Proof.
  revert vistos. induction fs as [| x fs IH]; intros vistos; simpl.
  - constructor.
  - destruct (decide (clave x ∈ vistos)); [apply IH |].
    rewrite fmap_cons. constructor; [| apply IH].
    intros Hx. apply list_elem_of_fmap in Hx as (r & Hk & Hr).
    apply drop_duplicates_desde_elem_of in Hr as [_ Hr].
    apply Hr. rewrite <- Hk. by left.
Qed.

(** The row kept for an identifier is the first one that has it. *)
Lemma drop_duplicates_desde_primera vistos fs k :
  k ∉ vistos →
  head (filter (λ r, clave r = k) (drop_duplicates_desde clave vistos fs))
  = head (filter (λ r, clave r = k) fs).
Proof.
  revert vistos. induction fs as [| x fs IH]; intros vistos Hk; simpl; [done |].
  destruct (decide (clave x ∈ vistos)) as [Hvisto | Hnuevo].
  - rewrite filter_cons. destruct (decide (clave x = k)) as [<- | Hne]; [done |].
    by apply IH.
  - rewrite !filter_cons. destruct (decide (clave x = k)) as [Heq | Hne]; [done |].
    apply IH. intros Hv. apply elem_of_cons in Hv as [-> | Hv]; done.
Qed.

Lemma drop_duplicates_NoDup fs : NoDup (clave <$> drop_duplicates clave fs).
Proof. apply drop_duplicates_desde_NoDup. Qed.

Lemma drop_duplicates_sublist fs : sublist (drop_duplicates clave fs) fs.
Proof. apply drop_duplicates_desde_sublist. Qed.

Lemma drop_duplicates_primera fs k :
  head (filter (λ r, clave r = k) (drop_duplicates clave fs))
  = head (filter (λ r, clave r = k) fs).
Proof. apply drop_duplicates_desde_primera, not_elem_of_nil. Qed.

Lemma drop_duplicates_elem_of fs r :
  r ∈ drop_duplicates clave fs →
  r ∈ fs ∧ head (filter (λ x, clave x = clave r) fs) = Some r.
Proof.
  intros Hr. split.
  - eapply elem_of_sublist; [done | apply drop_duplicates_sublist].
  - rewrite <- drop_duplicates_primera.
    pose proof (drop_duplicates_NoDup fs) as Hnd. revert Hr Hnd.
    generalize (drop_duplicates clave fs) as l.
    induction l as [| x l IH]; intros Hr Hnd.
    + by apply elem_of_nil in Hr.
    + rewrite fmap_cons in Hnd. apply NoDup_cons in Hnd as [Hx Hnd].
      rewrite filter_cons. apply elem_of_cons in Hr as [-> | Hr].
      * by rewrite decide_True.
      * rewrite decide_False; [by apply IH |].
        intros Heq. apply Hx. rewrite Heq. apply list_elem_of_fmap. eauto.
Qed.


Lemma drop_duplicates_claves fs k :
  k ∈ clave <$> fs → k ∈ clave <$> drop_duplicates clave fs.
Proof.
  intros Hk. apply list_elem_of_fmap in Hk as (r & -> & Hr).
  assert (Hsome : is_Some (head (filter (λ x, clave x = clave r) fs))).
  { destruct (filter (λ x, clave x = clave r) fs) as [| y l] eqn:Hf; [| by eexists].
    assert (Hin : r ∈ filter (λ x, clave x = clave r) fs)
      by (by apply list_elem_of_filter).
    rewrite Hf in Hin. by apply elem_of_nil in Hin. }
  rewrite <- drop_duplicates_primera in Hsome. destruct Hsome as [y Hy].
  apply head_Some_elem_of in Hy. apply list_elem_of_filter in Hy as [Hky Hy].
  apply list_elem_of_fmap. eauto.
Qed.
End drop_duplicates.

(** ** Product names of the detail lines *)

Lemma validar_columnas_ok_columnas {N D} (t : Tablas N D) nombre req col :
  salida (validar_columnas t) = inr tt →
  (nombre, req) ∈ columnas_esperadas → col ∈ req → col ∈ columnas_de t nombre.
Proof.
  intros Hok Hin Hreq.
  pose proof (validar_bucle_salida t columnas_esperadas) as Hs.
  fold (validar_columnas t) in Hs. rewrite Hok in Hs.
  destruct (decide (col ∈ columnas_de t nombre)) as [| Hno]; [done | exfalso].
  pose proof Hin as Hin'. apply list_elem_of_lookup in Hin' as [i Hi].
  pose proof (Forall_lookup_1 _ _ _ _ Hs Hi) as Hvacio. simpl in Hvacio.
  rewrite faltantes_requeridos_esperadas in Hvacio by done.
  assert (Hel : col ∈ faltan_en t nombre req) by (by apply elem_of_faltan_en).
  rewrite Hvacio in Hel. by apply not_elem_of_empty in Hel.
Qed.

Lemma elem_of_nombre_map {N} (prods : list (Productos.fila N)) p :
  p ∈ nombre_map prods ↔
  ∃ x, x ∈ prods ∧ p = (Productos.id_producto x, Productos.nombre_producto x).
Proof.
  unfold nombre_map. split.
  - intros Hp. apply drop_duplicates_elem_of in Hp as [Hp _].
    apply list_elem_of_fmap in Hp as (x & -> & Hx). eauto.
  - intros (x & Hx & ->).
    pose proof (drop_duplicates_claves id
      ((λ p, (Productos.id_producto p, Productos.nombre_producto p)) <$> prods)
      (Productos.id_producto x, Productos.nombre_producto x)) as Hd.
    rewrite !list_fmap_id in Hd. apply Hd.
    apply list_elem_of_fmap. eauto.
Qed.

Lemma elem_of_merge_linea {N} nmap (r r' : Detalle.fila N) :
  r' ∈ merge_linea nmap r ↔
  (r' = con_nombre None r ∧ ∀ p, p ∈ nmap → fst p ≠ Detalle.id_producto r)
  ∨ (∃ p, p ∈ nmap ∧ fst p = Detalle.id_producto r ∧ r' = con_nombre (snd p) r).
Proof.
  unfold merge_linea.
  destruct (filter (λ p, fst p = Detalle.id_producto r) nmap) as [| q l] eqn:Hf.
  - rewrite list_elem_of_singleton. split.
    + intros ->. left. split; [done |]. intros p Hp Heq.
      assert (Hin : p ∈ filter (λ p, fst p = Detalle.id_producto r) nmap)
        by (by apply list_elem_of_filter).
      rewrite Hf in Hin. by apply elem_of_nil in Hin.
    + intros [[-> _] | (p & Hp & Heq & _)]; [done |].
      assert (Hin : p ∈ filter (λ p, fst p = Detalle.id_producto r) nmap)
        by (by apply list_elem_of_filter).
      rewrite Hf in Hin. by apply elem_of_nil in Hin.
  - rewrite <- Hf. rewrite list_elem_of_fmap. split.
    + intros (p & -> & Hp). apply list_elem_of_filter in Hp as [Heq Hp]. right. eauto.
    + intros [[_ Hninguno] | (p & Hp & Heq & ->)].
      * assert (Hq : q ∈ filter (λ p, fst p = Detalle.id_producto r) nmap)
          by (rewrite Hf; by left).
        apply list_elem_of_filter in Hq as [Heq Hq]. by destruct (Hninguno q Hq).
      * exists p. split; [done |]. by apply list_elem_of_filter.
Qed.

Lemma misma_linea_con_nombre {N} n (r : Detalle.fila N) :
  misma_linea (con_nombre n r) r.
Proof. by unfold misma_linea. Qed.

(** C8. Once the schema check has passed: when the detail lines already
    carry the product-name column the tables come back as they are, so every
    line keeps its name; otherwise the column is added and the lines are
    left-joined with the products on the product identifier: for every
    product that has the identifier of a line there is a row with the fields
    of the line and the name of the product, a line whose identifier matches
    no product has a row with its fields and a null name, and every row of
    the result is one of these. *)
Theorem agregar_nombre_producto_correcto {N D} (t : Tablas N D) :
  salida (validar_columnas t) = inr tt →
  ∃ t',
    salida (agregar_nombre_producto t) = inr t'
    ∧ df_productos t' = df_productos t
    ∧ df_clientes t' = df_clientes t
    ∧ df_ventas t' = df_ventas t
    ∧ ("nombre_producto" ∈ columns (df_detalle t) → df_detalle t' = df_detalle t)
    ∧ ("nombre_producto" ∉ columns (df_detalle t) →
       columns (df_detalle t') = columns (df_detalle t) ++ ["nombre_producto"]
       ∧ (∀ r p, r ∈ filas (df_detalle t) → p ∈ filas (df_productos t) →
            Productos.id_producto p = Detalle.id_producto r →
            ∃ r', r' ∈ filas (df_detalle t')
              ∧ misma_linea r' r
              ∧ Detalle.nombre_producto r' = Productos.nombre_producto p)
       ∧ (∀ r, r ∈ filas (df_detalle t) →
            (∀ p, p ∈ filas (df_productos t) →
               Productos.id_producto p ≠ Detalle.id_producto r) →
            ∃ r', r' ∈ filas (df_detalle t')
              ∧ misma_linea r' r
              ∧ Detalle.nombre_producto r' = None)
       ∧ (∀ r', r' ∈ filas (df_detalle t') →
            ∃ r, r ∈ filas (df_detalle t)
              ∧ misma_linea r' r
              ∧ ((Detalle.nombre_producto r' = None
                  ∧ ∀ p, p ∈ filas (df_productos t) →
                      Productos.id_producto p ≠ Detalle.id_producto r)
                 ∨ ∃ p, p ∈ filas (df_productos t)
                     ∧ Productos.id_producto p = Detalle.id_producto r
                     ∧ Detalle.nombre_producto r' = Productos.nombre_producto p))).
Proof.
  intros Hok.
  assert (Hdet : "id_producto" ∈ columns (df_detalle t)).
  { eapply (validar_columnas_ok_columnas t "detalle"); [done | |].
    - do 3 apply list_elem_of_further. apply list_elem_of_here.
    - set_solver. }
  assert (Hpn : "nombre_producto" ∈ columns (df_productos t)).
  { eapply (validar_columnas_ok_columnas t "productos"); [done | |].
    - apply list_elem_of_here.
    - set_solver. }
  assert (Hpi : "id_producto" ∈ columns (df_productos t)).
  { eapply (validar_columnas_ok_columnas t "productos"); [done | |].
    - apply list_elem_of_here.
    - set_solver. }
  unfold agregar_nombre_producto.
  destruct (decide ("nombre_producto" ∈ columns (df_detalle t))) as [Hcol | Hcol].
  - rewrite decide_False by tauto. exists t. simpl. split_and!; done.
  - rewrite decide_True by done. rewrite decide_True by done.
    eexists. split; [reflexivity |]. simpl. split_and!; try done.
    intros _. split_and!.
    + done.
    + intros r p Hr Hp Hid.
      exists (con_nombre (Productos.nombre_producto p) r).
      split_and!; [| by apply misma_linea_con_nombre | done].
      apply list_elem_of_bind. exists r. split; [| done].
      apply elem_of_merge_linea. right.
      exists (Productos.id_producto p, Productos.nombre_producto p).
      split_and!; [| done | done]. apply elem_of_nombre_map. eauto.
    + intros r Hr Hninguno. exists (con_nombre None r).
      split_and!; [| by apply misma_linea_con_nombre | done].
      apply list_elem_of_bind. exists r. split; [| done].
      apply elem_of_merge_linea. left. split; [done |].
      intros q Hq. apply elem_of_nombre_map in Hq as (x & Hx & ->). simpl. eauto.
    + intros r' Hr'. apply list_elem_of_bind in Hr' as (r & Hr' & Hr).
      exists r. split; [done |].
      apply elem_of_merge_linea in Hr' as [[-> Hninguno] | (q & Hq & Hid & ->)].
      * split; [by apply misma_linea_con_nombre |].
        left. split; [done |]. intros p Hp.
        apply (Hninguno (Productos.id_producto p, Productos.nombre_producto p)).
        apply elem_of_nombre_map. eauto.
      * split; [by apply misma_linea_con_nombre |].
        right. apply elem_of_nombre_map in Hq as (x & Hx & ->). simpl in *. eauto.
Qed.

Lemma agregar_nombre_producto_correcto_witness :
  ∃ t',
    salida (agregar_nombre_producto tablas_huerfana) = inr t'
    ∧ (∃ r', r' ∈ filas (df_detalle t')
         ∧ Detalle.id_producto r' = 1%Z
         ∧ Detalle.nombre_producto r' = Some "Bread")
    ∧ (∃ r', r' ∈ filas (df_detalle t')
         ∧ Detalle.id_producto r' = 99%Z
         ∧ Detalle.nombre_producto r' = None).
Proof.
  destruct (agregar_nombre_producto_correcto tablas_huerfana)
    as (t' & Ht' & _ & _ & _ & _ & Hmerge); [by vm_compute |].
  destruct Hmerge as (_ & Hnombre & Hnulo & _).
  { por_calculo. }
  exists t'. split_and!; [done | |].
  - destruct (Hnombre linea_pan pan) as (r' & Hr' & Hlinea & Hn);
      [apply list_elem_of_here .. | done |].
    exists r'. split_and!; [done | | done].
    by destruct Hlinea as (_ & -> & _).
  - destruct (Hnulo linea_huerfana) as (r' & Hr' & Hlinea & Hn);
      [apply list_elem_of_further, list_elem_of_here | |].
    { intros p Hp. apply list_elem_of_singleton in Hp. by subst p. }
    exists r'. split_and!; [done | | done].
    by destruct Hlinea as (_ & -> & _).
Defined.

(** ** Cleaning *)

Section limpiar_tabla.
Context {F G K : Type} `{EqDecision K}.
Context (ident : F → K) (ident' : G → K) (limpiar : F → option G).
Hypothesis limpiar_ident : ∀ r c, limpiar r = Some c → ident' c = ident r.




End limpiar_tabla.

Section clean_all.
Variable parse_number : string → option Q.
Variable parse_date : string → option Fecha.
Variable strip : string → string.
Variable lower : string → string.

Local Abbreviation limpiar_producto := (pipeline_utils.limpiar_producto parse_number strip).
Local Abbreviation limpiar_cliente := (pipeline_utils.limpiar_cliente parse_date strip).
Local Abbreviation limpiar_venta := (pipeline_utils.limpiar_venta parse_date strip lower).
Local Abbreviation limpiar_linea := (pipeline_utils.limpiar_linea parse_number strip).
Local Abbreviation clean_all := (pipeline_utils.clean_all parse_number parse_date strip lower).





End clean_all.

(** ** Lists *)

Lemma fmap_fst_par {X Y} (f : X → Y) (l : list X) :
  fst <$> ((λ x, (x, f x)) <$> l) = l.
Proof. induction l as [| x l IH]; [done |]. rewrite !fmap_cons, IH. done. Qed.

Lemma fmap_snd_par {X Y} (f : X → Y) (l : list X) :
  snd <$> ((λ x, (x, f x)) <$> l) = f <$> l.
Proof. induction l as [| x l IH]; [done |]. rewrite !fmap_cons, IH. done. Qed.

Lemma filter_ext_en {X} (P1 P2 : X → Prop) `{∀ x, Decision (P1 x)}
    `{∀ x, Decision (P2 x)} (l : list X) :
  (∀ x, x ∈ l → P1 x ↔ P2 x) → filter P1 l = filter P2 l.
Proof.
  induction l as [| x l IH]; intros Hp; [done |].
  rewrite !filter_cons, IH by (intros y Hy; apply Hp; by right).
  destruct (decide (P1 x)) as [H1 | H1].
  - rewrite decide_True; [done |]. apply Hp; [by left | done].
  - rewrite decide_False; [done |]. intros H2. apply H1, Hp; [by left | done].
Qed.

Lemma filter_todos {X} (P : X → Prop) `{∀ x, Decision (P x)} (l : list X) :
  (∀ x, x ∈ l → P x) → filter P l = l.
Proof.
  induction l as [| x l IH]; intros Hp; [done |].
  rewrite filter_cons, decide_True by (apply Hp; by left).
  rewrite IH; [done |]. intros y Hy. apply Hp. by right.
Qed.

Lemma filter_ninguno {X} (P : X → Prop) `{∀ x, Decision (P x)} (l : list X) :
  (∀ x, x ∈ l → ¬ P x) → filter P l = [].
Proof.
  induction l as [| x l IH]; intros Hp; [done |].
  rewrite filter_cons, decide_False by (apply Hp; by left).
  apply IH. intros y Hy. apply Hp. by right.
Qed.

(** ** Sums *)

Lemma Qeq_reflexive (x y : Q) : x = y → (x == y)%Q.
Proof. intros ->. reflexivity. Qed.

Lemma sumQ_cons x l : sumQ (x :: l) = (x + sumQ l)%Q.
Proof. reflexivity. Qed.

Lemma sumQ_app l1 l2 : (sumQ (l1 ++ l2) == sumQ l1 + sumQ l2)%Q.
Proof.
  induction l1 as [| x l1 IH].
  - simpl. ring.
  - rewrite <- app_comm_cons, !sumQ_cons, IH. ring.
Qed.

Lemma sumQ_perm l1 l2 : l1 ≡ₚ l2 → (sumQ l1 == sumQ l2)%Q.
Proof.
  induction 1 as [| x l1 l2 _ IH | x y l | l1 l2 l3 _ IH1 _ IH2].
  - reflexivity.
  - rewrite !sumQ_cons, IH. reflexivity.
  - rewrite !sumQ_cons. ring.
  - by rewrite IH1.
Qed.

Lemma sumQ_fmap_ext {X} (f g : X → Q) (l : list X) :
  (∀ x, x ∈ l → (f x == g x)%Q) → (sumQ (f <$> l) == sumQ (g <$> l))%Q.
Proof.
  induction l as [| x l IH]; intros Hfg.
  - reflexivity.
  - rewrite !fmap_cons, !sumQ_cons.
    rewrite IH by (intros y Hy; apply Hfg; by right).
    rewrite (Hfg x) by (by left). reflexivity.
Qed.

Lemma sumQ_fmap_plus {X} (f g : X → Q) (l : list X) :
  (sumQ ((λ x, f x + g x) <$> l) == sumQ (f <$> l) + sumQ (g <$> l))%Q.
Proof.
  induction l as [| x l IH].
  - simpl. ring.
  - rewrite !fmap_cons, !sumQ_cons, IH. ring.
Qed.

Lemma sumQ_fmap_cero {X} (l : list X) : (sumQ ((λ _, 0) <$> l) == 0)%Q.
Proof.
  induction l as [| x l IH]; [reflexivity |].
  rewrite fmap_cons, sumQ_cons, IH. ring.
Qed.


(** Of the keys of a duplicate-free list, at most one is that of a row. *)
Lemma sumQ_indicador {K} `{EqDecision K} (k0 : K) (v : Q) (ks : list K) :
  NoDup ks →
  (sumQ ((λ k, if decide (k0 = k) then v else 0) <$> ks)
   == if decide (k0 ∈ ks) then v else 0)%Q.
Proof.
  induction 1 as [| k ks Hk Hnd IH].
  - rewrite decide_False by apply not_elem_of_nil. reflexivity.
  - rewrite fmap_cons, sumQ_cons, IH.
    destruct (decide (k0 = k)) as [-> | Hne].
    + rewrite decide_False by done. rewrite decide_True by (by left). ring.
    + destruct (decide (k0 ∈ ks)) as [Hin | Hno].
      * rewrite decide_True by (by right). ring.
      * rewrite decide_False; [ring |].
        intros Hin. apply elem_of_cons in Hin as [? | ?]; done.
Qed.

(** ** Group-by sums *)

Section groupby.
Context {F K : Type} `{EqDecision K}.
Context (clave : F → option K) (valor : F → Q).

Local Abbreviation suma := (suma_de clave valor).

Lemma suma_de_cons r fs k :
  (suma (r :: fs) k
   == (if decide (clave r = Some k) then valor r else 0) + suma fs k)%Q.
Proof.
  unfold suma_de. rewrite filter_cons.
  destruct (decide (clave r = Some k)).
  - rewrite fmap_cons, sumQ_cons. reflexivity.
  - ring.
Qed.

(** The group sums of distinct keys add up to the sum of the rows that have
    one of these keys. *)
Lemma sumQ_suma_de (ks : list K) (fs : list F) :
  NoDup ks →
  (sumQ (suma fs <$> ks)
   == sumQ (valor <$> filter (λ r, clave r ∈ Some <$> ks) fs))%Q.
Proof.
  intros Hnd. induction fs as [| r fs IH].
  - unfold suma_de. simpl. apply sumQ_fmap_cero.
  - rewrite (sumQ_fmap_ext _ _ _ (λ k _, suma_de_cons r fs k)).
    rewrite sumQ_fmap_plus, IH. rewrite filter_cons.
    destruct (clave r) as [k0 |] eqn:Hk0.
    + rewrite (sumQ_fmap_ext _ (λ k, if decide (k0 = k) then valor r else 0%Q)).
      2:{ intros k _. destruct (decide (Some k0 = Some k)) as [Heq | Hne].
          - injection Heq as ->. by rewrite decide_True.
          - rewrite decide_False by congruence. reflexivity. }
      rewrite sumQ_indicador by done.
      destruct (decide (k0 ∈ ks)) as [Hin | Hno].
      * rewrite decide_True by (apply list_elem_of_fmap; eauto).
        rewrite fmap_cons, sumQ_cons. reflexivity.
      * rewrite decide_False; [ring |].
        intros Hin. apply list_elem_of_fmap in Hin as (k & Heq & Hk).
        injection Heq as ->. done.
    + rewrite (sumQ_fmap_ext _ (λ _, 0%Q)).
      2:{ intros k _. by rewrite decide_False. }
      rewrite sumQ_fmap_cero. rewrite decide_False; [ring |].
      intros Hin. apply list_elem_of_fmap in Hin as (k & Heq & _). done.
Qed.

Lemma elem_of_claves fs k :
  k ∈ remove_dups (omap clave fs) ↔ ∃ r, r ∈ fs ∧ clave r = Some k.
Proof. rewrite elem_of_remove_dups. apply list_elem_of_omap. Qed.

Context (leb : K → K → bool).

Lemma groupby_sum_claves fs :
  fst <$> groupby_sum leb clave valor fs ≡ₚ remove_dups (omap clave fs).
Proof.
  unfold groupby_sum. rewrite fmap_fst_par. apply merge_sort_Permutation.
Qed.

Lemma groupby_sum_NoDup fs : NoDup (fst <$> groupby_sum leb clave valor fs).
Proof. rewrite groupby_sum_claves. apply NoDup_remove_dups. Qed.

Lemma elem_of_groupby_sum fs k v :
  (k, v) ∈ groupby_sum leb clave valor fs ↔
  (∃ r, r ∈ fs ∧ clave r = Some k) ∧ v = suma fs k.
Proof.
  unfold groupby_sum. rewrite list_elem_of_fmap. split.
  - intros (k' & Heq & Hk'). injection Heq as -> ->. split; [| done].
    apply elem_of_claves. revert Hk'. unfold ordenar.
    by rewrite merge_sort_Permutation.
  - intros [Hk ->]. exists k. split; [done |].
    unfold ordenar. rewrite merge_sort_Permutation. by apply elem_of_claves.
Qed.

(** The group sums add up to the sum of the rows that have a key. *)
Lemma groupby_sum_total fs :
  (sumQ (snd <$> groupby_sum leb clave valor fs)
   == sumQ (valor <$> filter (λ r, is_Some (clave r)) fs))%Q.
Proof.
  unfold groupby_sum. rewrite fmap_snd_par.
  rewrite (sumQ_perm _ (suma fs <$> remove_dups (omap clave fs)))
    by (apply fmap_Permutation, merge_sort_Permutation).
  rewrite sumQ_suma_de by apply NoDup_remove_dups.
  apply Qeq_reflexive. do 2 f_equal.
  apply filter_ext_en. intros r Hr. rewrite list_elem_of_fmap. split.
  - intros (k & -> & _). by eexists.
  - intros [k Hk]. exists k. split; [done |]. apply elem_of_claves. eauto.
Qed.
End groupby.

(** ** Share of the payment methods *)









(** ** Grouping row after row *)

Section agrupar_sumando.
Context {F K : Type} `{EqDecision K}.
Context (clave : F → option K) (valor : F → Q).

Local Abbreviation suma := (suma_de clave valor).
Local Abbreviation acumular := (pipeline_utils.acumular (K := K)).
Local Abbreviation agrupar := (pipeline_utils.agrupar_sumando clave valor).

Lemma acumular_claves k v acc :
  fst <$> acumular k v acc
  = if decide (k ∈ fst <$> acc) then fst <$> acc else (fst <$> acc) ++ [k].
Proof.
  induction acc as [| [k' v'] acc IH].
  - by rewrite decide_False by apply not_elem_of_nil.
  - cbn [pipeline_utils.acumular]. rewrite fmap_cons. cbn [fst].
    destruct (decide (k = k')) as [-> | Hne]; rewrite ?fmap_cons; cbn [fst].
    + by rewrite decide_True by (by left).
    + rewrite IH. destruct (decide (k ∈ fst <$> acc)) as [Hin | Hno].
      * by rewrite decide_True by (by right).
      * rewrite decide_False; [done |].
        intros Hin. apply elem_of_cons in Hin as [? | ?]; done.
Qed.

Lemma acumular_otra k v acc k' w :
  (k', w) ∈ acumular k v acc → k' ≠ k → (k', w) ∈ acc.
Proof.
  induction acc as [| [k0 v0] acc IH]; simpl; intros Hin Hne.
  - apply list_elem_of_singleton in Hin. by injection Hin as -> ->.
  - destruct (decide (k = k0)) as [-> | Hk].
    + apply elem_of_cons in Hin as [Heq | Hin]; [by injection Heq as -> -> |].
      by right.
    + apply elem_of_cons in Hin as [Heq | Hin]; [rewrite Heq; by left |].
      right. by apply IH.
Qed.

Lemma acumular_misma k v acc w :
  NoDup (fst <$> acc) → (k, w) ∈ acumular k v acc →
  (∃ w0, (k, w0) ∈ acc ∧ w = (w0 + v)%Q) ∨ ((k ∉ fst <$> acc) ∧ w = v).
Proof.
  induction acc as [| [k0 v0] acc IH]; simpl; intros Hnd Hin.
  - apply list_elem_of_singleton in Hin. injection Hin as ->.
    right. split; [apply not_elem_of_nil | done].
  - apply NoDup_cons in Hnd as [Hk0 Hnd].
    destruct (decide (k = k0)) as [-> | Hk].
    + apply elem_of_cons in Hin as [Heq | Hin].
      * injection Heq as ->. left. exists v0. split; [by left | done].
      * destruct Hk0. apply list_elem_of_fmap. by exists (k0, w).
    + apply elem_of_cons in Hin as [Heq | Hin]; [by injection Heq as -> -> |].
      destruct (IH Hnd Hin) as [(w0 & Hw0 & ->) | [Hno ->]].
      * left. exists w0. split; [by right | done].
      * right. split; [| done].
        intros Hel. apply elem_of_cons in Hel as [? | ?]; done.
Qed.

Lemma suma_de_snoc fs r k :
  (suma (fs ++ [r]) k
   == suma fs k + (if decide (clave r = Some k) then valor r else 0))%Q.
Proof.
  unfold suma_de. rewrite filter_app, fmap_app, sumQ_app.
  rewrite filter_cons, filter_nil.
  destruct (decide (clave r = Some k)); simpl; ring.
Qed.

Lemma agrupar_sumando_snoc fs r :
  agrupar (fs ++ [r])
  = match clave r with
    | Some k => acumular k (valor r) (agrupar fs)
    | None => agrupar fs
    end.
Proof. unfold pipeline_utils.agrupar_sumando. by rewrite foldl_app. Qed.

Lemma agrupar_sumando_grupos fs : grupos_de clave valor fs (agrupar fs).
Proof.
  induction fs as [| r fs IH] using rev_ind.
  - split_and!.
    + constructor.
    + intros k. split.
      * intros Hk. by apply elem_of_nil in Hk.
      * intros (r & Hr & _). by apply elem_of_nil in Hr.
    + intros k v Hkv. by apply elem_of_nil in Hkv.
  - destruct IH as (Hnd & Hclaves & Hsumas). rewrite agrupar_sumando_snoc.
    destruct (clave r) as [k0 |] eqn:Hk0.
    + split_and!.
      * rewrite acumular_claves. destruct (decide (k0 ∈ fst <$> agrupar fs)); [done |].
        apply NoDup_app. split_and!; [done | | apply NoDup_singleton].
        intros k Hk Hk'. apply list_elem_of_singleton in Hk'. by subst k.
      * intros k. rewrite acumular_claves.
        assert (Hiff : k ∈ (fst <$> agrupar fs) ++ [k0]
                       ↔ ∃ x, x ∈ fs ++ [r] ∧ clave x = Some k).
        { rewrite elem_of_app, Hclaves, list_elem_of_singleton. split.
          - intros [(x & Hx & Hkx) | ->].
            + exists x. split; [apply elem_of_app; by left | done].
            + exists r. split; [apply elem_of_app; right; by left | done].
          - intros (x & Hx & Hkx). apply elem_of_app in Hx as [Hx | Hx]; [eauto |].
            apply list_elem_of_singleton in Hx. subst x. right. congruence. }
        destruct (decide (k0 ∈ fst <$> agrupar fs)) as [Hin | Hno]; [| done].
        rewrite <- Hiff, elem_of_app, list_elem_of_singleton.
        split; [by left | by intros [? | ->]].
      * intros k v Hkv. rewrite suma_de_snoc, Hk0.
        destruct (decide (k = k0)) as [-> | Hne].
        -- rewrite decide_True by done.
           apply (acumular_misma _ _ _ _ Hnd) in Hkv as [(w0 & Hw0 & ->) | [Hno ->]].
           ++ by rewrite (Hsumas _ _ Hw0).
           ++ assert (Hcero : (suma fs k0 == 0)%Q).
              { unfold suma_de. rewrite filter_ninguno; [reflexivity |].
                intros x Hx Hkx. apply Hno, Hclaves. eauto. }
              rewrite Hcero. ring.
        -- rewrite decide_False by congruence.
           apply acumular_otra in Hkv; [| done]. rewrite (Hsumas _ _ Hkv). ring.
    + split_and!; [done | | ].
      * intros k. rewrite Hclaves. split.
        -- intros (x & Hx & Hkx). exists x. split; [apply elem_of_app; by left | done].
        -- intros (x & Hx & Hkx). apply elem_of_app in Hx as [Hx | Hx]; [eauto |].
           apply list_elem_of_singleton in Hx. subst x. congruence.
      * intros k v Hkv. rewrite suma_de_snoc, Hk0, decide_False by done.
        rewrite (Hsumas _ _ Hkv). ring.
Qed.
End agrupar_sumando.

(** ** The totals of the ranking and of the ABC classification *)


Lemma productos_importe_inr df s :
  productos_importe df = inr s →
  s = groupby_sum clave_producto_leb (clave_de (columnas_clave df)) Fact.importe
        (filas df).
Proof.
  unfold productos_importe. intros Hs.
  destruct (decide (columnas_clave df = [])); [done |].
  destruct (decide ("importe" ∈ columns df)); [| done]. by injection Hs as <-.
Qed.

Lemma clave_producto_de r p :
  Some (pipeline_utils.producto_de r) = Some p
  ↔ Fact.id_producto r = fst p ∧ Fact.nombre_producto r = snd p.
Proof.
  destruct p as [i n]. unfold pipeline_utils.producto_de. simpl. split.
  - by intros [= -> ->].
  - by intros [-> ->].
Qed.

Lemma suma_de_producto df p :
  suma_de (λ r, Some (pipeline_utils.producto_de r)) Fact.importe (filas df) p
  = total_de df p.
Proof.
  unfold suma_de, total_de. do 2 f_equal.
  apply filter_ext_en. intros r _. apply clave_producto_de.
Qed.

Lemma elem_of_productos_de df p :
  p ∈ productos_de df
  ↔ ∃ r, r ∈ filas df ∧ Fact.id_producto r = fst p ∧ Fact.nombre_producto r = snd p.
Proof.
  unfold productos_de. rewrite elem_of_remove_dups, list_elem_of_fmap.
  destruct p as [i n]. simpl. split.
  - intros (r & [= -> ->] & Hr). eauto.
  - intros (r & Hr & <- & <-). eauto.
Qed.

(** The totals of the ranking: every product of the table, once, with the
    sum of the amounts of its rows. *)
Lemma importe_por_producto_grupos df :
  NoDup (fst <$> pipeline_utils.importe_por_producto df)
  ∧ (∀ p, p ∈ fst <$> pipeline_utils.importe_por_producto df ↔ p ∈ productos_de df)
  ∧ ∀ p v, (p, v) ∈ pipeline_utils.importe_por_producto df → (v == total_de df p)%Q.
Proof.
  pose proof (agrupar_sumando_grupos (λ r, Some (pipeline_utils.producto_de r))
                Fact.importe (filas df)) as (Hnd & Hclaves & Hsuma).
  fold (pipeline_utils.importe_por_producto df) in Hnd, Hclaves, Hsuma.
  split_and!; [done | |].
  - intros p. rewrite Hclaves, elem_of_productos_de.
    split; intros (r & Hr & Hp); exists r; (split; [done |]);
      by apply clave_producto_de.
  - intros p v Hpv. rewrite <- suma_de_producto. by apply Hsuma.
Qed.

Lemma length_importe_por_producto df :
  length (pipeline_utils.importe_por_producto df) = length (productos_de df).
Proof.
  destruct (importe_por_producto_grupos df) as (Hnd & Hclaves & _).
  rewrite <- (length_fmap fst). apply Permutation_length.
  apply NoDup_Permutation; [done | apply NoDup_remove_dups | done].
Qed.






(** ** The five best sellers *)

Lemma antes_va_antes a b : pipeline_utils.antes a b = true ↔ va_antes a b.
Proof.
  unfold pipeline_utils.antes, va_antes.
  rewrite orb_true_iff, negb_true_iff, andb_true_iff, Qeq_bool_iff, Z.leb_le.
  rewrite <- not_true_iff_false, Qle_bool_iff. split.
  - intros [Hlt | Heq]; [left | by right]. by apply Qnot_le_lt.
  - intros [Hlt | Heq]; [left | by right]. by apply Qlt_not_le.
Qed.

Global Instance va_antes_total : Total va_antes.
Proof.
  intros a b. unfold va_antes.
  destruct (Q_dec (snd a) (snd b)) as [[Hlt | Hgt] | Heq].
  - right. by left.
  - left. by left.
  - destruct (Z.le_ge_cases (fst (fst a)) (fst (fst b))).
    + left. right. done.
    + right. right. split; [by symmetry | done].
Qed.

Global Instance va_antes_trans : Transitive va_antes.
Proof.
  intros a b c. unfold va_antes.
  intros [Hab | [Hab Hiab]] [Hbc | [Hbc Hibc]].
  - left. lra.
  - left. lra.
  - left. lra.
  - right. split; [lra | lia].
Qed.

Global Instance rel_de_antes_total : Total (rel_de pipeline_utils.antes).
Proof.
  intros a b. unfold rel_de. rewrite !antes_va_antes. apply va_antes_total.
Qed.

Global Instance rel_de_antes_trans : Transitive (rel_de pipeline_utils.antes).
Proof.
  intros a b c. unfold rel_de. rewrite !antes_va_antes. apply va_antes_trans.
Qed.

Lemma StronglySorted_mas_debil {X} (R R' : relation X) l :
  (∀ x y, R x y → R' x y) → StronglySorted R l → StronglySorted R' l.
Proof.
  intros Himp. induction 1 as [| x l _ IH Hx]; constructor; [done |].
  eapply Forall_impl; [exact Hx | by auto].
Qed.

Lemma ordenar_antes_ordenada l :
  StronglySorted va_antes (ordenar pipeline_utils.antes l).
Proof.
  apply (StronglySorted_mas_debil (rel_de pipeline_utils.antes)).
  - intros x y. apply antes_va_antes.
  - apply StronglySorted_merge_sort; apply _.
Qed.

Lemma ordenar_Permutation {X} (leb : X → X → bool) l : ordenar leb l ≡ₚ l.
Proof. apply merge_sort_Permutation. Qed.

Lemma va_antes_proper a p v w : (v == w)%Q → va_antes a (p, v) → va_antes a (p, w).
Proof.
  unfold va_antes. simpl. intros Hvw [Hlt | [Heq Hid]].
  - left. by rewrite <- Hvw.
  - right. split; [by rewrite <- Hvw | done].
Qed.

(** C2. The ranking holds at most five products of the table, all of them
    when there are no more than five, each once and with the sum of the
    amounts of its rows; the products are those of the rows, told apart by
    identifier and name.  It is sorted by that sum, descending, ties by
    product identifier, ascending; and no product left out ranks before one
    that is in. *)
Theorem top5_productos_por_importe_correcto (df : DataFrame Fact.fila) :
  let top := pipeline_utils.top5_productos_por_importe df in
  length top = (5 `min` length (productos_de df))%nat
  ∧ StronglySorted va_antes top
  ∧ NoDup (fst <$> top)
  ∧ (∀ p v, (p, v) ∈ top →
       (∃ r, r ∈ filas df
             ∧ Fact.id_producto r = fst p ∧ Fact.nombre_producto r = snd p)
       ∧ (v == sumQ (Fact.importe
                       <$> filter (λ r, Fact.id_producto r = fst p
                                        ∧ Fact.nombre_producto r = snd p)
                             (filas df)))%Q)
  ∧ (∀ a p, a ∈ top → p ∈ productos_de df → p ∉ fst <$> top →
       va_antes a (p, total_de df p))
  ∧ ((length (productos_de df) ≤ 5)%nat →
     ∀ p, p ∈ productos_de df → p ∈ fst <$> top).
Proof.
  intros top. set (totales := pipeline_utils.importe_por_producto df).
  destruct (importe_por_producto_grupos df) as (Hnd & Hclaves & Hsuma).
  fold totales in Hnd, Hclaves, Hsuma.
  pose proof (ordenar_Permutation pipeline_utils.antes totales) as Hperm.
  pose proof (ordenar_antes_ordenada totales) as Hord.
  set (ord := ordenar pipeline_utils.antes totales) in *.
  assert (Htop : top = take 5 ord) by done.
  assert (Hlen : length ord = length (productos_de df)).
  { rewrite <- length_importe_por_producto. by apply Permutation_length. }
  rewrite <- (take_drop 5 ord) in Hord, Hperm. rewrite <- Htop in Hord, Hperm.
  split_and!.
  - by rewrite Htop, length_take, Hlen.
  - by apply StronglySorted_app_1_l in Hord.
  - assert (Hnd' : NoDup (fst <$> (top ++ drop 5 ord))) by (by rewrite Hperm).
    rewrite fmap_app in Hnd'. by apply NoDup_app in Hnd' as [? _].
  - intros p v Hpv.
    assert (Hin : (p, v) ∈ totales).
    { rewrite <- Hperm. apply elem_of_app. by left. }
    split; [| by apply Hsuma].
    apply elem_of_productos_de, Hclaves, list_elem_of_fmap. by exists (p, v).
  - intros a p Ha Hp Hno.
    apply Hclaves, list_elem_of_fmap in Hp as ([p' w] & Heq & Hw).
    simpl in Heq. subst p'.
    apply (va_antes_proper a p w); [by apply Hsuma |].
    rewrite <- Hperm in Hw. apply elem_of_app in Hw as [Hw | Hw].
    + destruct Hno. apply list_elem_of_fmap. by exists (p, w).
    + by apply (StronglySorted_app_1_elem_of _ _ _ _ _ Hord).
  - intros Hcinco p Hp. apply Hclaves in Hp. fold totales in Hp.
    rewrite <- Hperm in Hp.
    rewrite drop_ge in Hp by (by rewrite Hlen). by rewrite app_nil_r in Hp.
Qed.

(** ** ABC classification *)










Global Instance mayor_ingreso_total {K} : Total (rel_de (pipeline_utils.mayor_ingreso (K := K))).
Proof.
  intros a b. unfold rel_de, pipeline_utils.mayor_ingreso.
  rewrite !Qle_bool_iff. destruct (Qlt_le_dec (snd a) (snd b)); [right | left]; lra.
Qed.

Global Instance mayor_ingreso_trans {K} :
  Transitive (rel_de (pipeline_utils.mayor_ingreso (K := K))).
Proof.
  intros a b c. unfold rel_de, pipeline_utils.mayor_ingreso.
  rewrite !Qle_bool_iff. lra.
Qed.






(** ** Runs of the pipeline *)

Lemma salida_emitir ev : salida (emitir ev) = inr tt.
Proof. reflexivity. Qed.

Lemma salida_mret {X} (x : X) : salida (mret x) = inr x.
Proof. reflexivity. Qed.

Lemma salida_llamar {X} (r : resultado X) : salida (llamar r) = r.
Proof. reflexivity. Qed.

Lemma salida_try_except {X} donde (m : M X) : salida (try_except donde m) = salida m.
Proof. unfold try_except, salida. by destruct (snd m) eqn:Hm. Qed.

Lemma salida_cuando b m :
  salida (cuando b m) = if b then salida m else inr tt.
Proof. by destruct b. Qed.

Lemma traza_bind {X Y} (m : M X) (f : X → M Y) :
  traza (m ≫= f) = match salida m with
                   | inl e => traza m
                   | inr a => traza m ++ traza (f a)
                   end.
Proof.
  unfold traza. rewrite registro_bind. destruct (salida m); [done |].
  unfold etapas. by rewrite filter_app.
Qed.

Lemma traza_emitir ev : traza (emitir ev) = if es_etapa ev then [ev] else [].
Proof. unfold traza, etapas, emitir, registro. simpl. by destruct ev. Qed.

Lemma traza_llamar {X} (r : resultado X) : traza (llamar r) = [].
Proof. reflexivity. Qed.

Lemma traza_mret {X} (x : X) : traza (mret x) = [].
Proof. reflexivity. Qed.

Lemma traza_raise {X} e : traza (raise (A := X) e) = [].
Proof. reflexivity. Qed.

Lemma traza_try_except {X} donde (m : M X) : traza (try_except donde m) = traza m.
Proof.
  unfold traza, try_except, registro, etapas. destruct (snd m); [| done].
  simpl. rewrite filter_app. simpl. by rewrite app_nil_r.
Qed.

Lemma traza_cuando b m : traza (cuando b m) = if b then traza m else [].
Proof. by destruct b. Qed.

Lemma traza_validar_tabla nombre req cols : traza (validar_tabla nombre req cols) = [].
Proof.
  unfold validar_tabla. repeat case_decide; try done.
Qed.

Lemma traza_validar_columnas {N D} (t : Tablas N D) : traza (validar_columnas t) = [].
Proof.
  unfold validar_columnas. induction columnas_esperadas as [| [n r] l IH]; [done |].
  simpl. rewrite traza_bind, traza_validar_tabla, IH. by destruct (salida _).
Qed.

Lemma traza_agregar_nombre_producto {N D} (t : Tablas N D) :
  traza (agregar_nombre_producto t) = [].
Proof. unfold agregar_nombre_producto. repeat case_decide; done. Qed.

Lemma traza_informar_descartes stats : traza (informar_descartes stats) = [].
Proof.
  unfold informar_descartes.
  induction stats as [| [tabla [inicial final]] stats IH]; [done |].
  cbn [foldr]. rewrite traza_bind, traza_emitir, IH, salida_emitir.
  by destruct (decide (0 < inicial - final)%nat).
Qed.

Lemma salida_informar_descartes stats : salida (informar_descartes stats) = inr tt.
Proof.
  unfold informar_descartes.
  induction stats as [| [tabla [inicial final]] stats IH]; [done |].
  cbn [foldr]. by rewrite salida_bind, salida_emitir.
Qed.

Lemma salida_bind_inr {X Y} (m : M X) (f : X → M Y) y :
  salida (m ≫= f) = inr y ↔ ∃ x, salida m = inr x ∧ salida (f x) = inr y.
Proof.
  rewrite salida_bind. destruct (salida m) as [e | x].
  - split; [done | by intros (x & Hx & _)].
  - split; [eauto | by intros (x' & [= <-] & Hy)].
Qed.

(** In a sequence of stages without repetition, the start of a stage comes
    after the end of every stage before it. *)
Lemma orden_de_precedencia (l : list etapa) antes despues e e' :
  NoDup l → orden_de l = antes ++ Inicio e :: despues → precede l e' e →
  Fin e' ∈ antes.
Proof.
  revert antes. induction l as [| x l IH]; intros antes Hnd Horden Hpre.
  - destruct Hpre as (l1 & l2 & l3 & Hl). by destruct l1.
  - apply NoDup_cons in Hnd as [Hx Hnd].
    change (orden_de (x :: l)) with (Inicio x :: Fin x :: orden_de l) in Horden.
    destruct antes as [| a1 antes]; simpl in Horden.
    + injection Horden as <- _. destruct Hpre as (l1 & l2 & l3 & Hl).
      destruct l1 as [| y l1]; simpl in Hl; injection Hl as -> ->; destruct Hx.
      * apply elem_of_app. right. by left.
      * apply elem_of_app. right. right. apply elem_of_app. right. by left.
    + injection Horden as <- Horden.
      destruct antes as [| a2 antes]; simpl in Horden; [done |].
      injection Horden as <- Horden.
      destruct Hpre as (l1 & l2 & l3 & Hl).
      destruct l1 as [| y l1]; simpl in Hl; injection Hl as -> ->.
      * right. by left.
      * right. right. apply IH; [done | done |]. by exists l1, l2, l3.
Qed.

Lemma etapas_inicio antes despues e :
  etapas (antes ++ Inicio e :: despues)
  = etapas antes ++ Inicio e :: etapas despues.
Proof. unfold etapas. by rewrite filter_app, filter_cons. Qed.

Lemma elem_of_etapas ev log : ev ∈ etapas log → ev ∈ log.
Proof. unfold etapas. intros Hev. by apply list_elem_of_filter in Hev as [_ ?]. Qed.

Lemma secuencia_NoDup fastmode : NoDup (secuencia fastmode).
Proof. destruct fastmode; por_calculo. Qed.

(** One step through a run: the outermost bind is opened and the result of
    what it runs first is told apart. *)
Ltac abrir :=
  repeat progress
    (rewrite ?traza_bind, ?salida_bind, ?traza_try_except, ?salida_try_except,
       ?traza_emitir, ?salida_emitir, ?traza_llamar, ?salida_llamar,
       ?traza_cuando, ?salida_cuando, ?traza_validar_columnas,
       ?traza_agregar_nombre_producto, ?traza_informar_descartes,
       ?salida_informar_descartes, ?traza_mret, ?salida_mret;
     cbn [es_etapa app negb]).

Ltac distinguir :=
  match goal with
  | |- context [match ?r with inl _ => _ | inr _ => _ end] =>
      lazymatch r with
      | context [match _ with inl _ => _ | inr _ => _ end] => fail
      | _ => let H := fresh "Hres" in destruct r as [? | ?] eqn:H
      end
  | |- context [let '(_, _) := ?p in _] => destruct p
  | |- context [if negb ?b then _ else _] => destruct b; cbn [negb]
  end.

Ltac recorrer := repeat (abrir; try distinguir).

Section corridas.
Context `{PipelineUtils}.

Lemma traza_cargar_datasets config : traza (cargar_datasets config) = [].
Proof. unfold cargar_datasets. recorrer; done. Qed.

Lemma traza_limpiar_datos t : traza (limpiar_datos t) = [].
Proof. unfold limpiar_datos. recorrer; done. Qed.

Lemma salida_limpiar_datos t :
  salida (limpiar_datos t) = match clean_all t with
                             | inl e => inl e
                             | inr ls => inr (fst ls)
                             end.
Proof. unfold limpiar_datos. recorrer; done. Qed.

Lemma traza_exportar_resultados m config : traza (exportar_resultados m config) = [].
Proof. unfold exportar_resultados. recorrer; done. Qed.

Lemma salida_exportar_resultados m config :
  salida (exportar_resultados m config) = escribir_exportaciones m config.
Proof.
  unfold exportar_resultados, escribir_exportaciones. recorrer; try done.
  by match goal with u : unit |- _ => destruct u end.
Qed.
End corridas.

Ltac abrir_corrida :=
  repeat progress
    (abrir;
     rewrite ?traza_cargar_datasets, ?traza_limpiar_datos, ?salida_limpiar_datos,
       ?traza_exportar_resultados, ?salida_exportar_resultados;
     cbn [es_etapa app]).

Ltac recorrer_corrida := repeat (abrir_corrida; try distinguir).

Section ejecutar_pipeline.
Context `{PipelineUtils}.

(** A run that returns has gone through all the stages.  A run that fails
    has either failed to set up its loggers, before any stage, or has gone
    through the stages before the one that failed, which it entered and
    never left. *)
Lemma ejecutar_pipeline_forma config fastmode :
  match salida (ejecutar_pipeline config fastmode) with
  | inr _ =>
      loggers_listos ∧ traza (ejecutar_pipeline config fastmode) = orden_etapas fastmode
  | inl err =>
      (fallo_de_loggers err ∧ traza (ejecutar_pipeline config fastmode) = [])
      ∨ (loggers_listos
         ∧ ∃ n e, secuencia fastmode !! n = Some e
                  ∧ traza (ejecutar_pipeline config fastmode)
                    = orden_de (take n (secuencia fastmode)) ++ [Inicio e])
  end.
Proof.
  unfold ejecutar_pipeline, calcular_metricas, loggers_listos, fallo_de_loggers.
  destruct fastmode.
  all: recorrer_corrida.
  all: repeat match goal with u : unit |- _ => destruct u end.
  all: try (split; [by split | reflexivity]).
  all: try (left; split; [by eauto | reflexivity]).
  all: right; split; [by split |].
  all: first [ by exists 0%nat, EtCarga | by exists 1%nat, EtIntegridad
             | by exists 2%nat, EtLimpieza | by exists 3%nat, EtIntegracion
             | by exists 4%nat, EtMetricas | by exists 5%nat, EtExportacion ].
Qed.
End ejecutar_pipeline.

Lemma orden_de_app l1 l2 : orden_de (l1 ++ l2) = orden_de l1 ++ orden_de l2.
Proof. unfold orden_de. apply bind_app. Qed.

Lemma length_orden_de l : length (orden_de l) = (2 * length l)%nat.
Proof.
  induction l as [| e l IH]; [done |].
  change (orden_de (e :: l)) with (Inicio e :: Fin e :: orden_de l).
  simpl. rewrite IH. lia.
Qed.

Section etapas_de_la_corrida.
Context `{PipelineUtils}.

Lemma ejecutar_pipeline_prefijo config fastmode :
  traza (ejecutar_pipeline config fastmode) `prefix_of` orden_etapas fastmode.
Proof.
  pose proof (ejecutar_pipeline_forma config fastmode) as Hforma.
  destruct (salida (ejecutar_pipeline config fastmode)) as [err | v].
  - destruct Hforma as [[_ ->] | (_ & n & e & Hn & ->)]; [apply prefix_nil |].
    unfold orden_etapas. rewrite <- (take_drop_middle _ _ _ Hn) at 2.
    rewrite orden_de_app.
    change (orden_de (e :: drop (S n) (secuencia fastmode)))
      with ([Inicio e] ++ Fin e :: orden_de (drop (S n) (secuencia fastmode))).
    rewrite app_assoc. by eexists.
  - destruct Hforma as [_ Hforma]. by rewrite Hforma.
Qed.

Lemma ejecutar_pipeline_completa config fastmode :
  (∃ v, salida (ejecutar_pipeline config fastmode) = inr v)
  ↔ traza (ejecutar_pipeline config fastmode) = orden_etapas fastmode.
Proof.
  pose proof (ejecutar_pipeline_forma config fastmode) as Hforma.
  destruct (salida (ejecutar_pipeline config fastmode)) as [err | v].
  - split; [by intros [v Hv] |].
    destruct Hforma as [[_ ->] | (_ & n & e & Hn & ->)]; intros Heq; exfalso.
    + by destruct fastmode.
    + apply (f_equal length) in Heq. unfold orden_etapas in Heq.
      rewrite length_app, !length_orden_de, length_take in Heq. simpl in Heq. lia.
  - split; [by destruct Hforma | by exists v].
Qed.

(** A run whose loggers cannot be set up raises their exception before
    any stage. *)
Lemma ejecutar_pipeline_sin_loggers config fastmode err :
  fallo_de_loggers err →
  salida (ejecutar_pipeline config fastmode) = inl err
  ∧ traza (ejecutar_pipeline config fastmode) = [].
Proof.
  unfold ejecutar_pipeline. abrir.
  intros [Hperf | [Hperf Hmet]]; rewrite Hperf; [done |].
  abrir. by rewrite Hmet.
Qed.

(** The value a run returns is made by handing the result of each stage to
    the next one. *)
Lemma ejecutar_pipeline_flujo config fastmode m limpias :
  salida (ejecutar_pipeline config fastmode) = inr (m, limpias) →
  ∃ t ri stats sp sc,
    salida (cargar_datasets config) = inr t
    ∧ validate_referential_integrity t config = inr ri
    ∧ clean_all t = inr (limpias, stats)
    ∧ integrate (df_detalle limpias) (df_ventas limpias) (df_productos limpias)
      = inr (df_completo m)
    ∧ ticket_promedio_mensual (df_completo m) = inr (ticket_promedio m)
    ∧ top5_productos_por_importe (df_completo m) = inr (top5_productos m)
    ∧ medios_pago_pct (df_completo m) = inr (medios_pago m)
    ∧ productos_importe (df_completo m) = inr sp
    ∧ clientes_importe (df_completo m) = inr sc
    ∧ clasificacion_abc clave_producto sp = inr (abc_productos m)
    ∧ clasificacion_abc Z sc = inr (abc_clientes m)
    ∧ (fastmode = false → escribir_exportaciones m config = inr tt).
Proof.
  unfold ejecutar_pipeline, calcular_metricas. destruct fastmode.
  all: recorrer_corrida; try done.
  all: intros [= <- <-].
  all: repeat match goal with p : (_ * _)%type |- _ => destruct p end.
  all: repeat match goal with u : unit |- _ => destruct u end.
  all: by repeat eexists.
Qed.
End etapas_de_la_corrida.

Section orden_de_las_etapas.
Context `{PipelineUtils}.

(** C9. In every run the stages are entered and left one after the other
    in the order load, referential-integrity check, clean, integrate,
    compute metrics (and export, unless in fast mode): the stage boundaries
    of the log are a prefix of that sequence, and the whole of it exactly
    when the run returns.  A stage is entered only after every stage before
    it has been left.  A run that fails has either failed to set up its
    loggers, which comes before the stages, and has entered no stage, or
    has stopped inside the stage that failed, the loggers being set up.  In
    a run that returns every stage has worked on what the stage before it
    returned. *)
Theorem ejecutar_pipeline_etapas (config : Config) (fastmode : bool) :
  let corrida := ejecutar_pipeline config fastmode in
  traza corrida `prefix_of` orden_etapas fastmode
  ∧ ((∃ v, salida corrida = inr v) ↔ traza corrida = orden_etapas fastmode)
  ∧ (∀ antes despues e e',
       registro corrida = antes ++ Inicio e :: despues →
       precede (secuencia fastmode) e' e → Fin e' ∈ antes)
  ∧ (∀ err, salida corrida = inl err →
       (traza corrida = []
        ∧ (configurar_performance_logger = inl err
           ∨ (configurar_performance_logger = inr tt
              ∧ configure_metrics_logger = inl err)))
       ∨ (configurar_performance_logger = inr tt
          ∧ configure_metrics_logger = inr tt
          ∧ ∃ e, e ∈ secuencia fastmode ∧ last (traza corrida) = Some (Inicio e)))
  ∧ (∀ err, configurar_performance_logger = inl err
            ∨ (configurar_performance_logger = inr tt
               ∧ configure_metrics_logger = inl err) →
       salida corrida = inl err ∧ traza corrida = [])
  ∧ (∀ m limpias, salida corrida = inr (m, limpias) →
       ∃ t ri stats sp sc,
         salida (cargar_datasets config) = inr t
         ∧ validate_referential_integrity t config = inr ri
         ∧ clean_all t = inr (limpias, stats)
         ∧ integrate (df_detalle limpias) (df_ventas limpias) (df_productos limpias)
           = inr (df_completo m)
         ∧ ticket_promedio_mensual (df_completo m) = inr (ticket_promedio m)
         ∧ top5_productos_por_importe (df_completo m) = inr (top5_productos m)
         ∧ medios_pago_pct (df_completo m) = inr (medios_pago m)
         ∧ productos_importe (df_completo m) = inr sp
         ∧ clientes_importe (df_completo m) = inr sc
         ∧ clasificacion_abc clave_producto sp = inr (abc_productos m)
         ∧ clasificacion_abc Z sc = inr (abc_clientes m)
         ∧ (fastmode = false → escribir_exportaciones m config = inr tt)).
Proof.
  intros corrida. split_and!.
  - apply ejecutar_pipeline_prefijo.
  - apply ejecutar_pipeline_completa.
  - intros antes despues e e' Hlog Hpre.
    destruct (ejecutar_pipeline_prefijo config fastmode) as [resto Hresto].
    fold corrida in Hresto. unfold traza in Hresto.
    rewrite Hlog, etapas_inicio, <- app_assoc in Hresto. simpl in Hresto.
    apply elem_of_etapas.
    by apply (orden_de_precedencia _ _ _ _ _ (secuencia_NoDup fastmode) Hresto).
  - intros err Herr.
    pose proof (ejecutar_pipeline_forma config fastmode) as Hforma.
    fold corrida in Hforma. rewrite Herr in Hforma.
    destruct Hforma as [[Hlog Htraza] | ([Hperf Hmet] & n & e & Hn & Htraza)].
    + left. by split.
    + right. split_and!; [done | done |]. exists e. split.
      * by apply list_elem_of_lookup_2 in Hn.
      * by rewrite Htraza, last_snoc.
  - intros err Hlog. by apply ejecutar_pipeline_sin_loggers.
  - apply ejecutar_pipeline_flujo.
Qed.
End orden_de_las_etapas.

Section fastmode.
Context `{PipelineUtils}.

(** The full run is the fast run followed by the export of its metrics. *)
Lemma salida_ejecutar_pipeline_completo config :
  salida (ejecutar_pipeline config false)
  = match salida (ejecutar_pipeline config true) with
    | inl e => inl e
    | inr v => match escribir_exportaciones (fst v) config with
               | inl e => inl e
               | inr _ => inr v
               end
    end.
Proof.
  unfold ejecutar_pipeline, calcular_metricas. recorrer_corrida; try done.
  all: cbn [fst] in *; congruence.
Qed.

Lemma ejecutar_pipeline_sin_exportar config :
  Inicio EtExportacion ∉ registro (ejecutar_pipeline config true).
Proof.
  intros Hin.
  assert (Hetapa : Inicio EtExportacion ∈ traza (ejecutar_pipeline config true)).
  { unfold traza, etapas. by apply list_elem_of_filter. }
  destruct (ejecutar_pipeline_prefijo config true) as [resto Hresto].
  assert (Horden : Inicio EtExportacion ∈ orden_etapas true).
  { rewrite Hresto. apply elem_of_app. by left. }
  revert Horden. por_calculo.
Qed.

(** C10 (as amended). The run in fast mode never enters the export stage.
    Whatever the full run returns, the fast run returns too; and the full
    run returns what the fast run returns whenever the export of these
    metrics does not raise.  When it raises, the full run raises the same
    error, and the fast run still returns. *)
Theorem ejecutar_pipeline_fastmode (config : Config) :
  (Inicio EtExportacion ∉ registro (ejecutar_pipeline config true))
  ∧ (∀ v, salida (ejecutar_pipeline config false) = inr v →
          salida (ejecutar_pipeline config true) = inr v)
  ∧ (∀ v u, salida (ejecutar_pipeline config true) = inr v →
            escribir_exportaciones (fst v) config = inr u →
            salida (ejecutar_pipeline config false) = inr v)
  ∧ (∀ v e, salida (ejecutar_pipeline config true) = inr v →
            escribir_exportaciones (fst v) config = inl e →
            salida (ejecutar_pipeline config false) = inl e)
  ∧ (∀ e, salida (ejecutar_pipeline config true) = inl e →
          salida (ejecutar_pipeline config false) = inl e).
Proof.
  pose proof (salida_ejecutar_pipeline_completo config) as Hmodos.
  split_and!.
  - apply ejecutar_pipeline_sin_exportar.
  - intros v Hv. rewrite Hv in Hmodos.
    destruct (salida (ejecutar_pipeline config true)) as [e | v']; [done |].
    destruct (escribir_exportaciones (fst v') config); [done |]. congruence.
  - intros v u Hv Hu. by rewrite Hmodos, Hv, Hu.
  - intros v e Hv He. by rewrite Hmodos, Hv, He.
  - intros e He. by rewrite Hmodos, He.
Qed.
End fastmode.

Lemma ejecutar_pipeline_fastmode_witness :
  ∃ v, salida (ejecutar_pipeline (H := utils_ejemplo) tt true) = inr v
       ∧ salida (ejecutar_pipeline (H := utils_ejemplo) tt false) = inr v.
Proof.
  destruct (ejecutar_pipeline_fastmode (H := utils_ejemplo) tt)
    as (_ & _ & Hmismo & _).
  destruct (salida (ejecutar_pipeline (H := utils_ejemplo) tt true)) as [e | v] eqn:Hv.
  - vm_compute in Hv. discriminate.
  - exists v. split; [done |]. by apply (Hmismo v tt).
Defined.

(** With a full disk the export raises: the fast run returns its metrics,
    the full run returns nothing. *)
Lemma ejecutar_pipeline_disco_lleno :
  (∃ v, salida (ejecutar_pipeline (H := utils_disco_lleno) tt true) = inr v)
  ∧ salida (ejecutar_pipeline (H := utils_disco_lleno) tt false)
    = inl (ErrorExterno "exportación" "disco lleno").
Proof.
  split.
  - destruct (salida (ejecutar_pipeline (H := utils_disco_lleno) tt true))
      as [e | v] eqn:Hv; [| by exists v].
    vm_compute in Hv. discriminate.
  - by vm_compute.
Qed.

(** ** Referential integrity *)

Lemma huerfanos_sin_hijos padres : pipeline_utils.huerfanos [] padres = 0%nat.
Proof. unfold pipeline_utils.huerfanos. by rewrite decide_True by (by left). Qed.

Lemma huerfanos_sin_padres hijos : pipeline_utils.huerfanos hijos [] = 0%nat.
Proof. unfold pipeline_utils.huerfanos. by rewrite decide_True by (by right). Qed.

Lemma huerfanos_vacio hijos padres :
  hijos = [] ∨ padres = [] → pipeline_utils.huerfanos hijos padres = 0%nat.
Proof. intros [-> | ->]; [apply huerfanos_sin_hijos | apply huerfanos_sin_padres]. Qed.

Lemma fmap_vacio {X Y} (f : X → Y) (l : list X) : l = [] → f <$> l = [].
Proof. by intros ->. Qed.

Lemma length_filter_fmap {X Y} (f : X → Y) (P : Y → Prop) `{∀ y, Decision (P y)}
    (l : list X) :
  length (filter P (f <$> l)) = length (filter (λ x, P (f x)) l).
Proof.
  induction l as [| x l IH]; [done |].
  rewrite fmap_cons, !filter_cons. destruct (decide (P (f x))); simpl; by rewrite IH.
Qed.

Lemma huerfanos_filas {A B} (hijo : A → Z) (padre : B → Z) (hijos : list A)
    (padres : list B) :
  hijos ≠ [] → padres ≠ [] →
  pipeline_utils.huerfanos (hijo <$> hijos) (padre <$> padres)
  = length (filter (λ h, hijo h ∉ padre <$> padres) hijos).
Proof.
  intros Hh Hp. unfold pipeline_utils.huerfanos. rewrite decide_False.
  - exact (length_filter_fmap hijo (λ k, k ∉ padre <$> padres) hijos).
  - intros [Hv | Hv]; apply fmap_nil_inv in Hv; done.
Qed.

Lemma huerfanos_cero {A B} (hijo : A → Z) (padre : B → Z) (hijos : list A)
    (padres : list B) :
  pipeline_utils.huerfanos (hijo <$> hijos) (padre <$> padres) = 0%nat
  ↔ sin_huerfanos hijo padre hijos padres.
Proof.
  unfold sin_huerfanos.
  destruct (decide (hijos = [])) as [-> | Hh].
  { rewrite fmap_nil, huerfanos_sin_hijos. split; [by left | done]. }
  destruct (decide (padres = [])) as [-> | Hp].
  { rewrite fmap_nil, huerfanos_sin_padres. split; [right; by left | done]. }
  rewrite (huerfanos_filas _ _ _ _ Hh Hp). split.
  - intros Hcero. right. right. intros h Hin.
    destruct (decide (hijo h ∈ padre <$> padres)) as [Hesta | Hno].
    + apply list_elem_of_fmap in Hesta as (p0 & Heq & Hp0). eauto.
    + apply length_zero_iff_nil in Hcero.
      assert (Hf : h ∈ filter (λ h, hijo h ∉ padre <$> padres) hijos)
        by (by apply list_elem_of_filter).
      rewrite Hcero in Hf. by apply elem_of_nil in Hf.
  - intros [? | [? | Htodos]]; [done | done |].
    rewrite filter_ninguno; [done |].
    intros h Hin Hno. destruct (Htodos h Hin) as (p0 & Hp0 & Heq).
    apply Hno. apply list_elem_of_fmap. eauto.
Qed.

Section integridad.
Context `{PipelineUtils}.

Lemma salida_cargar_datasets config rutas t0 t ri :
  resolve_routes config = inr rutas → read_tables rutas = inr t0 →
  salida (validar_columnas t0) = inr tt →
  salida (agregar_nombre_producto t0) = inr t →
  validate_referential_integrity t config = inr ri →
  salida (cargar_datasets config) = inr t.
Proof.
  intros Hrutas Hleer Hcols Hnombre Hri. unfold cargar_datasets. abrir.
  rewrite Hrutas. abrir. rewrite Hleer. abrir. rewrite Hcols. abrir.
  rewrite Hnombre. abrir. rewrite Hri. abrir. destruct ri as [[] stats]; by abrir.
Qed.

(** C5. Whatever flag and counts the check returns for the loaded tables,
    be the flag false, the ingestion returns the tables and the run, whose
    loggers are set up, leaves the stage of the check and goes on into the
    cleaning stage.  The check itself returns a flag and the orphan counts
    of the three relations, for any tables: the count of a relation is the
    number of rows of the referring table whose key is the key of no row of
    the referred table, and zero when the table on either side is empty;
    the flag says that all counts are zero, that is, that each relation has
    an empty side or no row without its referred row. *)
Theorem integridad_referencial_no_aborta (config : Config) (fastmode : bool)
    (rutas : Rutas) (t0 t : TablasCrudas) (ok : bool) (stats : RIStats) :
  configurar_performance_logger = inr tt →
  configure_metrics_logger = inr tt →
  resolve_routes config = inr rutas →
  read_tables rutas = inr t0 →
  salida (validar_columnas t0) = inr tt →
  salida (agregar_nombre_producto t0) = inr t →
  validate_referential_integrity t config = inr (ok, stats) →
  (salida (cargar_datasets config) = inr t
   ∧ Fin EtIntegridad ∈ registro (ejecutar_pipeline config fastmode)
   ∧ Inicio EtLimpieza ∈ registro (ejecutar_pipeline config fastmode))
  ∧ ∀ (N D : Type) (t' : Tablas N D),
      let r := pipeline_utils.validate_referential_integrity t' config in
      let detalle := filas (df_detalle t') in
      let ventas := filas (df_ventas t') in
      let productos := filas (df_productos t') in
      let clientes := filas (df_clientes t') in
      (fst r = true ↔
         detalle_sin_venta (snd r) = 0%nat
         ∧ detalle_sin_producto (snd r) = 0%nat
         ∧ ventas_sin_cliente (snd r) = 0%nat)
      ∧ (fst r = true ↔
           sin_huerfanos Detalle.id_venta Ventas.id_venta detalle ventas
           ∧ sin_huerfanos Detalle.id_producto Productos.id_producto detalle productos
           ∧ sin_huerfanos Ventas.id_cliente Clientes.id_cliente ventas clientes)
      ∧ (detalle = [] ∨ ventas = [] → detalle_sin_venta (snd r) = 0%nat)
      ∧ (detalle = [] ∨ productos = [] → detalle_sin_producto (snd r) = 0%nat)
      ∧ (ventas = [] ∨ clientes = [] → ventas_sin_cliente (snd r) = 0%nat)
      ∧ (detalle ≠ [] → ventas ≠ [] →
         detalle_sin_venta (snd r)
         = length (filter (λ d, Detalle.id_venta d ∉ Ventas.id_venta <$> ventas)
                     detalle))
      ∧ (detalle ≠ [] → productos ≠ [] →
         detalle_sin_producto (snd r)
         = length (filter (λ d, Detalle.id_producto d
                                  ∉ Productos.id_producto <$> productos)
                     detalle))
      ∧ (ventas ≠ [] → clientes ≠ [] →
         ventas_sin_cliente (snd r)
         = length (filter (λ v, Ventas.id_cliente v ∉ Clientes.id_cliente <$> clientes)
                     ventas)).
Proof.
  intros Hperf Hmet Hrutas Hleer Hcols Hnombre Hri.
  pose proof (salida_cargar_datasets _ _ _ _ _ Hrutas Hleer Hcols Hnombre Hri) as Hcarga.
  split.
  - split; [done |].
    assert (Htraza : ∃ resto, traza (ejecutar_pipeline config fastmode)
      = [Inicio EtCarga; Fin EtCarga; Inicio EtIntegridad; Fin EtIntegridad;
         Inicio EtLimpieza] ++ resto).
    { unfold ejecutar_pipeline. abrir_corrida. rewrite Hperf. abrir_corrida.
      rewrite Hmet. abrir_corrida. rewrite Hcarga. abrir_corrida.
      rewrite Hri. abrir_corrida. by eexists. }
    destruct Htraza as [resto Htraza].
    split; apply elem_of_etapas; fold (traza (ejecutar_pipeline config fastmode));
      rewrite Htraza; apply elem_of_app; left;
      repeat first [apply list_elem_of_here | apply list_elem_of_further].
  - intros N D t' r detalle ventas productos clientes.
    assert (Hflag : fst r = true ↔
              detalle_sin_venta (snd r) = 0%nat
              ∧ detalle_sin_producto (snd r) = 0%nat
              ∧ ventas_sin_cliente (snd r) = 0%nat).
    { unfold r. simpl. apply bool_decide_eq_true. }
    split_and!.
    + exact Hflag.
    + rewrite Hflag. unfold r. simpl. by rewrite !huerfanos_cero.
    + intros Hvacio. apply huerfanos_vacio.
      destruct Hvacio as [Hv | Hv]; [left | right]; by apply fmap_vacio.
    + intros Hvacio. apply huerfanos_vacio.
      destruct Hvacio as [Hv | Hv]; [left | right]; by apply fmap_vacio.
    + intros Hvacio. apply huerfanos_vacio.
      destruct Hvacio as [Hv | Hv]; [left | right]; by apply fmap_vacio.
    + intros Hd Hv. by apply huerfanos_filas.
    + intros Hd Hp. by apply huerfanos_filas.
    + intros Hv Hc. by apply huerfanos_filas.
Qed.
End integridad.

Lemma integridad_referencial_no_aborta_witness :
  salida (cargar_datasets (H := utils_ejemplo) tt) = inr tablas_huerfana_con_nombre
  ∧ pipeline_utils.validate_referential_integrity tablas_huerfana_con_nombre tt
    = (false, stats_huerfana)
  ∧ Inicio EtLimpieza ∈ registro (ejecutar_pipeline (H := utils_ejemplo) tt false).
Proof.
  destruct (integridad_referencial_no_aborta (H := utils_ejemplo) tt false tt
              tablas_huerfana tablas_huerfana_con_nombre false stats_huerfana)
    as [(Hcarga & _ & Hlimpieza) _].
  - reflexivity.
  - reflexivity.
  - reflexivity.
  - reflexivity.
  - by vm_compute.
  - by vm_compute.
  - by vm_compute.
  - split_and!; [exact Hcarga | by vm_compute | exact Hlimpieza].
Defined.

(** ** The program on the sample tables *)

Section esquema_en_la_carga.
Context `{PipelineUtils}.

(** A table without a required column aborts the ingestion with the error
    of the schema check. *)
Lemma cargar_datasets_falla_esquema config rutas t0 e :
  resolve_routes config = inr rutas → read_tables rutas = inr t0 →
  salida (validar_columnas t0) = inl e →
  salida (cargar_datasets config) = inl e.
Proof.
  intros Hrutas Hleer Hcols. unfold cargar_datasets. abrir.
  rewrite Hrutas. abrir. rewrite Hleer. abrir. by rewrite Hcols.
Qed.
End esquema_en_la_carga.

Example validar_columnas_sin_categoria :
  salida (validar_columnas
            {| df_productos := {| columns := ["id_producto"; "nombre_producto"];
                                  filas := [pan] |};
               df_clientes := {| columns := ["id_cliente"]; filas := [ana] |};
               df_ventas := df_ventas tablas_ejemplo;
               df_detalle := df_detalle tablas_ejemplo |})
  = inl (ValueError_faltan_columnas "productos" {[ "categoria"; "precio_unitario" ]}).
Proof. by vm_compute. Qed.

Example validar_columnas_ejemplo :
  validar_columnas tablas_ejemplo
  = ([OptionalColumnMissing "detalle" {[ "nombre_producto" ]}], inr tt).
Proof. by vm_compute. Qed.

Example drop_duplicates_primera_fila :
  drop_duplicates fst [(1%Z, "a"); (2%Z, "b"); (1%Z, "c"); (2%Z, "d"); (3%Z, "e")]
  = [(1%Z, "a"); (2%Z, "b"); (3%Z, "e")].
Proof. reflexivity. Qed.

Example clasificacion_abc_cinco :
  (λ f, (entidad f, clasificacion f))
    <$> pipeline_utils.clasificacion_abc
          [(1%Z, 6%Q); (2%Z, 50%Q); (3%Z, 30%Q); (4%Z, 10%Q); (5%Z, 4%Q)]
  = [(2%Z, ClaseA); (3%Z, ClaseA); (4%Z, ClaseB); (1%Z, ClaseC); (5%Z, ClaseC)].
Proof. by vm_compute. Qed.

(** The shares 50%, 90% and 100%. *)
Example clasificacion_abc_tres :
  clasificacion <$> pipeline_utils.clasificacion_abc
                      [(1%Z, 50%Q); (2%Z, 40%Q); (3%Z, 10%Q)]
  = [ClaseA; ClaseB; ClaseC].
Proof. by vm_compute. Qed.

Example top5_productos_por_importe_seis :
  pipeline_utils.top5_productos_por_importe completo_seis
  = [ ((1%Z, Some "Bread"), (6 + 6)%Q); ((5%Z, Some "Rice"), 9%Q);
      ((2%Z, Some "Eggs"), 5%Q); ((3%Z, Some "Milk"), 5%Q);
      ((6%Z, Some "Soap"), 3%Q) ].
Proof. by vm_compute. Qed.

Example huerfanos_de_la_linea_huerfana :
  pipeline_utils.validate_referential_integrity tablas_huerfana tt
  = (false, stats_huerfana).
Proof. by vm_compute. Qed.

(** The scenario of one product, one customer, one sale and one line. *)
Example ejecutar_pipeline_ejemplo :
  ∃ m limpias,
    salida (ejecutar_pipeline (H := utils_modelo (inr tablas_ejemplo) (inr tt)) tt false)
    = inr (m, limpias)
    ∧ length (filas (df_completo m)) = 1%nat
    ∧ ticket_promedio m = [(2025%Z, 1%Z, 6%Q)]
    ∧ top5_productos m = [((1%Z, Some "Bread"), 6%Q)]
    ∧ (fst <$> medios_pago m = ["cash"]
       ∧ Forall (λ p, p == 100)%Q (snd <$> medios_pago m))
    ∧ (λ f, (entidad f, clasificacion f)) <$> abc_productos m
      = [(ClaveIdNombre 1 "Bread", ClaseC)]
    ∧ (λ f, (entidad f, clasificacion f)) <$> abc_clientes m = [(10%Z, ClaseC)].
Proof.
  destruct (salida (ejecutar_pipeline
                      (H := utils_modelo (inr tablas_ejemplo) (inr tt)) tt false))
    as [e | [m limpias]] eqn:Hrun; vm_compute in Hrun; [discriminate |].
  injection Hrun as <- <-. do 2 eexists. split; [reflexivity |].
  split_and!; try reflexivity. repeat constructor.
Qed.

(** A refund taken through the whole program: the line is clean (quantity
    and price are positive), and cash ends with 150% of the total. *)
Example ejecutar_pipeline_devolucion :
  ∃ m limpias p,
    salida (ejecutar_pipeline (H := utils_modelo (inr tablas_devolucion) (inr tt)) tt true)
    = inr (m, limpias)
    ∧ ("cash", p) ∈ medios_pago m ∧ (p == 150)%Q.
Proof.
  destruct (salida (ejecutar_pipeline
                      (H := utils_modelo (inr tablas_devolucion) (inr tt)) tt true))
    as [e | [m limpias]] eqn:Hrun; vm_compute in Hrun; [discriminate |].
  injection Hrun as <- <-. do 3 eexists. split; [reflexivity |].
  split; [apply list_elem_of_further, list_elem_of_here | reflexivity].
Qed.

(** ** Values for the loggers *)

Lemma ndarray_ind_fuerte (P : ndarray → Prop) :
  (∀ e, P (Escalar e)) → (∀ l, Forall P l → P (Eje l)) → ∀ a, P a.
Proof.
  intros Hesc Heje. fix IH 1. intros [e | l]; [apply Hesc |].
  apply Heje. induction l as [| a l IHl]; constructor; [apply IH | apply IHl].
Qed.

Lemma objeto_ind_fuerte (P : objeto → Prop) :
  P PyNone → (∀ b, P (PyBool b)) → (∀ z, P (PyInt z)) → (∀ q, P (PyFloat q)) →
  (∀ s, P (PyStr s)) → (∀ z, P (NpInteger z)) → (∀ q, P (NpFloating q)) →
  (∀ b, P (NpBool b)) → (∀ a, P (NdArray a)) →
  (∀ c, P c → P (NdObject c)) →
  (∀ d, Forall (λ kv, P (snd kv)) d → P (PyDict d)) →
  (∀ l, Forall P l → P (PyList l)) →
  (∀ l, Forall P l → P (PyTuple l)) →
  ∀ obj, P obj.
Proof.
  intros HNone HBool HInt HFloat HStr HNpI HNpF HNpB HArr HObj HDict HList HTuple.
  fix IH 1. intros [| b | z | q | s | z | q | b | a | c | d | l | l].
  - apply HNone.
  - apply HBool.
  - apply HInt.
  - apply HFloat.
  - apply HStr.
  - apply HNpI.
  - apply HNpF.
  - apply HNpB.
  - apply HArr.
  - apply HObj, IH.
  - apply HDict. induction d as [| [k v] d IHd]; constructor; [apply IH | apply IHd].
  - apply HList. induction l as [| x l IHl]; constructor; [apply IH | apply IHl].
  - apply HTuple. induction l as [| x l IHl]; constructor; [apply IH | apply IHl].
Qed.

Lemma map_ext_Forall {X Y} (f g : X → Y) (l : list X) :
  Forall (λ x, f x = g x) l ↔ List.map f l = List.map g l.
Proof.
  induction l as [| x l IH]; simpl.
  - split; [done | constructor].
  - rewrite Forall_cons, IH. split; [by intros [-> ->] | by intros [= -> ->]].
Qed.

Lemma forallb_Forall {X} (f : X → bool) (l : list X) :
  forallb f l = true ↔ Forall (λ x, f x = true) l.
Proof.
  induction l as [| x l IH]; simpl; [by split; [constructor |] |].
  rewrite andb_true_iff, IH, Forall_cons. done.
Qed.

Lemma forallb_map {X Y} (f : Y → bool) (g : X → Y) (l : list X) :
  forallb f (List.map g l) = forallb (λ x, f (g x)) l.
Proof. induction l as [| x l IH]; simpl; congruence. Qed.

Lemma forallb_ext_Forall {X} (f g : X → bool) (l : list X) :
  Forall (λ x, f x = g x) l → forallb f l = forallb g l.
Proof. induction 1 as [| x l Hx _ IH]; simpl; congruence. Qed.

Lemma Forall_iff_Forall {X} (P Q : X → Prop) (l : list X) :
  Forall (λ x, P x ↔ Q x) l → Forall P l ↔ Forall Q l.
Proof.
  induction 1 as [| x l Hx _ IH]; [by split; constructor |].
  by rewrite !Forall_cons, Hx, IH.
Qed.

Lemma libre_de_numpy_tolist a : libre_de_numpy (tolist a) = true.
Proof.
  induction a as [[] | l IH] using ndarray_ind_fuerte; try done.
  simpl. rewrite forallb_map. by apply forallb_Forall.
Qed.

Lemma convertido_tolist a : convertido (tolist a) = true.
Proof.
  induction a as [[] | l IH] using ndarray_ind_fuerte; try done.
  simpl. rewrite forallb_map. by apply forallb_Forall.
Qed.

(** The values the conversion gives back as they are. *)
Lemma make_json_serializable_fijo obj :
  make_json_serializable obj = obj ↔ convertido obj = true.
Proof.
  induction obj as [| | | | | | | | a | c IH | d IH | l IH | l IH]
    using objeto_ind_fuerte; try done; simpl.
  - split; [| done]. destruct a as [[] | l]; done.
  - split; [| done]. intros Hc. apply (f_equal objeto_size) in Hc. simpl in Hc. lia.
  - rewrite forallb_Forall. rewrite <- (List.map_id d) at 2. split.
    + intros [= Hd]. apply map_ext_Forall in Hd.
      apply (Forall_iff_Forall
               (λ kv, make_json_serializable (snd kv) = snd kv)); [done |].
      eapply Forall_impl; [exact Hd |]. intros [k v]. simpl. by intros [= ->].
    + intros Hd. f_equal. apply map_ext_Forall.
      apply (Forall_iff_Forall _ _ _ IH) in Hd.
      eapply Forall_impl; [exact Hd |]. intros [k v]. simpl. by intros ->.
  - rewrite forallb_Forall. rewrite <- (List.map_id l) at 2. split.
    + intros [= Hl]. apply map_ext_Forall in Hl.
      by apply (Forall_iff_Forall _ _ _ IH).
    + intros Hl. f_equal. apply map_ext_Forall.
      by apply (Forall_iff_Forall _ _ _ IH).
Qed.

(** X1. The conversion leaves no value of [numpy] but those inside tuples
    and arrays of objects: its result is free of them exactly when the
    tuples and the arrays of objects of the value were. *)
Theorem make_json_serializable_libre obj :
  libre_de_numpy (make_json_serializable obj) = interior_limpio obj.
Proof.
  induction obj as [| | | | | | | | a | c IH | d IH | l IH | l IH]
    using objeto_ind_fuerte; try done; simpl.
  - apply libre_de_numpy_tolist.
  - rewrite forallb_map. apply forallb_ext_Forall.
    eapply Forall_impl; [exact IH |]. by intros [k v].
  - rewrite forallb_map. by apply forallb_ext_Forall.
Qed.

(** X2. Converting twice is converting once exactly when the arrays of
    objects the conversion meets hold nothing it would touch. *)
Theorem make_json_serializable_idempotente obj :
  make_json_serializable (make_json_serializable obj) = make_json_serializable obj
  ↔ arreglos_convertidos obj = true.
Proof.
  induction obj as [| | | | | | | | a | c IH | d IH | l IH | l IH]
    using objeto_ind_fuerte; try done; simpl.
  - split; [done | intros _].
    apply make_json_serializable_fijo, convertido_tolist.
  - apply make_json_serializable_fijo.
  - rewrite forallb_Forall, List.map_map, <- (Forall_iff_Forall _ _ _ IH). split.
    + intros [= Hd]. apply map_ext_Forall in Hd.
      eapply Forall_impl; [exact Hd |]. intros [k v]. simpl. by intros [= ->].
    + intros Hd. f_equal. apply map_ext_Forall.
      eapply Forall_impl; [exact Hd |]. intros [k v]. simpl. by intros ->.
  - rewrite forallb_Forall, List.map_map, <- (Forall_iff_Forall _ _ _ IH). split.
    + intros [= Hl]. by apply map_ext_Forall in Hl.
    + intros Hl. f_equal. by apply map_ext_Forall.
Qed.

Example make_json_serializable_tupla :
  make_json_serializable
    (PyDict [("mem_usos", PyDict [("load_mem", NpInteger 2048)]);
             ("forma", PyTuple [NpInteger 3; PyInt 4]);
             ("tiempos", NdArray (Eje [Escalar (EFloat 0.5); Escalar (EInt 2)]))])
  = PyDict [("mem_usos", PyDict [("load_mem", PyInt 2048)]);
            ("forma", PyTuple [NpInteger 3; PyInt 4]);
            ("tiempos", PyList [PyFloat 0.5; PyInt 2])].
Proof. reflexivity. Qed.

(** An array of objects that holds an integer of [numpy]: the first
    conversion takes the integer out as it is, the second one converts
    it. *)
Example make_json_serializable_arreglo_de_objetos :
  make_json_serializable (NdObject (PyList [NpInteger 1])) = PyList [NpInteger 1]
  ∧ make_json_serializable (PyList [NpInteger 1]) = PyList [PyInt 1].
Proof. by split. Qed.

(** ** Sizes in bytes *)

Lemma escala_S k : (escala (S k) == step * escala k)%Q.
Proof.
  unfold escala. rewrite Nat2Z.inj_succ, Z.pow_succ_r by lia.
  by rewrite inject_Z_mult.
Qed.

Lemma escala_pos k : (0 < escala k)%Q.
Proof.
  unfold escala. change 0%Q with (inject_Z 0). rewrite <- Zlt_Qlt.
  apply Z.pow_pos_nonneg; lia.
Qed.

(** The loop, from the [k]-th unit on, for a size that has been divided [k]
    times. *)
Lemma format_bytes_bucle_spec (pendientes : list string) (size : Q) :
  let r := format_bytes_bucle size pendientes in
  ∃ j : nat,
    (pendientes ++ ["PB"]) !! j = Some (snd r)
    ∧ (fst r * escala j == size)%Q
    ∧ ((j < length pendientes)%nat → (fst r < step)%Q)
    ∧ ((0 < j)%nat → (1 <= fst r)%Q).
Proof.
  revert size. induction pendientes as [| unit resto IH]; intros size; simpl.
  - exists 0%nat. split_and!;
      [done | change (escala 0) with 1%Q; cbn [fst]; ring | simpl; lia | lia].
  - destruct (Qle_bool step size) eqn:Hle; simpl.
    + apply Qle_bool_iff in Hle.
      destruct (IH (size / step)%Q) as (j & Hj & Hsize & Hmenor & Hmayor).
      exists (S j). split_and!.
      * done.
      * rewrite escala_S.
        transitivity (step * (fst (format_bytes_bucle (size / step) resto)
                              * escala j))%Q; [ring |].
        rewrite Hsize. field. done.
      * intros Hlt. apply Hmenor. lia.
      * intros _. destruct j as [| j].
        -- change (escala 0) with 1%Q in Hsize. rewrite Qmult_1_r in Hsize. rewrite Hsize.
           apply Qle_shift_div_l; [done |]. by rewrite Qmult_1_l.
        -- apply Hmayor. lia.
    + exists 0%nat. split_and!;
        [done | change (escala 0) with 1%Q; cbn [fst]; ring | | lia].
      intros _. apply Qnot_le_lt. intros Hge. apply Qle_bool_iff in Hge. congruence.
Qed.

(** X3. For a number of bytes that a float holds exactly, [_format_bytes]
    gives the number of bytes scaled down by the power of 1024 its unit
    stands for, exactly.  With a unit below the petabytes the figure is
    under 1024, with a unit above the bytes it is at least 1, and the
    petabytes come up exactly from 1024^5 bytes on; below 1024 bytes,
    negative numbers included, the unit is the byte. *)
Theorem format_bytes_escala (num_bytes : Z) :
  (Z.abs num_bytes ≤ 2 ^ 53)%Z →
  let r := _format_bytes num_bytes in
  ∃ j : nat,
    unidades !! j = Some (snd r)
    ∧ (fst r * escala j == inject_Z num_bytes)%Q
    ∧ (snd r ≠ "PB" → (fst r < 1024)%Q)
    ∧ (snd r ≠ "B" → (1 <= fst r)%Q)
    ∧ (snd r = "PB" ↔ (1024 ^ 5 ≤ num_bytes)%Z)
    ∧ (snd r = "B" ↔ (num_bytes < 1024)%Z).
Proof.
  intros _ r.
  destruct (format_bytes_bucle_spec units (inject_Z num_bytes))
    as (j & Hj & Hsize & Hmenor & Hmayor).
  fold (_format_bytes num_bytes) in Hj, Hsize, Hmenor, Hmayor. fold r in Hj, Hsize, Hmenor, Hmayor.
  fold unidades in Hj.
  assert (Hnodup : NoDup unidades) by por_calculo.
  assert (Hpb : snd r = "PB" ↔ j = 5%nat).
  { split.
    - intros Hr. rewrite Hr in Hj.
      by apply (NoDup_lookup _ _ _ _ Hnodup Hj).
    - intros ->. by injection Hj as <-. }
  assert (Hb : snd r = "B" ↔ j = 0%nat).
  { split.
    - intros Hr. rewrite Hr in Hj.
      by apply (NoDup_lookup _ _ _ _ Hnodup Hj).
    - intros ->. by injection Hj as <-. }
  assert (Hj6 : (j < 6)%nat) by (by apply lookup_lt_Some in Hj).
  exists j. split_and!; [done | done | | | |].
  - intros Hno. apply Hmenor. simpl. destruct (decide (j = 5%nat)); [| lia].
    by destruct Hno; apply Hpb.
  - intros Hno. apply Hmayor. destruct (decide (j = 0%nat)); [| lia].
    by destruct Hno; apply Hb.
  - rewrite Hpb. split.
    + intros ->. assert (H1 : (1 <= fst r)%Q) by (apply Hmayor; lia).
      assert (Hq : (inject_Z (1024 ^ 5) <= inject_Z num_bytes)%Q).
      { rewrite <- Hsize.
        apply Qle_trans with (1 * escala 5)%Q; [by vm_compute |].
        apply Qmult_le_compat_r; [done | by vm_compute]. }
      by rewrite Zle_Qle.
    + intros Hge. destruct (decide (j = 5%nat)) as [| Hne]; [done | exfalso].
      assert (Hlt : (fst r < step)%Q) by (apply Hmenor; simpl; lia).
      assert (Hq : (inject_Z num_bytes < inject_Z (1024 ^ 5))%Q).
      { rewrite <- Hsize.
        apply Qlt_le_trans with (step * escala j)%Q.
        - apply Qmult_lt_compat_r; [apply escala_pos | done].
        - rewrite <- escala_S.
          assert (Hcasos : j = 0%nat ∨ j = 1%nat ∨ j = 2%nat ∨ j = 3%nat ∨ j = 4%nat)
            by lia.
          destruct Hcasos as [-> | [-> | [-> | [-> | ->]]]]; by vm_compute. }
      rewrite <- Zlt_Qlt in Hq. lia.
  - rewrite Hb. split.
    + intros ->. assert (Hlt : (fst r < step)%Q) by (apply Hmenor; simpl; lia).
      change (escala 0) with 1%Q in Hsize. rewrite Qmult_1_r in Hsize. rewrite Hsize in Hlt.
      by rewrite Zlt_Qlt.
    + intros Hlt. destruct (decide (j = 0%nat)) as [| Hne]; [done | exfalso].
      assert (H1 : (1 <= fst r)%Q) by (apply Hmayor; lia).
      assert (Hq : (inject_Z 1024 <= inject_Z num_bytes)%Q).
      { rewrite <- Hsize.
        apply Qle_trans with (1 * escala j)%Q.
        - rewrite Qmult_1_l.
          assert (Hcasos : j = 1%nat ∨ j = 2%nat ∨ j = 3%nat ∨ j = 4%nat ∨ j = 5%nat)
            by lia.
          destruct Hcasos as [-> | [-> | [-> | [-> | ->]]]]; by vm_compute.
        - apply Qmult_le_compat_r; [done |]. apply Qlt_le_weak, escala_pos. }
      rewrite <- Zle_Qle in Hq. lia.
Qed.

Example format_bytes_ejemplos :
  _format_bytes 0 = (0%Q, "B")
  ∧ _format_bytes 1023 = (1023%Q, "B")
  ∧ snd (_format_bytes 1024) = "KB" ∧ (fst (_format_bytes 1024) == 1)%Q
  ∧ snd (_format_bytes 1536) = "KB" ∧ (fst (_format_bytes 1536) == 1.5)%Q
  ∧ snd (_format_bytes (1024 ^ 5)) = "PB"
  ∧ snd (_format_bytes (-5)) = "B".
Proof. by vm_compute. Qed.

(** ** Logs *)

Lemma registro_emitir ev : registro (emitir ev) = [ev].
Proof. reflexivity. Qed.

Lemma registro_llamar {X} (r : resultado X) : registro (llamar r) = [].
Proof. reflexivity. Qed.

Lemma registro_mret {X} (x : X) : registro (mret x) = [].
Proof. reflexivity. Qed.

Lemma registro_try_except {X} donde (m : M X) :
  registro (try_except donde m)
  = match salida m with
    | inl e => registro m ++ [ErrorRegistrado donde e]
    | inr _ => registro m
    end.
Proof. unfold try_except, registro, salida. by destruct (snd m). Qed.

Lemma registro_cuando b m : registro (cuando b m) = if b then registro m else [].
Proof. by destruct b. Qed.

Lemma registro_informar_descartes stats :
  registro (informar_descartes stats)
  = (λ '(tabla, (inicial, final)),
       if decide (final < inicial)%nat then Descartes tabla inicial final
       else Info "sin descartes") <$> stats.
Proof.
  unfold informar_descartes.
  induction stats as [| [tabla [inicial final]] stats IH]; [done |].
  cbn [foldr]. rewrite registro_bind, salida_emitir, registro_emitir, IH, fmap_cons.
  simpl. f_equal.
  destruct (decide (0 < inicial - final)%nat), (decide (final < inicial)%nat);
    try done; lia.
Qed.

Lemma registro_agregar_nombre_producto {N D} (t : Tablas N D) :
  salida (validar_columnas t) = inr tt →
  registro (agregar_nombre_producto t)
  = if decide ("nombre_producto" ∈ columns (df_detalle t)) then []
    else [Info "detalle_nombre_producto_merge"].
Proof.
  intros Hok.
  assert (Hdet : "id_producto" ∈ columns (df_detalle t)).
  { eapply (validar_columnas_ok_columnas t "detalle"); [done | |].
    - do 3 apply list_elem_of_further. apply list_elem_of_here.
    - set_solver. }
  assert (Hpn : "nombre_producto" ∈ columns (df_productos t)).
  { eapply (validar_columnas_ok_columnas t "productos"); [done | |].
    - apply list_elem_of_here.
    - set_solver. }
  assert (Hpi : "id_producto" ∈ columns (df_productos t)).
  { eapply (validar_columnas_ok_columnas t "productos"); [done | |].
    - apply list_elem_of_here.
    - set_solver. }
  unfold agregar_nombre_producto.
  destruct (decide ("nombre_producto" ∈ columns (df_detalle t))) as [Hcol | Hcol].
  - by rewrite decide_False by tauto.
  - by rewrite !decide_True by done.
Qed.

Ltac abrir_registro :=
  repeat progress
    (rewrite ?registro_bind, ?salida_bind, ?registro_try_except, ?salida_try_except,
       ?registro_emitir, ?salida_emitir, ?registro_llamar, ?salida_llamar,
       ?registro_cuando, ?salida_cuando, ?registro_mret, ?salida_mret,
       ?registro_informar_descartes, ?salida_informar_descartes;
     cbn [app negb]).

(** The next result to tell apart: a pair to open, or the result of a
    helper, of the schema check or of the merge of the names. *)
Ltac distinguir_registro :=
  match goal with
  | |- context [let '(_, _) := ?p in _] => is_var p; destruct p
  | |- context [match ?r with inl _ => _ | inr _ => _ end] =>
      lazymatch r with
      | salida (validar_columnas _) => idtac
      | salida (agregar_nombre_producto _) => idtac
      | context [salida] => fail
      | context [match _ with inl _ => _ | inr _ => _ end] => fail
      | _ => idtac
      end;
      let H := fresh "Hres" in destruct r as [? | ?] eqn:H
  | |- context [if negb ?b then _ else _] => destruct b; cbn [negb]
  end.

Ltac recorrer_registro := repeat (abrir_registro; try distinguir_registro).

Section registro_de_la_corrida.
Context `{PipelineUtils}.

(** The log of a run that returns, whole. *)
Lemma ejecutar_pipeline_registro config fastmode :
  match salida (ejecutar_pipeline config fastmode) with
  | inl _ => True
  | inr v =>
      ∃ rutas t0 t ok stats cstats,
        resolve_routes config = inr rutas
        ∧ read_tables rutas = inr t0
        ∧ salida (validar_columnas t0) = inr tt
        ∧ salida (agregar_nombre_producto t0) = inr t
        ∧ validate_referential_integrity t config = inr (ok, stats)
        ∧ clean_all t = inr (snd v, cstats)
        ∧ registro (ejecutar_pipeline config fastmode)
          = registro_corrida t0 ok stats cstats fastmode
  end.
Proof.
  unfold ejecutar_pipeline, calcular_metricas, cargar_datasets, limpiar_datos,
    exportar_resultados.
  destruct fastmode.
  all: recorrer_registro; try done.
  all: repeat match goal with u : unit |- _ => destruct u end.
  all: repeat match goal with p : (_ * _)%type |- _ => destruct p end.
  all: repeat match goal with
              | Hx : inr _ = inr _ |- _ => injection Hx as ? ?; subst
              end.
  all: match goal with
       | Hcols : salida (validar_columnas ?t0) = inr tt |- _ =>
           rewrite (validar_columnas_registro t0 Hcols),
             (registro_agregar_nombre_producto t0 Hcols)
       end.
  all: do 6 eexists; split_and!; try done.
  all: unfold registro_corrida, registro_carga, registro_limpieza, registro_exportacion.
  all: cbn [snd].
  all: repeat case_decide; try done.
  all: rewrite <- ?app_assoc; cbn [app]; rewrite <- ?app_assoc; reflexivity.
Qed.
End registro_de_la_corrida.

Lemma errores_app l1 l2 : errores (l1 ++ l2) = errores l1 ++ errores l2.
Proof. unfold errores. apply filter_app. Qed.

Lemma errores_registro_limpieza cstats : errores (registro_limpieza cstats) = [].
Proof.
  unfold registro_limpieza. rewrite !errores_app.
  assert (Hmedio : errores
    ((λ '(tabla, (inicial, final)),
        if decide (final < inicial)%nat then Descartes tabla inicial final
        else Info "sin descartes") <$> cstats) = []).
  { induction cstats as [| [tabla [inicial final]] cstats IH]; [done |].
    rewrite fmap_cons. unfold errores in *. rewrite filter_cons, IH.
    by destruct (decide (final < inicial)%nat). }
  by rewrite Hmedio.
Qed.

Lemma errores_registro_corrida t0 ok stats cstats fastmode :
  errores (registro_corrida t0 ok stats cstats fastmode) = [].
Proof.
  unfold registro_corrida, registro_carga. rewrite !errores_app.
  rewrite errores_registro_limpieza.
  destruct ok, fastmode, (decide ("nombre_producto" ∈ columns (df_detalle t0))); done.
Qed.

Lemma elem_of_registro_limpieza cstats tabla inicial final :
  Descartes tabla inicial final ∈ registro_limpieza cstats
  ↔ (tabla, (inicial, final)) ∈ cstats ∧ (final < inicial)%nat.
Proof.
  unfold registro_limpieza. rewrite !elem_of_app, list_elem_of_fmap.
  rewrite !list_elem_of_singleton. split.
  - intros [Hno | [([t [i f]] & Heq & Hin) | Hno]]; [done | | done].
    destruct (decide (f < i)%nat); [| done]. by injection Heq as -> -> ->.
  - intros [Hin Hlt]. right. left. exists (tabla, (inicial, final)).
    split; [| done]. by rewrite decide_True.
Qed.

(** Membership in a list that is put together from lists written out:
    the parts are gone through, and the entries that differ are left
    behind. *)
Ltac recorrer_lista H :=
  repeat match type of H with
         | _ ∈ _ ++ _ => apply elem_of_app in H as [H | H]
         | _ ∈ _ :: _ => apply elem_of_cons in H as [H | H]; [try discriminate H |]
         | _ ∈ [] => by apply elem_of_nil in H
         | _ ∈ (if ?c then _ else _) => destruct c
         end.

Lemma RiWarning_registro_corrida t0 ok stats cstats fastmode :
  RiWarning ∈ registro_corrida t0 ok stats cstats fastmode ↔ ok = false.
Proof.
  split.
  - intros Hin. destruct ok; [exfalso | done].
    unfold registro_corrida, registro_carga, registro_limpieza, registro_exportacion
      in Hin.
    recorrer_lista Hin.
    all: apply list_elem_of_fmap in Hin as ([tb [i f]] & Heq & _); by case_decide.
  - intros ->. unfold registro_corrida, registro_carga.
    apply elem_of_app. right. apply elem_of_app. left.
    apply elem_of_app. right. apply elem_of_app. right.
    apply elem_of_app. right. apply list_elem_of_here.
Qed.

Lemma Descartes_registro_corrida t0 ok stats cstats fastmode tabla inicial final :
  Descartes tabla inicial final ∈ registro_corrida t0 ok stats cstats fastmode
  ↔ Descartes tabla inicial final ∈ registro_limpieza cstats.
Proof.
  split.
  - intros Hin. unfold registro_corrida, registro_carga, registro_exportacion in Hin.
    recorrer_lista Hin; done.
  - intros Hin. unfold registro_corrida.
    apply elem_of_app. right. apply elem_of_app. right.
    apply elem_of_app. right. apply elem_of_app. by left.
Qed.

Section registros.
Context `{PipelineUtils}.

(** X4. The log of a run that returns: the lines of the logger, the marks
    of the stages and the records of [manejar_error].  It is the log of the
    load, of the cleaning, of the metrics and, unless in fast mode, of the
    export between the marks of the stages, in that order; it holds no
    record of [manejar_error]; the warning about
    referential integrity is in it exactly when the check has returned a
    false flag; and a table has a warning about discarded rows exactly when
    [clean_all] reports fewer rows after than before. *)
Theorem ejecutar_pipeline_registro_exito (config : Config) (fastmode : bool)
    (v : Corrida) :
  salida (ejecutar_pipeline config fastmode) = inr v →
  ∃ rutas t0 t ok stats cstats,
    resolve_routes config = inr rutas
    ∧ read_tables rutas = inr t0
    ∧ salida (agregar_nombre_producto t0) = inr t
    ∧ validate_referential_integrity t config = inr (ok, stats)
    ∧ clean_all t = inr (snd v, cstats)
    ∧ registro (ejecutar_pipeline config fastmode)
      = registro_corrida t0 ok stats cstats fastmode
    ∧ errores (registro (ejecutar_pipeline config fastmode)) = []
    ∧ (RiWarning ∈ registro (ejecutar_pipeline config fastmode) ↔ ok = false)
    ∧ (∀ tabla inicial final,
         Descartes tabla inicial final ∈ registro (ejecutar_pipeline config fastmode)
         ↔ (tabla, (inicial, final)) ∈ cstats ∧ (final < inicial)%nat).
Proof.
  intros Hv. pose proof (ejecutar_pipeline_registro config fastmode) as Hlog.
  rewrite Hv in Hlog.
  destruct Hlog as (rutas & t0 & t & ok & stats & cstats & Hrutas & Hleer & Hcols
                    & Hnombre & Hri & Hclean & Hlog).
  exists rutas, t0, t, ok, stats, cstats. split_and!; try done.
  - rewrite Hlog. apply errores_registro_corrida.
  - rewrite Hlog. apply RiWarning_registro_corrida.
  - intros tabla inicial final. rewrite Hlog, Descartes_registro_corrida.
    apply elem_of_registro_limpieza.
Qed.
End registros.

(** ** Error records *)

Lemma errores_propios_bind {X Y} (m : M X) (f : X → M Y) :
  errores_propios m → (∀ x, errores_propios (f x)) → errores_propios (m ≫= f).
Proof.
  intros Hm Hf ev. rewrite registro_bind, salida_bind.
  destruct (salida m) as [e0 | x] eqn:Hs.
  - intros Hin Hev. destruct (Hm _ Hin Hev) as (e & Heq & Hr).
    exists e. split; [congruence | done].
  - intros [Hin | Hin]%elem_of_app Hev.
    + destruct (Hm _ Hin Hev) as (e & Heq & _). congruence.
    + by apply Hf.
Qed.

Lemma errores_propios_nada {X} (m : M X) : registro m = [] → errores_propios m.
Proof. intros Hnada ev Hin. rewrite Hnada in Hin. by apply elem_of_nil in Hin. Qed.

Lemma errores_propios_emitir ev : es_error ev = false → errores_propios (emitir ev).
Proof.
  intros Hev ev' Hin Herr. rewrite registro_emitir in Hin.
  apply list_elem_of_singleton in Hin. subst ev'. congruence.
Qed.

Lemma errores_propios_try_except {X} donde (m : M X) :
  donde ∈ lugares → errores_propios m → errores_propios (try_except donde m).
Proof.
  intros Hd Hm ev. rewrite registro_try_except, salida_try_except.
  destruct (salida m) as [e0 | x] eqn:Hs.
  - intros [Hin | Hin]%elem_of_app Hev.
    + destruct (Hm _ Hin Hev) as (e & Heq & Hr). exists e. split; [congruence | done].
    + apply list_elem_of_singleton in Hin. subst ev. exists e0. split; [done |].
      exists donde. split; [done | by left].
  - intros Hin Hev. destruct (Hm _ Hin Hev) as (e & Heq & _). congruence.
Qed.

Lemma errores_propios_cuando b m : errores_propios m → errores_propios (cuando b m).
Proof. destruct b; [done |]. intros _. by apply errores_propios_nada. Qed.

Lemma errores_propios_validar_tabla nombre req cols :
  errores_propios (validar_tabla nombre req cols).
Proof.
  destruct (decide (faltantes_requeridos nombre req cols = ∅)) as [Hok | Hno].
  - rewrite (validar_tabla_ok _ _ _ Hok). intros ev Hin Hev. exfalso.
    unfold registro in Hin. cbn [fst] in Hin.
    destruct (decide (faltantes_opcionales nombre cols = ∅)).
    + by apply elem_of_nil in Hin.
    + apply list_elem_of_singleton in Hin. by subst ev.
  - rewrite (validar_tabla_error _ _ _ Hno). intros ev Hin Hev.
    unfold registro in Hin. cbn [fst] in Hin.
    apply list_elem_of_singleton in Hin. subst ev.
    eexists. split; [reflexivity |]. exists "ingesta". split; [by left | by right].
Qed.

Lemma errores_propios_validar_columnas {N D} (t : Tablas N D) :
  errores_propios (validar_columnas t).
Proof.
  unfold validar_columnas. induction columnas_esperadas as [| [n r] l IH].
  - by apply errores_propios_nada.
  - cbn [validar_bucle]. apply errores_propios_bind; [| done].
    apply errores_propios_validar_tabla.
Qed.

Lemma errores_propios_agregar_nombre_producto {N D} (t : Tablas N D) :
  errores_propios (agregar_nombre_producto t).
Proof.
  unfold agregar_nombre_producto. repeat case_decide.
  - apply errores_propios_bind; [by apply errores_propios_emitir |].
    intros _. by apply errores_propios_nada.
  - by apply errores_propios_nada.
  - by apply errores_propios_nada.
Qed.

Lemma errores_propios_informar_descartes stats :
  errores_propios (informar_descartes stats).
Proof.
  intros ev Hin Hev. rewrite registro_informar_descartes in Hin.
  apply list_elem_of_fmap in Hin as ([tabla [inicial final]] & -> & _).
  by case_decide.
Qed.

(** One step through a computation: its first part and what comes next. *)
Ltac componer_errores :=
  repeat first
    [ apply errores_propios_validar_columnas
    | apply errores_propios_agregar_nombre_producto
    | apply errores_propios_informar_descartes
    | apply errores_propios_emitir; reflexivity
    | apply errores_propios_nada; reflexivity
    | apply errores_propios_cuando
    | apply errores_propios_try_except; [by repeat first [left | right] |]
    | apply errores_propios_bind; [| intros ?]
    | match goal with
      | |- context [let '(_, _) := ?p in _] => destruct p
      end ].

Section errores_de_la_corrida.
Context `{PipelineUtils}.

Lemma errores_propios_cargar_datasets config : errores_propios (cargar_datasets config).
Proof. unfold cargar_datasets. componer_errores. Qed.

Lemma errores_propios_limpiar_datos t : errores_propios (limpiar_datos t).
Proof. unfold limpiar_datos. componer_errores. Qed.

Lemma errores_propios_calcular_metricas t : errores_propios (calcular_metricas t).
Proof. unfold calcular_metricas. componer_errores. Qed.

Lemma errores_propios_exportar_resultados m config :
  errores_propios (exportar_resultados m config).
Proof. unfold exportar_resultados. componer_errores. Qed.

Lemma errores_propios_ejecutar_pipeline config fastmode :
  errores_propios (ejecutar_pipeline config fastmode).
Proof.
  unfold ejecutar_pipeline.
  repeat first
    [ apply errores_propios_cargar_datasets
    | apply errores_propios_limpiar_datos
    | apply errores_propios_calcular_metricas
    | apply errores_propios_exportar_resultados
    | progress componer_errores ].
Qed.
End errores_de_la_corrida.

(** ** The mark of success *)

Lemma sin_exito_bind {X Y} (m : M X) (f : X → M Y) :
  sin_exito m → (∀ x, sin_exito (f x)) → sin_exito (m ≫= f).
Proof.
  unfold sin_exito. intros Hm Hf. rewrite registro_bind.
  destruct (salida m) as [e | x]; [done |].
  rewrite elem_of_app. intros [Hin | Hin]; [done | by apply (Hf x)].
Qed.

Lemma sin_exito_nada {X} (m : M X) : registro m = [] → sin_exito m.
Proof. unfold sin_exito. intros ->. apply not_elem_of_nil. Qed.

Lemma sin_exito_emitir ev : ev ≠ Info "pipeline_success" → sin_exito (emitir ev).
Proof.
  unfold sin_exito. rewrite registro_emitir. intros Hev Hin.
  by apply list_elem_of_singleton in Hin.
Qed.

Lemma sin_exito_try_except {X} donde (m : M X) :
  sin_exito m → sin_exito (try_except donde m).
Proof.
  unfold sin_exito. rewrite registro_try_except. intros Hm.
  destruct (salida m); [| done].
  rewrite elem_of_app, list_elem_of_singleton. by intros [Hin | Hin].
Qed.

Lemma sin_exito_cuando b m : sin_exito m → sin_exito (cuando b m).
Proof. destruct b; [done |]. intros _. by apply sin_exito_nada. Qed.

Lemma sin_exito_validar_columnas {N D} (t : Tablas N D) :
  sin_exito (validar_columnas t).
Proof.
  unfold validar_columnas. induction columnas_esperadas as [| [n r] l IH].
  - by apply sin_exito_nada.
  - cbn [validar_bucle]. apply sin_exito_bind; [| done].
    unfold validar_tabla. repeat case_decide.
    + by apply sin_exito_nada.
    + by apply sin_exito_emitir.
    + apply sin_exito_bind; [by apply sin_exito_emitir |].
      intros _. by apply sin_exito_nada.
Qed.

Lemma sin_exito_agregar_nombre_producto {N D} (t : Tablas N D) :
  sin_exito (agregar_nombre_producto t).
Proof.
  unfold agregar_nombre_producto. repeat case_decide.
  - apply sin_exito_bind; [by apply sin_exito_emitir |].
    intros _. by apply sin_exito_nada.
  - by apply sin_exito_nada.
  - by apply sin_exito_nada.
Qed.

Lemma sin_exito_informar_descartes stats : sin_exito (informar_descartes stats).
Proof.
  unfold sin_exito. rewrite registro_informar_descartes. intros Hin.
  apply list_elem_of_fmap in Hin as ([tabla [inicial final]] & Heq & _).
  by case_decide.
Qed.

Ltac componer_sin_exito :=
  repeat first
    [ apply sin_exito_validar_columnas
    | apply sin_exito_agregar_nombre_producto
    | apply sin_exito_informar_descartes
    | apply sin_exito_emitir; discriminate
    | apply sin_exito_nada; reflexivity
    | apply sin_exito_cuando
    | apply sin_exito_try_except
    | apply sin_exito_bind; [| intros ?]
    | match goal with
      | |- context [let '(_, _) := ?p in _] => destruct p
      end ].

Lemma exito_al_volver_bind {X Y} (m : M X) (f : X → M Y) :
  sin_exito m → (∀ x, exito_al_volver (f x)) → exito_al_volver (m ≫= f).
Proof.
  unfold sin_exito, exito_al_volver. intros Hm Hf.
  rewrite registro_bind, salida_bind.
  destruct (salida m) as [e | x]; [done |].
  rewrite elem_of_app. intros [Hin | Hin]; [done | by apply Hf].
Qed.

Lemma exito_al_volver_try_except {X} donde (m : M X) :
  exito_al_volver m → exito_al_volver (try_except donde m).
Proof.
  unfold exito_al_volver. rewrite registro_try_except, salida_try_except.
  intros Hm. destruct (salida m) as [e | x] eqn:Hs; [| done].
  rewrite elem_of_app, list_elem_of_singleton. intros [Hin | Hin]; [auto | done].
Qed.

Lemma exito_al_volver_vuelve {X} (m : M X) x :
  salida m = inr x → exito_al_volver m.
Proof. intros Hx _. by exists x. Qed.

(** A computation that starts as [ejecutar_pipeline] does, when the set-up
    of the loggers returns. *)
Lemma registro_con_loggers {X} ev (a b : resultado unit) donde (cuerpo : M X) :
  a = inr tt → b = inr tt →
  salida (emitir ev ;; llamar a ;; llamar b ;; try_except donde cuerpo)
  = salida cuerpo
  ∧ registro (emitir ev ;; llamar a ;; llamar b ;; try_except donde cuerpo)
    = ev :: match salida cuerpo with
            | inl e => registro cuerpo ++ [ErrorRegistrado donde e]
            | inr _ => registro cuerpo
            end.
Proof.
  intros -> ->. unfold try_except, salida, registro, mbind, M_bind, emitir, llamar.
  simpl. by destruct cuerpo as [log [e | x]].
Qed.

Section exito_de_la_corrida.
Context `{PipelineUtils}.

Lemma sin_exito_cargar_datasets config : sin_exito (cargar_datasets config).
Proof. unfold cargar_datasets. componer_sin_exito. Qed.

Lemma sin_exito_limpiar_datos t : sin_exito (limpiar_datos t).
Proof. unfold limpiar_datos. componer_sin_exito. Qed.

Lemma sin_exito_calcular_metricas t : sin_exito (calcular_metricas t).
Proof. unfold calcular_metricas. componer_sin_exito. Qed.

Lemma sin_exito_exportar_resultados m config :
  sin_exito (exportar_resultados m config).
Proof. unfold exportar_resultados. componer_sin_exito. Qed.

Lemma exito_al_volver_ejecutar_pipeline config fastmode :
  exito_al_volver (ejecutar_pipeline config fastmode).
Proof.
  unfold ejecutar_pipeline.
  apply exito_al_volver_bind; [by apply sin_exito_emitir | intros _].
  do 2 (apply exito_al_volver_bind; [by apply sin_exito_nada | intros _]).
  apply exito_al_volver_try_except.
  repeat (apply exito_al_volver_bind;
          [ first [ apply sin_exito_cargar_datasets | apply sin_exito_limpiar_datos
                  | apply sin_exito_calcular_metricas
                  | apply sin_exito_cuando; repeat first
                      [ apply sin_exito_exportar_resultados | progress componer_sin_exito ]
                  | progress componer_sin_exito ]
          | intros ? ]).
  by eapply exito_al_volver_vuelve.
Qed.

Lemma registro_ejecutar_pipeline_listos config fastmode :
  loggers_listos →
  ∃ cuerpo : M Corrida,
    salida (ejecutar_pipeline config fastmode) = salida cuerpo
    ∧ registro (ejecutar_pipeline config fastmode)
      = Info "pipeline_start"
          :: match salida cuerpo with
             | inl e => registro cuerpo ++ [ErrorRegistrado "pipeline" e]
             | inr _ => registro cuerpo
             end.
Proof.
  intros [Hperf Hmet]. unfold ejecutar_pipeline. eexists.
  exact (registro_con_loggers _ _ _ _ _ Hperf Hmet).
Qed.

Lemma ultimo_ejecutar_pipeline config fastmode e :
  loggers_listos →
  salida (ejecutar_pipeline config fastmode) = inl e →
  last (registro (ejecutar_pipeline config fastmode))
  = Some (ErrorRegistrado "pipeline" e).
Proof.
  intros Hlog.
  destruct (registro_ejecutar_pipeline_listos config fastmode Hlog)
    as (cuerpo & -> & ->).
  intros ->. by rewrite app_comm_cons, last_snoc.
Qed.

Lemma registro_ejecutar_pipeline_sin_loggers config fastmode e :
  fallo_de_loggers e →
  registro (ejecutar_pipeline config fastmode) = [Info "pipeline_start"].
Proof.
  unfold ejecutar_pipeline. intros [Hperf | [Hperf Hmet]].
  - rewrite registro_bind, salida_emitir, registro_emitir.
    by rewrite registro_bind, salida_llamar, registro_llamar, Hperf.
  - rewrite registro_bind, salida_emitir, registro_emitir.
    rewrite registro_bind, salida_llamar, registro_llamar, Hperf.
    by rewrite registro_bind, salida_llamar, registro_llamar, Hmet.
Qed.

(** X5. The log of a run that raises.  When the loggers of the run are set
    up, its last record is the one [ejecutar_pipeline] writes for the
    exception it lets through; when their set-up raises, the log holds the
    start of the run and nothing else.  Every record of [manejar_error] in
    the log, wherever it was written (at the ingestion, at the export or by
    [ejecutar_pipeline] itself), is for that same exception: it holds the
    exception, or its message.  The mark of success is not in the log. *)
Theorem ejecutar_pipeline_registro_fallo (config : Config) (fastmode : bool)
    (e : excepcion) :
  salida (ejecutar_pipeline config fastmode) = inl e →
  (configurar_performance_logger = inr tt → configure_metrics_logger = inr tt →
   last (registro (ejecutar_pipeline config fastmode))
   = Some (ErrorRegistrado "pipeline" e))
  ∧ (configurar_performance_logger = inl e
     ∨ (configurar_performance_logger = inr tt ∧ configure_metrics_logger = inl e) →
     registro (ejecutar_pipeline config fastmode) = [Info "pipeline_start"])
  ∧ (∀ ev, ev ∈ registro (ejecutar_pipeline config fastmode) →
       match ev with
       | ErrorRegistrado donde e' => e' = e ∧ donde ∈ lugares
       | MensajeRegistrado donde t => t = TextoDe e ∧ donde ∈ lugares
       | _ => True
       end)
  ∧ Info "pipeline_success" ∉ registro (ejecutar_pipeline config fastmode).
Proof.
  intros He. split_and!.
  - intros Hperf Hmet. by apply ultimo_ejecutar_pipeline.
  - apply registro_ejecutar_pipeline_sin_loggers.
  - intros ev Hin. destruct ev as [| | | | | | | donde e' | donde t]; try done.
    + destruct (errores_propios_ejecutar_pipeline config fastmode _ Hin eq_refl)
        as (e0 & He0 & d & Hd & [Hev | Hev]); [| done].
      injection Hev as -> ->. split; [congruence | done].
    + destruct (errores_propios_ejecutar_pipeline config fastmode _ Hin eq_refl)
        as (e0 & He0 & d & Hd & [Hev | Hev]); [done |].
      injection Hev as -> ->. split; [congruence | done].
  - intros Hin.
    destruct (exito_al_volver_ejecutar_pipeline config fastmode Hin) as [v Hv].
    congruence.
Qed.
End exito_de_la_corrida.

Lemma ejecutar_pipeline_registro_fallo_witness :
  last (registro (ejecutar_pipeline (H := utils_disco_lleno) tt false))
  = Some (ErrorRegistrado "pipeline" (ErrorExterno "exportación" "disco lleno"))
  ∧ Info "pipeline_success"
    ∉ registro (ejecutar_pipeline (H := utils_disco_lleno) tt false).
Proof.
  destruct (ejecutar_pipeline_registro_fallo (H := utils_disco_lleno) tt false
              (ErrorExterno "exportación" "disco lleno"))
    as (Hultimo & _ & _ & Hmarca).
  - by vm_compute.
  - split; [by apply Hultimo | done].
Defined.

(** A run whose performance log cannot be opened. *)
Example ejecutar_pipeline_sin_log :
  ejecutar_pipeline
    (H := utils_con (inl (ErrorExterno "FileHandler" "logs")) (inr tablas_ejemplo)
            (inr tt) (inr tt)) tt false
  = ([Info "pipeline_start"], inl (ErrorExterno "FileHandler" "logs")).
Proof. by vm_compute. Qed.

Lemma ejecutar_pipeline_registro_exito_witness :
  errores (registro (ejecutar_pipeline (H := utils_ejemplo) tt false)) = []
  ∧ RiWarning ∈ registro (ejecutar_pipeline (H := utils_ejemplo) tt false).
Proof.
  destruct (salida (ejecutar_pipeline (H := utils_ejemplo) tt false))
    as [e | v] eqn:Hv; [vm_compute in Hv; discriminate |].
  destruct (ejecutar_pipeline_registro_exito (H := utils_ejemplo) tt false v Hv)
    as (rutas & t0 & t & ok & stats & cstats & _ & Hleer & Hnombre & Hri & _ & _
        & Herr & Hwarn & _).
  split; [exact Herr |].
  apply Hwarn. injection Hleer as <-. vm_compute in Hnombre. injection Hnombre as <-.
  vm_compute in Hri. by injection Hri as <- _.
Defined.

(** ** The two modes of a run *)

Section modos.
Context `{PipelineUtils}.

Lemma exporta_de_mas_bind {X} config al_fallar (m : M X) (f g : X → M Corrida) :
  (∀ x, exporta_de_mas config al_fallar (f x) (g x)) →
  exporta_de_mas config al_fallar (m ≫= f) (m ≫= g).
Proof.
  intros Hfg. unfold exporta_de_mas. rewrite !salida_bind, !registro_bind.
  destruct (salida m) as [e | x] eqn:Hs.
  - unfold mbind, M_bind. unfold salida in Hs. by rewrite Hs.
  - specialize (Hfg x). unfold exporta_de_mas in Hfg.
    destruct (salida (f x)) as [e | v].
    + unfold mbind, M_bind. unfold salida in Hs. by rewrite Hs, Hfg.
    + destruct Hfg as (comun & Hr & Hc & Hsal). exists (registro m ++ comun).
      by rewrite Hr, Hc, Hsal, <- !app_assoc.
Qed.

Lemma exporta_de_mas_final config (m : Metricas) (l : TablasLimpias) :
  exporta_de_mas config (λ _, [])
    (cuando (negb true)
       (emitir (Inicio EtExportacion) ;; exportar_resultados m config ;;
        emitir (Fin EtExportacion)) ;;
     emitir (Info "pipeline_success") ;; mret (m, l))
    (cuando (negb false)
       (emitir (Inicio EtExportacion) ;; exportar_resultados m config ;;
        emitir (Fin EtExportacion)) ;;
     emitir (Info "pipeline_success") ;; mret (m, l)).
Proof.
  unfold exporta_de_mas, exportar_resultados, registro_de_exportar,
    escribir_exportaciones.
  abrir_registro. exists []. cbn [fst].
  destruct crear_carpetas as [e | []]; [by abrir_registro |].
  abrir_registro.
  destruct (escribir_archivos m config) as [e | []]; by abrir_registro.
Qed.

Lemma exporta_de_mas_try_except config (rapida completa : M Corrida) :
  exporta_de_mas config (λ _, []) rapida completa →
  exporta_de_mas config (λ e, [ErrorRegistrado "pipeline" e])
    (try_except "pipeline" rapida) (try_except "pipeline" completa).
Proof.
  unfold exporta_de_mas. rewrite !salida_try_except, !registro_try_except.
  intros Hmodos. destruct (salida rapida) as [e | v].
  - by rewrite Hmodos.
  - destruct Hmodos as (comun & Hr & Hc & Hsal). exists comun.
    rewrite Hr, Hc, Hsal.
    destruct (escribir_exportaciones (fst v) config) as [e | u].
    + split_and!; [done | | done]. by rewrite <- !app_assoc.
    + done.
Qed.

(** X6. The logs of the two modes.  When the run in fast mode raises, the
    full run is the same run: same log, same exception.  When it returns,
    the two logs are the same up to the mark of success of the fast run;
    there the full run goes through the export, and ends with the mark of
    success when the folders were made and the files written.  When they
    were not, it ends with the record [ejecutar_pipeline] writes for the
    exception, which follows the record of the export when the exception
    is of the files, the folders being made outside the [try] of the
    export. *)
Theorem ejecutar_pipeline_registro_modos (config : Config) :
  let rapida := ejecutar_pipeline config true in
  let completa := ejecutar_pipeline config false in
  match salida rapida with
  | inl _ => completa = rapida
  | inr v =>
      ∃ comun,
        registro rapida = comun ++ [Info "pipeline_success"]
        ∧ registro completa
          = comun
              ++ [Inicio EtExportacion; Info "exportando"]
              ++ match crear_carpetas with
                 | inl e => [ErrorRegistrado "pipeline" e]
                 | inr _ =>
                     match escribir_archivos (fst v) config with
                     | inl e => [ErrorRegistrado "exportación" e;
                                 ErrorRegistrado "pipeline" e]
                     | inr _ => [Info "archivos exportados"; Info "resumen generado";
                                 Info "exportación completada"; Fin EtExportacion;
                                 Info "pipeline_success"]
                     end
                 end
        ∧ salida completa = match crear_carpetas with
                            | inl e => inl e
                            | inr _ =>
                                match escribir_archivos (fst v) config with
                                | inl e => inl e
                                | inr _ => inr v
                                end
                            end
  end.
Proof.
  intros rapida completa.
  assert (Hmodos : exporta_de_mas config (λ e, [ErrorRegistrado "pipeline" e])
                     rapida completa).
  { unfold rapida, completa, ejecutar_pipeline.
    do 3 (apply exporta_de_mas_bind; intros ?).
    apply exporta_de_mas_try_except.
    do 10 (apply exporta_de_mas_bind; intros ?).
    apply exporta_de_mas_final. }
  unfold exporta_de_mas in Hmodos. destruct (salida rapida) as [e | v]; [done |].
  destruct Hmodos as (comun & Hr & Hc & Hsal). exists comun.
  rewrite Hr, Hc, Hsal. unfold registro_de_exportar, escribir_exportaciones.
  destruct crear_carpetas as [e | u]; [done |].
  destruct (escribir_archivos (fst v) config) as [e | u']; done.
Qed.
End modos.

(** A full disk and a folder that cannot be made: the first is recorded by
    the export and by the run, the second by the run only. *)
Example ejecutar_pipeline_errores_de_exportar :
  errores (registro (ejecutar_pipeline (H := utils_disco_lleno) tt false))
  = [ErrorRegistrado "exportación" (ErrorExterno "exportación" "disco lleno");
     ErrorRegistrado "pipeline" (ErrorExterno "exportación" "disco lleno")]
  ∧ errores (registro (ejecutar_pipeline
                         (H := utils_con (inr tt) (inr tablas_ejemplo)
                                 (inl (ErrorExterno "mkdir" "export")) (inr tt))
                         tt false))
    = [ErrorRegistrado "pipeline" (ErrorExterno "mkdir" "export")].
Proof. split; by vm_compute. Qed.

(** ** Errors of the ingestion *)

Section errores_de_la_ingesta.
Context `{PipelineUtils}.

(** X7. Where an error of the ingestion is recorded, in a run whose loggers
    are set up.  The run has logged its start and that of the load when the
    files are looked for.  An error of [resolve_routes] is recorded once, by
    [ejecutar_pipeline]; an error of the reader is recorded by
    [cargar_datasets] too; and a table without a required column is
    recorded three times, twice by [cargar_datasets], which records the
    message of the error, raises the error and catches it, to record it
    once more.  Nothing else is logged. *)
Theorem ejecutar_pipeline_error_de_ingesta (config : Config) (fastmode : bool) :
  configurar_performance_logger = inr tt →
  configure_metrics_logger = inr tt →
  match resolve_routes config with
  | inl e =>
      registro (ejecutar_pipeline config fastmode)
      = inicio_de_la_carga ++ [ErrorRegistrado "pipeline" e]
  | inr rutas =>
      match read_tables rutas with
      | inl e =>
          registro (ejecutar_pipeline config fastmode)
          = inicio_de_la_carga
              ++ [ErrorRegistrado "ingesta" e; ErrorRegistrado "pipeline" e]
      | inr t0 =>
          ∀ e, salida (validar_columnas t0) = inl e →
               registro (ejecutar_pipeline config fastmode)
               = inicio_de_la_carga
                   ++ [MensajeRegistrado "ingesta" (TextoDe e);
                       ErrorRegistrado "ingesta" e;
                       ErrorRegistrado "pipeline" e]
      end
  end.
Proof.
  intros Hperf Hmet. unfold ejecutar_pipeline.
  rewrite (proj2 (registro_con_loggers _ _ _ _ _ Hperf Hmet)).
  unfold cargar_datasets.
  destruct (resolve_routes config) as [e | rutas]; [abrir_registro; reflexivity |].
  abrir_registro.
  destruct (read_tables rutas) as [e | t0]; [abrir_registro; reflexivity |].
  intros e He. abrir_registro. rewrite He. abrir_registro.
  by rewrite (validar_columnas_registro_error t0 e He).
Qed.
End errores_de_la_ingesta.

Lemma ejecutar_pipeline_error_de_ingesta_witness :
  let e := ValueError_faltan_columnas "productos" {[ "categoria"; "precio_unitario" ]} in
  registro (ejecutar_pipeline (H := utils_sin_categoria) tt false)
  = inicio_de_la_carga
      ++ [MensajeRegistrado "ingesta" (TextoDe e); ErrorRegistrado "ingesta" e;
          ErrorRegistrado "pipeline" e].
Proof.
  intros e.
  apply (ejecutar_pipeline_error_de_ingesta (H := utils_sin_categoria) tt false
           eq_refl eq_refl e).
  by vm_compute.
Defined.

(** ** The totals by customer and by product *)

Global Instance rel_de_Zleb_total : Total (rel_de Z.leb).
Proof. intros a b. unfold rel_de. rewrite !Z.leb_le. lia. Qed.

Global Instance rel_de_Zleb_trans : Transitive (rel_de Z.leb).
Proof. intros a b c. unfold rel_de. rewrite !Z.leb_le. lia. Qed.

Lemma StronglySorted_estricto (l : list Z) :
  StronglySorted (rel_de Z.leb) l → NoDup l → StronglySorted Z.lt l.
Proof.
  induction 1 as [| a l Hl IH Ha]; intros Hnd; constructor.
  - apply IH. by apply NoDup_cons in Hnd as [_ ?].
  - apply NoDup_cons in Hnd as [Hno _].
    apply Forall_forall. intros b Hb.
    rewrite Forall_forall in Ha. specialize (Ha b Hb).
    unfold rel_de in Ha. apply Z.leb_le in Ha.
    assert (a ≠ b) by (by intros ->). lia.
Qed.

Lemma clientes_importe_inr df s :
  clientes_importe df = inr s →
  s = groupby_sum Z.leb (λ r, Some (Fact.id_cliente r)) Fact.importe (filas df).
Proof.
  unfold clientes_importe. intros Hs. repeat case_decide; try done.
  by injection Hs as <-.
Qed.

Lemma clientes_importe_suma df s :
  clientes_importe df = inr s →
  (sumQ (snd <$> s) == sumQ (Fact.importe <$> filas df))%Q.
Proof.
  intros Hs. apply clientes_importe_inr in Hs. subst s.
  rewrite groupby_sum_total, filter_todos; [reflexivity |].
  intros r _. by eexists.
Qed.

(** X8. The totals by customer handed to the ABC classification (line 252).
    They exist exactly when the integrated table has the columns of the
    customer and of the amount; without the first the grouping raises, with
    the first and without the second the selection does.  When they exist
    the customers are those of the rows, each once, in ascending order;
    the total of a customer is the sum of the amounts of the customer's
    rows; and the totals add up to the sum of the amounts of all rows. *)
Theorem clientes_importe_correcto (df : DataFrame Fact.fila) :
  ((∃ s, clientes_importe df = inr s)
   ↔ "id_cliente" ∈ columns df ∧ "importe" ∈ columns df)
  ∧ (clientes_importe df = inl (KeyError "id_cliente") ↔ "id_cliente" ∉ columns df)
  ∧ (clientes_importe df = inl (KeyError "importe")
     ↔ "id_cliente" ∈ columns df ∧ "importe" ∉ columns df)
  ∧ ∀ s, clientes_importe df = inr s →
      StronglySorted Z.lt (fst <$> s)
      ∧ (∀ c, c ∈ fst <$> s ↔ c ∈ Fact.id_cliente <$> filas df)
      ∧ (∀ c v, (c, v) ∈ s →
           (v == sumQ (Fact.importe
                         <$> filter (λ r, Fact.id_cliente r = c) (filas df)))%Q)
      ∧ (sumQ (snd <$> s) == sumQ (Fact.importe <$> filas df))%Q.
Proof.
  split_and!.
  - unfold clientes_importe. repeat case_decide; split;
      first [ by intros [s Hs] | by intros [? ?] | eauto ].
  - unfold clientes_importe. repeat case_decide; split; try done.
  - unfold clientes_importe. repeat case_decide; split; try done; by intros [? ?].
  - intros s Hs. pose proof (clientes_importe_suma df s Hs) as Hsuma.
    apply clientes_importe_inr in Hs. subst s. split_and!.
    + apply StronglySorted_estricto; [| apply groupby_sum_NoDup].
      unfold groupby_sum. rewrite fmap_fst_par.
      apply StronglySorted_merge_sort; apply _.
    + intros c. rewrite groupby_sum_claves, elem_of_claves, list_elem_of_fmap.
      split.
      * intros (r & Hr & [= <-]). eauto.
      * intros (r & -> & Hr). eauto.
    + intros c v Hcv. apply elem_of_groupby_sum in Hcv as [_ ->].
      unfold suma_de. apply Qeq_reflexive. do 2 f_equal.
      apply filter_ext_en. intros r _. split; [by intros [= ->] | by intros ->].
    + exact Hsuma.
Qed.

Lemma clientes_importe_correcto_witness :
  clientes_importe completo_dos_medios = inr [(10%Z, 6%Q); (11%Z, 2%Q)]
  ∧ StronglySorted Z.lt [10%Z; 11%Z]
  ∧ (6 + (2 + 0) == sumQ (Fact.importe <$> filas completo_dos_medios))%Q.
Proof.
  destruct (clientes_importe_correcto completo_dos_medios) as (_ & _ & _ & Hs).
  destruct (Hs [(10%Z, 6%Q); (11%Z, 2%Q)]) as (Horden & _ & _ & Htotal).
  - by vm_compute.
  - split_and!; [by vm_compute | exact Horden | exact Htotal].
Defined.

Lemma sumQ_filter_partes {X} (f : X → Q) (P : X → Prop) `{∀ x, Decision (P x)} l :
  (sumQ (f <$> filter P l) + sumQ (f <$> filter (λ x, ¬ P x) l)
   == sumQ (f <$> l))%Q.
Proof.
  induction l as [| x l IH]; [reflexivity |].
  rewrite !filter_cons. destruct (decide (P x)) as [Hp | Hp].
  - rewrite decide_False by tauto. rewrite !fmap_cons, !sumQ_cons, <- IH. ring.
  - rewrite decide_True by done. rewrite !fmap_cons, !sumQ_cons, <- IH. ring.
Qed.

Lemma clave_de_sin_nombre df r :
  columnas_clave df ≠ [] →
  ¬ is_Some (clave_de (columnas_clave df) r)
  ↔ "nombre_producto" ∈ columns df ∧ Fact.nombre_producto r = None.
Proof.
  unfold columnas_clave, clave_de. rewrite !filter_cons, filter_nil.
  destruct (decide ("id_producto" ∈ columns df)) as [Hid | Hid];
    destruct (decide ("nombre_producto" ∈ columns df)) as [Hn | Hn];
    intros Hclaves; try done.
  - rewrite decide_True by (by left). rewrite decide_True by (by right; left).
    destruct (Fact.nombre_producto r) as [n |]; simpl.
    + split; [intros Hno; destruct Hno; by eexists | by intros [_ ?]].
    + split; [done | intros _ [k Hk]; done].
  - rewrite decide_True by (by left).
    rewrite decide_False by (intros Hin; apply list_elem_of_singleton in Hin; done).
    split; [intros Hno; destruct Hno; by eexists | by intros [? _]].
  - rewrite decide_False by (intros Hin; apply list_elem_of_singleton in Hin; done).
    rewrite decide_True by (by left).
    destruct (Fact.nombre_producto r) as [n |]; simpl.
    + split; [intros Hno; destruct Hno; by eexists | by intros [_ ?]].
    + split; [done | intros _ [k Hk]; done].
Qed.

(** X9. The totals by product handed to the ABC classification (line 251)
    leave out the rows without a product name: when the totals by product
    and by customer both exist, the first add up to the second less the
    amounts of the rows whose product name is null.  The totals by product
    do not exist when the table has neither the identifier nor the name of
    the product, which the grouping refuses, or lacks the amount. *)
Theorem productos_importe_total (df : DataFrame Fact.fila) :
  (productos_importe df = inl ValueError_sin_claves
   ↔ ("id_producto" ∉ columns df) ∧ ("nombre_producto" ∉ columns df))
  ∧ (productos_importe df = inl (KeyError "importe")
     ↔ ("id_producto" ∈ columns df ∨ "nombre_producto" ∈ columns df)
       ∧ "importe" ∉ columns df)
  ∧ ∀ sp sc, productos_importe df = inr sp → clientes_importe df = inr sc →
      (sumQ (snd <$> sp)
       + sumQ (Fact.importe
                 <$> filter (λ r, "nombre_producto" ∈ columns df
                                  ∧ Fact.nombre_producto r = None) (filas df))
       == sumQ (snd <$> sc))%Q.
Proof.
  assert (Hclaves : columnas_clave df = []
                    ↔ ("id_producto" ∉ columns df) ∧ ("nombre_producto" ∉ columns df)).
  { unfold columnas_clave. rewrite !filter_cons, filter_nil.
    repeat case_decide; split; try done; by intros [? ?]. }
  split_and!.
  - unfold productos_importe. repeat case_decide; split; try done; tauto.
  - unfold productos_importe.
    destruct (decide (columnas_clave df = [])) as [Hv | Hv].
    + split; [done |]. apply Hclaves in Hv. tauto.
    + assert (Hhay : "id_producto" ∈ columns df ∨ "nombre_producto" ∈ columns df).
      { destruct (decide ("id_producto" ∈ columns df)); [by left |].
        destruct (decide ("nombre_producto" ∈ columns df)); [by right |].
        destruct Hv. by apply Hclaves. }
      case_decide; split; try done; tauto.
  - intros sp sc Hsp Hsc.
    rewrite (clientes_importe_suma df sc Hsc).
    assert (Hv : columnas_clave df ≠ []).
    { intros Hv. unfold productos_importe in Hsp. by rewrite decide_True in Hsp. }
    apply productos_importe_inr in Hsp. subst sp.
    rewrite groupby_sum_total.
    rewrite <- (sumQ_filter_partes Fact.importe
                  (λ r, is_Some (clave_de (columnas_clave df) r)) (filas df)).
    apply Qplus_inj_l. apply Qeq_reflexive. do 2 f_equal.
    apply filter_ext_en. intros r _. symmetry. by apply clave_de_sin_nombre.
Qed.

Lemma productos_importe_total_witness :
  productos_importe completo_con_huerfana = inr [(ClaveIdNombre 1 "Bread", 6%Q)]
  ∧ clientes_importe completo_con_huerfana = inr [(10%Z, 11%Q)]
  ∧ (6 + 0 + sumQ (Fact.importe
                     <$> filter (λ r, "nombre_producto" ∈ columns completo_con_huerfana
                                      ∧ Fact.nombre_producto r = None)
                           (filas completo_con_huerfana))
     == 11 + 0)%Q.
Proof.
  destruct (productos_importe_total completo_con_huerfana) as (_ & _ & Htotal).
  assert (Hsp : productos_importe completo_con_huerfana
                = inr [(ClaveIdNombre 1 "Bread", 6%Q)]) by (by vm_compute).
  assert (Hsc : clientes_importe completo_con_huerfana = inr [(10%Z, 11%Q)])
    by (by vm_compute).
  split_and!; [exact Hsp | exact Hsc | exact (Htotal _ _ Hsp Hsc)].
Defined.

(** ** The latest sales *)

Lemma fecha_leb_spec a b :
  fecha_leb a b = true
  ↔ (anio a < anio b
     ∨ (anio a = anio b ∧ (mes a < mes b ∨ (mes a = mes b ∧ dia a ≤ dia b))))%Z.
Proof.
  unfold fecha_leb.
  rewrite !orb_true_iff, !andb_true_iff, !orb_true_iff, !andb_true_iff,
    !Z.ltb_lt, !Z.eqb_eq, Z.leb_le.
  tauto.
Qed.

Global Instance mas_reciente_total : Total (rel_de mas_reciente).
Proof.
  intros a b. unfold rel_de, mas_reciente. rewrite !fecha_leb_spec. lia.
Qed.

Global Instance mas_reciente_trans : Transitive (rel_de mas_reciente).
Proof.
  intros a b c. unfold rel_de, mas_reciente. rewrite !fecha_leb_spec. lia.
Qed.

Lemma lineas_mostradas_inr cols detalle ls :
  lineas_mostradas cols detalle = inr ls →
  Recientes.importe <$> ls = Detalle.importe <$> detalle.
Proof.
  revert ls. induction detalle as [| r detalle IH]; intros ls; simpl.
  - by intros [= <-].
  - unfold linea_mostrada.
    destruct (columna_ausente cols _); [done |].
    destruct (lineas_mostradas cols detalle) as [e | ls']; [done |].
    intros [= <-]. rewrite fmap_cons. simpl. f_equal. by apply IH.
Qed.

Lemma bloque_de_inr df_detalle v b :
  bloque_de df_detalle v = inr b →
  Recientes.venta b = v
  ∧ Recientes.importe <$> Recientes.lineas b
    = Detalle.importe
        <$> filter (λ r, Detalle.id_venta r = Ventas.id_venta v) (filas df_detalle)
  ∧ Recientes.total b = sumQ (Recientes.importe <$> Recientes.lineas b).
Proof.
  unfold bloque_de. case_decide; [| done].
  destruct (lineas_mostradas _ _) as [e | ls] eqn:Hls; [done |].
  case_decide; [| done]. intros [= <-]. simpl.
  apply lineas_mostradas_inr in Hls. by rewrite Hls.
Qed.

Lemma bloques_de_inr df_detalle ventas bs :
  bloques_de df_detalle ventas = inr bs →
  Recientes.venta <$> bs = ventas
  ∧ Forall (λ b, bloque_de df_detalle (Recientes.venta b) = inr b) bs.
Proof.
  revert bs. induction ventas as [| v ventas IH]; intros bs; simpl.
  - by intros [= <-].
  - destruct (bloque_de df_detalle v) as [e | b] eqn:Hb; [done |].
    destruct (bloques_de df_detalle ventas) as [e | bs']; [done |].
    intros [= <-]. destruct (IH bs' eq_refl) as [Hvs Hbs].
    pose proof (bloque_de_inr _ _ _ Hb) as [Hv _].
    rewrite fmap_cons, Hvs, Hv. split; [done |].
    constructor; [by rewrite Hv | done].
Qed.

Lemma bloques_de_total df_detalle bs :
  Forall (λ b, bloque_de df_detalle (Recientes.venta b) = inr b) bs →
  Recientes.total <$> bs
  = suma_de (λ r, Some (Detalle.id_venta r)) Detalle.importe (filas df_detalle)
      <$> (Ventas.id_venta <$> (Recientes.venta <$> bs)).
Proof.
  induction 1 as [| b bs Hb _ IH]; [done |].
  rewrite !fmap_cons, IH. f_equal.
  apply bloque_de_inr in Hb as (_ & Hls & ->). rewrite Hls.
  unfold suma_de. do 2 f_equal.
  apply filter_ext_en. intros r _. split; [by intros -> | by intros [= ->]].
Qed.

Lemma columna_ausente_ninguna cols pedidas :
  (∀ c, c ∈ pedidas → c ∈ cols) → columna_ausente cols pedidas = None.
Proof.
  intros Hcols. unfold columna_ausente. rewrite filter_ninguno; [done |].
  intros c Hc Hno. by apply Hno, Hcols.
Qed.

Lemma lineas_mostradas_vuelve cols detalle :
  columna_ausente cols ["cantidad"; "precio_unitario"; "importe"] = None →
  ∃ ls, lineas_mostradas cols detalle = inr ls.
Proof.
  intros Hcols. induction detalle as [| r detalle [ls IH]]; simpl; [by eexists |].
  unfold linea_mostrada. rewrite Hcols, IH. by eexists.
Qed.

Lemma bloques_de_vuelve df_detalle ventas :
  (∀ c, c ∈ ["id_venta"; "cantidad"; "precio_unitario"; "importe"] →
        c ∈ columns df_detalle) →
  ∃ bs, bloques_de df_detalle ventas = inr bs.
Proof.
  intros Hcols. induction ventas as [| v ventas [bs IH]]; simpl; [by eexists |].
  unfold bloque_de. rewrite decide_True
    by (apply Hcols; repeat first [apply list_elem_of_here | apply list_elem_of_further]).
  edestruct (lineas_mostradas_vuelve (columns df_detalle)) as [ls ->].
  { apply columna_ausente_ninguna. intros c Hc. by apply Hcols, list_elem_of_further. }
  rewrite decide_True
    by (apply Hcols; repeat first [apply list_elem_of_here | apply list_elem_of_further]). rewrite IH. by eexists.
Qed.

(** X10. What [mostrar_registros_recientes] shows.  With the columns it
    reads in the two tables it returns.  Whenever it returns it has shown
    [n] sales, or all of them when there are fewer, the latest first, and no
    sale left out is later than one that is shown; under each sale come the
    amounts of the detail lines of that sale, in the order of the table, and
    their sum as the total.  When all sales are shown and no two sales have
    the same identifier, the totals add up to the amounts of the detail
    lines that belong to some sale. *)
Theorem mostrar_registros_recientes_correcto
    (df_ventas : DataFrame (Ventas.fila Fecha))
    (df_detalle : DataFrame (Detalle.fila Q)) (n : Z) :
  ((∀ c, c ∈ ["id_venta"; "fecha"; "id_cliente"; "medio_pago"] →
         c ∈ columns df_ventas) →
   (∀ c, c ∈ ["id_venta"; "cantidad"; "precio_unitario"; "importe"] →
         c ∈ columns df_detalle) →
   ∃ bs, mostrar_registros_recientes df_ventas df_detalle n = inr bs)
  ∧ ∀ bs, mostrar_registros_recientes df_ventas df_detalle n = inr bs →
      let ventas := Recientes.venta <$> bs in
      length bs = (Z.to_nat n `min` length (filas df_ventas))%nat
      ∧ StronglySorted (rel_de mas_reciente) ventas
      ∧ (∃ resto, filas df_ventas ≡ₚ ventas ++ resto
                  ∧ ∀ v r, v ∈ ventas → r ∈ resto →
                           fecha_leb (Ventas.fecha r) (Ventas.fecha v) = true)
      ∧ (∀ b, b ∈ bs →
           Recientes.importe <$> Recientes.lineas b
           = Detalle.importe
               <$> filter (λ r, Detalle.id_venta r
                                = Ventas.id_venta (Recientes.venta b))
                     (filas df_detalle)
           ∧ Recientes.total b = sumQ (Recientes.importe <$> Recientes.lineas b))
      ∧ ((length (filas df_ventas) ≤ Z.to_nat n)%nat →
         NoDup (Ventas.id_venta <$> filas df_ventas) →
         (sumQ (Recientes.total <$> bs)
          == sumQ (Detalle.importe
                     <$> filter (λ r, Detalle.id_venta r
                                      ∈ Ventas.id_venta <$> filas df_ventas)
                           (filas df_detalle)))%Q).
Proof.
  split.
  - intros Hv Hd. unfold mostrar_registros_recientes, ventas_recientes.
    rewrite decide_True
      by (apply Hv; repeat first [apply list_elem_of_here | apply list_elem_of_further]).
    rewrite columna_ausente_ninguna by done. by apply bloques_de_vuelve.
  - intros bs. unfold mostrar_registros_recientes, ventas_recientes.
    case_decide; [| done]. destruct (columna_ausente _ _); [done |].
    intros Hbs. cbv zeta. set (ventas := Recientes.venta <$> bs).
    apply bloques_de_inr in Hbs as [Hventas Hbs]. fold ventas in Hventas.
    pose proof (ordenar_Permutation mas_reciente (filas df_ventas)) as Hperm.
    assert (Hord : StronglySorted (rel_de mas_reciente)
                     (ordenar mas_reciente (filas df_ventas)))
      by (apply StronglySorted_merge_sort; apply _).
    set (ord := ordenar mas_reciente (filas df_ventas)) in *.
    assert (Hlen : length ord = length (filas df_ventas))
      by (by apply Permutation_length).
    rewrite <- (take_drop (Z.to_nat n) ord) in Hord, Hperm.
    rewrite <- Hventas in Hord, Hperm.
    split_and!.
    + rewrite <- (length_fmap Recientes.venta). fold ventas.
      by rewrite Hventas, length_take, Hlen.
    + by apply StronglySorted_app_1_l in Hord.
    + exists (drop (Z.to_nat n) ord). split; [done |].
      intros v r Hv Hr.
      by apply (StronglySorted_app_1_elem_of _ _ _ _ _ Hord).
    + intros b Hb. rewrite Forall_forall in Hbs.
      by destruct (bloque_de_inr _ _ _ (Hbs b Hb)) as (_ & ? & ?).
    + intros Htodas Hnd. rewrite drop_ge, app_nil_r in Hperm by lia.
      rewrite (bloques_de_total _ _ Hbs). fold ventas.
      rewrite sumQ_suma_de by (by rewrite Hperm).
      apply Qeq_reflexive. do 2 f_equal. apply filter_ext_en. intros r _.
      rewrite Hperm. split.
      * intros Hin. by apply list_elem_of_fmap in Hin as (k & [= ->] & Hk).
      * intros Hk. apply list_elem_of_fmap. eauto.
Qed.

Lemma mostrar_registros_recientes_correcto_witness :
  ∃ b1 b2,
    mostrar_registros_recientes ventas_limpias_ejemplo detalle_limpio_ejemplo 10
    = inr [b1; b2]
    ∧ Ventas.id_venta (Recientes.venta b1) = 101%Z
    ∧ (sumQ [Recientes.total b1; Recientes.total b2] == 100)%Q.
Proof.
  destruct (mostrar_registros_recientes_correcto ventas_limpias_ejemplo
              detalle_limpio_ejemplo 10) as [_ Hbs].
  destruct (mostrar_registros_recientes ventas_limpias_ejemplo
              detalle_limpio_ejemplo 10) as [e | bs] eqn:Hm;
    [vm_compute in Hm; discriminate |].
  destruct (Hbs bs eq_refl) as (_ & _ & _ & _ & Htotal).
  vm_compute in Hm. injection Hm as <-.
  do 2 eexists. split_and!; [reflexivity | reflexivity |].
  etransitivity; [apply Htotal; [simpl; lia | por_calculo] |]. by vm_compute.
Defined.

(** ** The menu *)

(** A turn of the loop reads one answer, or two. *)
Lemma entradas_ind (P : list string → Prop) :
  P [] →
  (∀ opcion resto,
     P resto → (∀ n resto', resto = n :: resto' → P resto') → P (opcion :: resto)) →
  ∀ entradas, P entradas.
Proof.
  intros Hnil Hcons entradas.
  cut (P entradas ∧ ∀ n resto', entradas = n :: resto' → P resto');
    [by intros [? _] |].
  induction entradas as [| opcion resto [IH1 IH2]].
  - split; [done | by intros n resto' ?].
  - split; [by apply Hcons |]. by intros n resto' [= _ <-].
Qed.

Lemma fst_seguir turno r : fst (seguir turno r) = turno ++ fst r.
Proof. reflexivity. Qed.

Lemma snd_seguir turno r : snd (seguir turno r) = snd r.
Proof. reflexivity. Qed.

(** The cases of a turn of the loop. *)
Ltac abrir_menu :=
  cbn [menu_bucle];
  repeat first
    [ case_decide
    | match goal with
      | |- context [match ?x with _ => _ end] => destruct x eqn:?
      end ];
  rewrite ?fst_seguir, ?snd_seguir; cbn [fst snd].

Section menu.
Context `{PipelineUtils} `{Consola}.

Lemma menu_bucle_muestra config c entradas st :
  salida (ejecutar_pipeline config false) = inr c →
  resultados_de c st →
  Forall (muestra_de c) (fst (menu_bucle config st entradas)).
Proof.
  intros Hc. revert st.
  induction entradas as [| opcion resto IH IH'] using entradas_ind; intros st Hst.
  - by repeat constructor.
  - cbn [menu_bucle]. rewrite ?Hc. abrir_menu.
    all: repeat match goal with
                | |- Forall _ (_ :: _) => constructor
                | |- Forall _ (_ ++ _) => apply Forall_app; split
                | |- Forall _ [] => constructor
                end.
    all: try (by simpl).
    all: try (destruct Hst as (Hm & Hv & Hd); simpl; by auto).
    all: try (by apply IH).
    all: try (by eapply IH').
    apply IH. split_and!; by intros ? [= <-].
Qed.

Lemma menu_bucle_sin_muestra config e entradas st :
  salida (ejecutar_pipeline config false) = inl e →
  sin_resultados st →
  Forall (λ p, es_muestra p = false) (fst (menu_bucle config st entradas)).
Proof.
  intros He. revert st.
  induction entradas as [| opcion resto IH IH'] using entradas_ind; intros st Hst.
  - by repeat constructor.
  - cbn [menu_bucle]. rewrite ?He. abrir_menu.
    all: try (destruct Hst as (Hm & [Hv | Hd]); congruence).
    all: repeat match goal with
                | |- Forall _ (_ :: _) => constructor
                | |- Forall _ (_ ++ _) => apply Forall_app; split
                | |- Forall _ [] => constructor
                end.
    all: try done.
    all: by apply IH.
Qed.

Lemma protegido_app hay l1 l2 :
  protegido hay (l1 ++ l2)
  ↔ protegido hay l1 ∧ protegido (hay || existsb es_correcto l1) l2.
Proof.
  revert hay. induction l1 as [| p l1 IH]; intros hay; simpl.
  - rewrite orb_false_r. tauto.
  - rewrite IH, orb_assoc. tauto.
Qed.

Lemma protegido_antes hay l pre p post :
  protegido hay l → l = pre ++ p :: post → es_muestra p = true →
  hay = true ∨ PipelineCorrecto ∈ pre.
Proof.
  intros Hl -> Hp. apply protegido_app in Hl as [_ Hl]. simpl in Hl.
  destruct Hl as [Hl _]. specialize (Hl Hp).
  apply orb_true_iff in Hl as [? | Hl]; [by left | right].
  apply existsb_exists in Hl as (q & Hq & Hcorrecto).
  destruct q; try done. by apply list_elem_of_In.
Qed.

Lemma menu_bucle_protegido config entradas st hay :
  (hay = false → sin_resultados st) →
  protegido hay (fst (menu_bucle config st entradas)).
Proof.
  revert st hay.
  induction entradas as [| opcion resto IH IH'] using entradas_ind; intros st hay Hst.
  - simpl. split; [done | done].
  - abrir_menu.
    all: repeat match goal with
                | |- protegido _ (_ ++ _) => apply protegido_app; split
                end.
    all: simpl; rewrite ?orb_false_r, ?orb_true_r.
    all: repeat match goal with
                | |- _ ∧ _ => split
                | |- True => exact I
                | |- false = true → _ => by intros ?
                end.
    all: try (apply IH; first [ done | by intros ? ]).
    all: try (eapply IH'; [done |]; first [ done | by intros ? ]).
    all: try (intros _; destruct hay; [done |];
              destruct (Hst eq_refl) as [? [? | ?]]; congruence).
Qed.

(** X11. The menu shows results only after a run of the pipeline has
    returned, and then those of the pipeline.  Whatever is typed in: no
    screen with metrics, recent sales or the report comes before the screen
    of a run that returned; the metrics shown and reported are those the
    pipeline returns, and the sales and the detail lines shown are its
    cleaned tables; and when the pipeline raises, no such screen comes up at
    all, however often the run is asked for. *)
Theorem menu_interactivo_muestra (config : Config) (entradas : list string) :
  let sesion := fst (menu_interactivo config entradas) in
  (∀ pre p post, sesion = pre ++ p :: post → es_muestra p = true →
                 PipelineCorrecto ∈ pre)
  ∧ match salida (ejecutar_pipeline config false) with
    | inr c => Forall (muestra_de c) sesion
    | inl _ => Forall (λ p, es_muestra p = false) sesion
    end.
Proof.
  intros sesion. split.
  - intros pre p post Hsesion Hp.
    destruct (protegido_antes false sesion pre p post) as [? | ?]; try done.
    apply menu_bucle_protegido. intros _. split; [done | by left].
  - unfold sesion, menu_interactivo.
    destruct (salida (ejecutar_pipeline config false)) as [e | c] eqn:Hc.
    + apply (menu_bucle_sin_muestra config e); [done |]. split; [done | by left].
    + apply (menu_bucle_muestra config c); [done |]. by split_and!.
Qed.
End menu.
Lemma menu_interactivo_muestra_witness :
  let sesion :=
    fst (menu_interactivo (H := utils_ejemplo) (H0 := consola_ejemplo) tt
           ["2"; "1"; "2"; "0"]) in
  es_muestra <$> sesion
  = [false; false; false; false; false; false; true; false; false]
  ∧ PipelineCorrecto ∈ take 6 sesion.
Proof.
  intros sesion.
  destruct (menu_interactivo_muestra (H := utils_ejemplo) (H0 := consola_ejemplo) tt
              ["2"; "1"; "2"; "0"]) as [Hantes _].
  fold sesion in Hantes.
  split; [by vm_compute |].
  destruct (sesion !! 6%nat) as [p |] eqn:Hp; [| vm_compute in Hp; discriminate].
  apply (Hantes (take 6 sesion) p (drop 7 sesion)).
  - by rewrite (take_drop_middle sesion 6 p Hp).
  - vm_compute in Hp. by injection Hp as <-.
Defined.

Section fin_del_menu.
Context `{PipelineUtils} `{Consola}.

Lemma menu_bucle_despedida config entradas st :
  (snd (menu_bucle config st entradas) = inr tt
   ↔ last (fst (menu_bucle config st entradas)) = Some Despedida)
  ∧ (snd (menu_bucle config st entradas) = inr tt → "0" ∈ entradas).
Proof.
  revert st.
  induction entradas as [| opcion resto IH IH'] using entradas_ind; intros st.
  - simpl. split; [by split | done].
  - assert (Hhay : ∀ st l, fst (menu_bucle config st l) ≠ []).
    { intros st' [| o l]; [done |]. abrir_menu; done. }
    assert (Hultimo : ∀ turno st l,
              last (turno ++ fst (menu_bucle config st l))
              = last (fst (menu_bucle config st l))).
    { intros turno st' l. specialize (Hhay st' l).
      destruct (fst (menu_bucle config st' l)) as [| p ps] eqn:Hps; [done |].
      by rewrite last_app_cons. }
    abrir_menu; rewrite ?Hultimo.
    all: try (split; [by split | done]).
    all: try (destruct (IH st) as [IH1 IH2]; split;
              [exact IH1 | intros Hv; right; by apply IH2]).
    all: try (edestruct (IH' _ _ eq_refl st) as [IH1 IH2]; split;
              [exact IH1 | intros Hv; do 2 right; by apply IH2]).
    + match goal with
      | |- context [menu_bucle config ?st' resto] =>
          destruct (IH st') as [IH1 IH2]
      end.
      split; [exact IH1 | intros Hv; right; by apply IH2].
    + split; [by split |]. intros _. subst opcion. by left.
Qed.

Lemma menu_bucle_excepcion config entradas st e :
  estado_acorde config st →
  snd (menu_bucle config st entradas) = inl e →
  e = EOFError
  ∨ (∃ n, isdigit n = true ∧ int n = inl e)
  ∨ (∃ c, salida (ejecutar_pipeline config false) = inr c
          ∧ (mostrar_metricas_consola (fst c) = inl e
             ∨ ∃ k, mostrar_registros_recientes (df_ventas (snd c))
                      (df_detalle (snd c)) k = inl e)).
Proof.
  revert st.
  induction entradas as [| opcion resto IH IH'] using entradas_ind; intros st Hst.
  - intros [= <-]. by left.
  - abrir_menu.
    all: try (by apply IH).
    all: try (by eapply IH').
    all: try (intros [= <-]; by left).
    all: try done.
    + apply IH. unfold estado_acorde.
      match goal with Hc : salida _ = inr _ |- _ => rewrite Hc end.
      split_and!; by intros ? [= <-].
    + intros [= <-]. do 2 right. unfold estado_acorde in Hst.
      destruct (salida (ejecutar_pipeline config false)) as [e' | c].
      * destruct Hst as [? _]. congruence.
      * exists c. split; [done |]. left. destruct Hst as (Hm & _).
        by rewrite <- (Hm m).
    + unfold cuantos in *. intros [= <-]. right. left.
      match goal with
      | Hn : (if isdigit ?n then _ else _) = inl _ |- _ =>
          exists n; by destruct (isdigit n)
      end.
    + intros [= <-]. do 2 right. unfold estado_acorde in Hst.
      destruct (salida (ejecutar_pipeline config false)) as [e' | c].
      * destruct Hst as [_ [? | ?]]; congruence.
      * exists c. split; [done |]. right. destruct Hst as (_ & Hv & Hd).
        match goal with
        | Hr : mostrar_registros_recientes ?v ?d ?k = inl _ |- _ =>
            exists k; by rewrite <- (Hv v), <- (Hd d)
        end.
Qed.

(** X12. How a session of the menu ends.  The menu returns exactly when the
    last screen is the farewell, and only if a 0 was typed in.  An
    exception that leaves the menu is the end of the input, one of [int],
    or one raised while the metrics or the recent sales of the pipeline's
    results were being shown: what the pipeline itself raises, what the
    report raises and what reading the performance log raises stay
    inside. *)
Theorem menu_interactivo_salida (config : Config) (entradas : list string) :
  let sesion := menu_interactivo config entradas in
  (snd sesion = inr tt ↔ last (fst sesion) = Some Despedida)
  ∧ (snd sesion = inr tt → "0" ∈ entradas)
  ∧ ∀ e, snd sesion = inl e →
      e = EOFError
      ∨ (∃ n, isdigit n = true ∧ int n = inl e)
      ∨ (∃ c, salida (ejecutar_pipeline config false) = inr c
              ∧ (mostrar_metricas_consola (fst c) = inl e
                 ∨ ∃ k, mostrar_registros_recientes (df_ventas (snd c))
                          (df_detalle (snd c)) k = inl e)).
Proof.
  intros sesion. unfold sesion, menu_interactivo. split_and!.
  - apply menu_bucle_despedida.
  - apply menu_bucle_despedida.
  - intros e. apply menu_bucle_excepcion. unfold estado_acorde.
    destruct (salida (ejecutar_pipeline config false)).
    + split; [done | by left].
    + by split_and!.
Qed.
End fin_del_menu.

Lemma menu_interactivo_salida_witness :
  snd (menu_interactivo (H := utils_disco_lleno) (H0 := consola_ejemplo) tt
         ["1"; "5"; "3"])
  = inl EOFError
  ∧ "0" ∈ ["1"; "0"].
Proof.
  destruct (menu_interactivo_salida (H := utils_disco_lleno) (H0 := consola_ejemplo)
              tt ["1"; "0"]) as (_ & Hcero & _).
  split; [by vm_compute |]. apply Hcero. by vm_compute.
Defined.

(** ** [main] *)

Lemma version_menor_spec v :
  version_menor v (3, 11)%Z = true ↔ (fst v < 3 ∨ (fst v = 3 ∧ snd v < 11))%Z.
Proof.
  unfold version_menor. cbn [fst snd].
  rewrite orb_true_iff, andb_true_iff, !Z.ltb_lt, Z.eqb_eq. tauto.
Qed.

Lemma elem_of_registro_de_sesion sesion ev :
  ev ∈ registro_de_sesion sesion
  ↔ ∃ log, PipelineEjecutado log ∈ sesion ∧ ev ∈ log.
Proof.
  unfold registro_de_sesion. rewrite list_elem_of_bind. split.
  - intros (p & Hev & Hp). destruct p; try (by apply elem_of_nil in Hev). eauto.
  - intros (log & Hlog & Hev). by exists (PipelineEjecutado log).
Qed.

Section main.
Context `{PipelineUtils} `{Consola} `{!Arranque}.

(** The menu runs the pipeline in full mode. *)
Lemma menu_bucle_corridas config entradas st log :
  PipelineEjecutado log ∈ fst (menu_bucle config st entradas) →
  log = registro (ejecutar_pipeline config false).
Proof.
  revert st.
  induction entradas as [| opcion resto IH IH'] using entradas_ind; intros st.
  - simpl. intros Hin. apply list_elem_of_singleton in Hin. done.
  - abrir_menu.
    all: rewrite ?elem_of_app, ?elem_of_cons, ?elem_of_nil.
    all: intros Hin.
    all: repeat match goal with
                | Hx : _ ∨ _ |- _ => destruct Hx as [Hx | Hx]
                end.
    all: try done.
    all: try match goal with
             | Hx : PipelineEjecutado _ = PipelineEjecutado _ |- _ =>
                 exact (f_equal registro_de_pantalla Hx)
             end.
    all: try (by eapply IH).
    all: try (by eapply IH').
Qed.

Lemma elem_of_despachar config args entradas ev :
  ev ∈ registro (despachar config args entradas) →
  ev ∈ registro (ejecutar_pipeline config (modo args)).
Proof.
  unfold despachar, modo.
  destruct (decide (Args.run args = Some "full")) as [Hfull | Hfull];
    [| destruct (decide (Args.run args = Some "fastmode")) as [Hfast | Hfast]].
  - rewrite bool_decide_eq_false_2 by congruence.
    rewrite registro_bind. destruct (salida _); [done |].
    rewrite registro_mret, app_nil_r. done.
  - rewrite bool_decide_eq_true_2 by done.
    rewrite registro_bind. destruct (salida _); [done |].
    rewrite registro_mret, app_nil_r. done.
  - rewrite bool_decide_eq_false_2 by done.
    unfold registro at 1. cbn [fst]. intros Hev.
    apply elem_of_registro_de_sesion in Hev as (log & Hlog & Hev).
    by rewrite <- (menu_bucle_corridas _ _ _ _ Hlog).
Qed.

(** What the body of [main] logs. *)
Lemma elem_of_cuerpo_de_main args entradas ev :
  ev ∈ registro (cuerpo_de_main args entradas) →
  ev = Info "config_loaded" ∨ ev = Info "env_detected"
  ∨ (∃ texto, ev = MensajeRegistrado "configuración" texto)
  ∨ ∃ config, load_config = inr config
              ∧ ev ∈ registro (ejecutar_pipeline config (modo args)).
Proof.
  unfold cuerpo_de_main, cargar_configuracion, manejar_mensaje.
  destruct load_config as [e | config] eqn:Hconfig.
  - repeat case_match; abrir_registro.
    + intros Hev. apply list_elem_of_singleton in Hev. do 2 right. left. eauto.
    + intros Hev. apply list_elem_of_singleton in Hev. do 2 right. left. eauto.
    + unfold raise, registro. cbn [fst]. intros Hev. by apply elem_of_nil in Hev.
  - abrir_registro. destruct (mostrar_resumen_proyecto config) as [e | []].
    + intros Hev. apply list_elem_of_singleton in Hev. by left.
    + abrir_registro. intros Hev.
      apply elem_of_cons in Hev as [-> | Hev]; [by left |].
      apply elem_of_cons in Hev as [-> | Hev]; [by right; left |].
      do 3 right. exists config. split; [done |]. by apply elem_of_despachar in Hev.
Qed.

Lemma main_sin_registro_propio args entradas e :
  ErrorRegistrado "main" e ∉ registro (cuerpo_de_main args entradas).
Proof.
  intros Hev.
  apply elem_of_cuerpo_de_main in Hev as [? | [? | [[texto ?] | (config & _ & Hev)]]];
    try done.
  destruct (errores_propios_ejecutar_pipeline config (modo args) _ Hev eq_refl)
    as (e0 & _ & donde & Hd & [Heq | Heq]); [| done].
  injection Heq as <- _. revert Hd. por_calculo.
Qed.

(** X13. How [main] ends.  The first thing it does is to call
    [colorama_init] with a keyword, which raises when [colorama] is not
    there.  After that it leaves with status 1 exactly when the interpreter
    is older than 3.11, and with status 0 exactly when, on a recent
    interpreter with the logger set up, help was asked for; the exceptions
    it lets through are those of [colorama_init] and of the set-up of the
    logger; in these cases nothing has been logged.  Otherwise it returns,
    whatever the configuration, the overview, the pipeline or the menu have
    raised: the log ends with the closing line, and it holds an error record
    of [main] exactly for the exception that came out of the body, written
    right before the closing line. *)
Theorem main_final (args : Args.t) (entradas : list string) :
  let r := main args entradas in
  let cuerpo := cuerpo_de_main args entradas in
  (colorama = None → r = ([], Propaga (TypeError "autoreset")))
  ∧ (snd r = SystemExit 1
     ↔ (∃ u, colorama_init = inr u)
       ∧ (fst version_info < 3 ∨ (fst version_info = 3 ∧ snd version_info < 11))%Z)
  ∧ (snd r = SystemExit 0
     ↔ (∃ u, colorama_init = inr u)
       ∧ version_menor version_info (3, 11)%Z = false
       ∧ (∃ u, configurar_logging = inr u) ∧ Args.help args = true)
  ∧ (∀ codigo, snd r = SystemExit codigo → codigo = 0%Z ∨ codigo = 1%Z)
  ∧ (∀ e, snd r = Propaga e
          ↔ colorama_init = inl e
            ∨ ((∃ u, colorama_init = inr u)
               ∧ version_menor version_info (3, 11)%Z = false
               ∧ configurar_logging = inl e))
  ∧ (snd r ≠ Termina → fst r = [])
  ∧ (snd r = Termina →
     last (fst r) = Some (Info "cerrando")
     ∧ (∀ e, ErrorRegistrado "main" e ∈ fst r ↔ salida cuerpo = inl e)
     ∧ (∀ e, salida cuerpo = inl e →
             fst r = registro cuerpo ++ [ErrorRegistrado "main" e; Info "cerrando"])
     ∧ (∀ u, salida cuerpo = inr u → fst r = registro cuerpo ++ [Info "cerrando"])).
Proof.
  intros r cuerpo. unfold r, main. rewrite <- version_menor_spec.
  split; [by unfold colorama_init; intros -> |].
  destruct colorama_init as [e00 | u00] eqn:Hcolorama.
  { cbn [fst snd]. split_and!; try done.
    - split; [done | by intros ([u ?] & _)].
    - split; [done | by intros ([u ?] & _)].
    - intros e. split; [intros [= ->]; by left |].
      intros [[= ->] | ([u ?] & _)]; done. }
  destruct (version_menor version_info (3, 11)%Z) eqn:Hversion.
  { cbn [fst snd]. split_and!; try done.
    - split; [eauto | done].
    - split; [done | by intros (_ & ? & _)].
    - intros codigo [= <-]. by right.
    - intros e. split; [done | by intros [? | (_ & ? & _)]]. }
  destruct configurar_logging as [e0 | u0] eqn:Hlog.
  { cbn [fst snd]. split_and!; try done.
    - split; [done | by intros [_ ?]].
    - split; [done | by intros (_ & _ & [u ?] & _)].
    - intros e. split; [intros [= ->]; right; eauto |].
      intros [? | (_ & _ & [= ->])]; done. }
  destruct (Args.help args) eqn:Hhelp.
  { cbn [fst snd]. split_and!; try done.
    - split; [done | by intros [_ ?]].
    - split; [| done]. intros _. split_and!; eauto.
    - intros codigo [= <-]. by left.
    - intros e. split; [done | by intros [? | (_ & _ & ?)]]. }
  cbn [fst snd]. fold cuerpo. split_and!; try done.
  - split; [done | by intros [_ ?]].
  - split; [done | by intros (_ & _ & _ & ?)].
  - intros e. split; [done | by intros [? | (_ & _ & ?)]].
  - intros _. split_and!.
    + by rewrite !app_assoc, last_snoc.
    + intros e. rewrite !elem_of_app. split.
      * intros [Hev | [Hev | Hev]].
        -- by apply main_sin_registro_propio in Hev.
        -- destruct (salida cuerpo) as [e' | u]; [| by apply elem_of_nil in Hev].
           apply list_elem_of_singleton in Hev. by injection Hev as ->.
        -- by apply list_elem_of_singleton in Hev.
      * intros ->. right. left. by apply list_elem_of_singleton.
    + by intros e ->.
    + by intros u ->.
Qed.

(** X14. The pipeline under [--run].  With [colorama], the interpreter, the
    logger, the configuration and the overview in order and [--run full] or
    [--run fastmode] on the command line, [main] runs the pipeline once, in
    that mode, between the notice of the environment and the closing line,
    and returns whether or not the run raises.  An exception of the run is
    recorded by [main], and before that by [ejecutar_pipeline] when the
    loggers of the run are set up; in fast mode the log never shows the
    export stage. *)
Theorem main_run (args : Args.t) (entradas : list string) (config : Config)
    (fastmode : bool) :
  colorama_init = inr tt →
  version_menor version_info (3, 11)%Z = false →
  configurar_logging = inr tt →
  Args.help args = false →
  load_config = inr config →
  mostrar_resumen_proyecto config = inr tt →
  Args.run args = Some (if fastmode then "fastmode" else "full") →
  let corrida := ejecutar_pipeline config fastmode in
  main args entradas
  = ([Info "config_loaded"; Info "env_detected"] ++ registro corrida
       ++ match salida corrida with
          | inl e => [ErrorRegistrado "main" e]
          | inr _ => []
          end
       ++ [Info "cerrando"], Termina)
  ∧ (∀ e, salida corrida = inl e →
          ErrorRegistrado "main" e ∈ fst (main args entradas)
          ∧ (configurar_performance_logger = inr tt →
             configure_metrics_logger = inr tt →
             ErrorRegistrado "pipeline" e ∈ fst (main args entradas)))
  ∧ (fastmode = true → Inicio EtExportacion ∉ fst (main args entradas)).
Proof.
  intros Hcolorama Hversion Hlog Hhelp Hconfig Hresumen Hrun corrida.
  assert (Hmain : main args entradas
    = ([Info "config_loaded"; Info "env_detected"] ++ registro corrida
         ++ match salida corrida with
            | inl e => [ErrorRegistrado "main" e]
            | inr _ => []
            end
         ++ [Info "cerrando"], Termina)).
  { unfold main. rewrite Hcolorama, Hversion, Hlog, Hhelp.
    unfold cuerpo_de_main, cargar_configuracion, despachar.
    rewrite Hconfig, Hrun. abrir_registro. rewrite Hresumen. abrir_registro.
    fold corrida.
    destruct fastmode; repeat case_decide; try done; fold corrida;
      abrir_registro; destruct (salida corrida);
      abrir_registro; by rewrite <- ?app_assoc, ?app_nil_r. }
  split_and!.
  - exact Hmain.
  - intros e He. rewrite Hmain, He. cbn [fst]. split.
    + apply elem_of_app. right. apply elem_of_app. right. by left.
    + intros Hperf Hmet.
      apply elem_of_app. right. apply elem_of_app. left.
      apply (ultimo_ejecutar_pipeline config fastmode e (conj Hperf Hmet)) in He.
      apply last_Some in He as [pre Hpre]. unfold corrida. rewrite Hpre.
      apply elem_of_app. right.
      by apply list_elem_of_singleton.
  - intros ->. rewrite Hmain. cbn [fst]. rewrite !elem_of_app.
    intros [Hev | [Hev | [Hev | Hev]]].
    + revert Hev. por_calculo.
    + by apply ejecutar_pipeline_sin_exportar in Hev.
    + destruct (salida corrida); [| by apply elem_of_nil in Hev].
      by apply list_elem_of_singleton in Hev.
    + by apply list_elem_of_singleton in Hev.
Qed.
End main.

Lemma main_final_witness :
  let arranque := arranque_ejemplo utils_disco_lleno tt in
  let args := {| Args.run := Some "full"; Args.help := false |} in
  snd (main (H := utils_disco_lleno) (H0 := consola_ejemplo) (H1 := arranque)
         args []) = Termina
  ∧ last (fst (main (H := utils_disco_lleno) (H0 := consola_ejemplo)
                 (H1 := arranque) args []))
    = Some (Info "cerrando")
  ∧ ErrorRegistrado "main" (ErrorExterno "exportación" "disco lleno")
    ∈ fst (main (H := utils_disco_lleno) (H0 := consola_ejemplo)
             (H1 := arranque) args []).
Proof.
  intros arranque args.
  destruct (main_final (H := utils_disco_lleno) (H0 := consola_ejemplo)
              (H1 := arranque) args []) as (_ & _ & _ & _ & _ & _ & Htermina).
  assert (Hfin : snd (main (H := utils_disco_lleno) (H0 := consola_ejemplo)
                        (H1 := arranque) args []) = Termina)
    by (by vm_compute).
  destruct (Htermina Hfin) as (Hultimo & Hmain & _).
  split_and!; [exact Hfin | exact Hultimo |].
  apply Hmain. by vm_compute.
Defined.

(** Without [colorama] the program stops at its first line. *)
Example main_sin_colorama :
  main (H := utils_ejemplo) (H0 := consola_ejemplo)
    (H1 := arranque_sin_colorama utils_ejemplo tt)
    {| Args.run := Some "full"; Args.help := false |} []
  = ([], Propaga (TypeError "autoreset")).
Proof. reflexivity. Qed.

Lemma main_run_witness :
  let arranque := arranque_ejemplo utils_ejemplo tt in
  let args := {| Args.run := Some "fastmode"; Args.help := false |} in
  snd (main (H := utils_ejemplo) (H0 := consola_ejemplo) (H1 := arranque)
         args []) = Termina
  ∧ Inicio EtExportacion
    ∉ fst (main (H := utils_ejemplo) (H0 := consola_ejemplo) (H1 := arranque)
             args []).
Proof.
  intros arranque args.
  pose proof (main_run (H := utils_ejemplo) (H0 := consola_ejemplo)
                (H1 := arranque) args [] tt true
                eq_refl eq_refl eq_refl eq_refl eq_refl eq_refl eq_refl)
    as (Hmain & _ & Hrapida).
  split; [| by apply Hrapida].
  exact (f_equal snd Hmain).
Defined.

(** ** What the ingestion returns *)

Section carga.
Context `{PipelineUtils}.

Lemma cargar_datasets_inr config t :
  salida (cargar_datasets config) = inr t →
  ∃ rutas t0,
    resolve_routes config = inr rutas ∧ read_tables rutas = inr t0
    ∧ salida (validar_columnas t0) = inr tt
    ∧ salida (agregar_nombre_producto t0) = inr t.
Proof.
  unfold cargar_datasets. recorrer; try done.
  all: intros [= <-].
  all: repeat match goal with u : unit |- _ => destruct u end.
  all: by do 2 eexists.
Qed.
End carga.

Lemma filter_fst_unico {X} (k : Z) (l : list (Z * X)) :
  NoDup (fst <$> l) → (length (filter (λ p, fst p = k) l) ≤ 1)%nat.
Proof.
  induction l as [| [k' x] l IH]; [simpl; lia |].
  rewrite fmap_cons. intros [Hno Hnd]%NoDup_cons. rewrite filter_cons. simpl.
  destruct (decide (k' = k)) as [-> | Hne]; [| by apply IH].
  rewrite filter_ninguno; [done |].
  intros [k' x'] Hin. simpl. intros ->. apply Hno.
  apply list_elem_of_fmap. by exists (k, x').
Qed.

Lemma merge_linea_no_vacia {N} nmap (r : Detalle.fila N) :
  (1 ≤ length (merge_linea nmap r))%nat.
Proof.
  unfold merge_linea. destruct (filter _ nmap) as [| p ps]; simpl; lia.
Qed.

Lemma merge_linea_importe {N} nmap (r : Detalle.fila N) :
  NoDup (fst <$> nmap) →
  Detalle.importe <$> merge_linea nmap r = [Detalle.importe r].
Proof.
  intros Hnd. pose proof (filter_fst_unico (Detalle.id_producto r) nmap Hnd) as Huno.
  unfold merge_linea.
  destruct (filter _ nmap) as [| p [| q ps]]; [done | done | simpl in Huno; lia].
Qed.

Lemma nombre_map_NoDup {N} (prods : list (Productos.fila N)) :
  NoDup (Productos.id_producto <$> prods) → NoDup (fst <$> nombre_map prods).
Proof.
  intros Hnd.
  assert (Hsub : fst <$> nombre_map prods `sublist_of` Productos.id_producto <$> prods).
  { assert (Hids : Productos.id_producto <$> prods
                   = fst <$> ((λ p, (Productos.id_producto p,
                                     Productos.nombre_producto p)) <$> prods)).
    { by rewrite <- list_fmap_compose. }
    rewrite Hids. apply fmap_sublist, drop_duplicates_sublist. }
  eapply sublist_NoDup; [exact Hnd | exact Hsub].
Qed.

Lemma length_merge_nombre {N} nmap (lineas : list (Detalle.fila N)) :
  (length lineas ≤ length (lineas ≫= merge_linea nmap))%nat.
Proof.
  induction lineas as [| r lineas IH]; [done |].
  rewrite bind_cons, length_app. simpl.
  pose proof (merge_linea_no_vacia nmap r). lia.
Qed.

Lemma importe_merge_nombre {N} nmap (lineas : list (Detalle.fila N)) :
  NoDup (fst <$> nmap) →
  Detalle.importe <$> (lineas ≫= merge_linea nmap) = Detalle.importe <$> lineas.
Proof.
  intros Hnd. induction lineas as [| r lineas IH]; [done |].
  rewrite bind_cons, fmap_app, IH, merge_linea_importe by done. done.
Qed.

Section columnas_de_la_carga.
Context `{PipelineUtils}.

(** X15. What [cargar_datasets] returns.  The products, the customers and
    the sales are the tables that were read; every table has its required
    columns, and the detail lines always carry the product name, which is
    merged in when the file came without it.  The merge never loses a line.
    It keeps the amounts as they were read when no product identifier is
    listed twice; a product listed twice has its lines twice. *)
Theorem cargar_datasets_columnas (config : Config) (t : TablasCrudas) :
  salida (cargar_datasets config) = inr t →
  ∃ rutas t0,
    resolve_routes config = inr rutas ∧ read_tables rutas = inr t0
    ∧ df_productos t = df_productos t0
    ∧ df_clientes t = df_clientes t0
    ∧ df_ventas t = df_ventas t0
    ∧ (∀ nombre req col,
         (nombre, req) ∈ columnas_esperadas → col ∈ req → col ∈ columnas_de t nombre)
    ∧ "nombre_producto" ∈ columns (df_detalle t)
    ∧ (length (filas (df_detalle t0)) ≤ length (filas (df_detalle t)))%nat
    ∧ (NoDup (Productos.id_producto <$> filas (df_productos t0)) →
       Detalle.importe <$> filas (df_detalle t)
       = Detalle.importe <$> filas (df_detalle t0)).
Proof.
  intros Ht. apply cargar_datasets_inr in Ht as (rutas & t0 & Hrutas & Hleer & Hcols & Ht).
  exists rutas, t0. split; [done |]. split; [done |].
  assert (Hdet : "id_producto" ∈ columns (df_detalle t0)).
  { eapply (validar_columnas_ok_columnas t0 "detalle"); [done | |].
    - do 3 apply list_elem_of_further. apply list_elem_of_here.
    - set_solver. }
  assert (Hpn : "nombre_producto" ∈ columns (df_productos t0)).
  { eapply (validar_columnas_ok_columnas t0 "productos"); [done | |].
    - apply list_elem_of_here.
    - set_solver. }
  revert Ht. unfold agregar_nombre_producto.
  destruct (decide (("nombre_producto" ∉ columns (df_detalle t0))
                    ∧ ("id_producto" ∈ columns (df_detalle t0))
                    ∧ ("nombre_producto" ∈ columns (df_productos t0))))
    as [Hfalta | Hesta].
  - destruct (decide ("id_producto" ∈ columns (df_productos t0))); [| done].
    abrir. intros [= <-]. cbn [df_productos df_clientes df_ventas df_detalle].
    split_and!; try done.
    + intros nombre req col Hin Hcol.
      pose proof (validar_columnas_ok_columnas t0 nombre req col Hcols Hin Hcol) as Ht0.
      revert Ht0. unfold columnas_de. cbn [df_productos df_clientes df_ventas df_detalle].
      repeat case_decide; try done.
      unfold merge_nombre. cbn [columns]. intros Ht0. apply elem_of_app. by left.
    + unfold merge_nombre. cbn [columns]. apply elem_of_app. right. by left.
    + unfold merge_nombre. cbn [filas]. apply length_merge_nombre.
    + intros Hnd. unfold merge_nombre. cbn [filas].
      by apply importe_merge_nombre, nombre_map_NoDup.
  - abrir. intros [= <-]. split_and!; try done.
    + intros nombre req col. by apply validar_columnas_ok_columnas.
    + destruct (decide ("nombre_producto" ∈ columns (df_detalle t0))); [done |].
      destruct Hesta. by split_and!.
Qed.
End columnas_de_la_carga.

Lemma cargar_datasets_columnas_witness :
  ∃ t, salida (cargar_datasets (H := utils_ejemplo) tt) = inr t
       ∧ "nombre_producto" ∈ columns (df_detalle t)
       ∧ Detalle.importe <$> filas (df_detalle t) = [Num 6; Num 5].
Proof.
  destruct (salida (cargar_datasets (H := utils_ejemplo) tt)) as [e | t] eqn:Ht;
    [vm_compute in Ht; discriminate |].
  destruct (cargar_datasets_columnas (H := utils_ejemplo) tt t Ht)
    as (rutas & t0 & _ & Hleer & _ & _ & _ & _ & Hnombre & _ & Himporte).
  exists t. split_and!; [done | done |].
  injection Hleer as <-. rewrite Himporte; [done |]. por_calculo.
Defined.

(** With the bread listed under two names, the one line of bread is loaded
    twice. *)
Example cargar_datasets_pan_doble :
  ∃ t, salida (cargar_datasets (H := utils_pan_doble) tt) = inr t
       ∧ Detalle.importe <$> filas (df_detalle tablas_pan_doble) = [Num 6]
       ∧ Detalle.importe <$> filas (df_detalle t) = [Num 6; Num 6].
Proof. eexists. split_and!; by vm_compute. Qed.

(** ** The ABC summary *)

Lemma cuenta_total {K} (abc : list (FilaABC K)) :
  (cuenta abc ClaseA + cuenta abc ClaseB + cuenta abc ClaseC)%nat = length abc.
Proof.
  unfold cuenta. induction abc as [| f abc IH]; [done |].
  rewrite !filter_cons. simpl. rewrite <- IH.
  destruct (clasificacion f); repeat case_decide; try done; simpl; lia.
Qed.

Lemma cuenta_positiva {K} (abc : list (FilaABC K)) c :
  (0 < cuenta abc c)%nat ↔ ∃ f, f ∈ abc ∧ clasificacion f = c.
Proof.
  unfold cuenta. split.
  - intros Hpos. destruct (filter _ abc) as [| f fs] eqn:Hf; [simpl in Hpos; lia |].
    assert (Hin : f ∈ filter (λ f, clasificacion f = c) abc)
      by (rewrite Hf; by left).
    apply list_elem_of_filter in Hin as [Hc Hin]. by exists f.
  - intros (f & Hin & Hc).
    assert (Hf : f ∈ filter (λ f, clasificacion f = c) abc)
      by (by apply list_elem_of_filter).
    destruct (filter _ abc); [by apply elem_of_nil in Hf | simpl; lia].
Qed.

(** X16. The ABC summary printed on the console and written to the report.
    Of the classes A, B and C, in this order, those of the index of the
    counts get a line, the others none: with a column of plain labels these
    are the classes that have rows, with a categorical column the categories
    of the column, with or without rows.  The line of a class gives the
    number of its rows, which is zero for no line of a column of plain
    labels; and the numbers of all lines add up to the rows of the table,
    the classes of the rows of a categorical column being among its
    categories. *)
Theorem lineas_abc_correctas {K} (categorias : option (list clase))
    (abc : list (FilaABC K)) :
  fst <$> lineas_abc categorias abc `sublist_of` [ClaseA; ClaseB; ClaseC]
  ∧ (∀ c, c ∈ fst <$> lineas_abc categorias abc ↔
          match categorias with
          | Some cats => c ∈ cats
          | None => ∃ f, f ∈ abc ∧ clasificacion f = c
          end)
  ∧ (∀ c n, (c, n) ∈ lineas_abc categorias abc →
       n = length (filter (λ f, clasificacion f = c) abc))
  ∧ (categorias = None → ∀ c n, (c, n) ∈ lineas_abc categorias abc → (0 < n)%nat)
  ∧ ((∀ cats, categorias = Some cats → ∀ f, f ∈ abc → clasificacion f ∈ cats) →
     sum_list (snd <$> lineas_abc categorias abc) = length abc).
Proof.
  pose proof (cuenta_total abc) as Htotal.
  assert (Hlineas : ∀ c n, (c, n) ∈ lineas_abc categorias abc
                           ↔ en_conteo categorias abc c ∧ n = cuenta abc c).
  { intros c n. unfold lineas_abc. rewrite list_elem_of_omap. split.
    - intros (c' & _ & Hc'). case_decide; [| done]. by injection Hc' as -> <-.
    - intros [Hpos ->]. exists c. split;
      [destruct c; repeat first [apply list_elem_of_here | apply list_elem_of_further] |].
      by rewrite decide_True. }
  split_and!.
  - unfold lineas_abc. simpl.
    repeat case_decide; simpl;
      repeat first [ apply sublist_nil | apply sublist_skip | apply sublist_cons ].
  - intros c.
    assert (Hc : c ∈ fst <$> lineas_abc categorias abc ↔ en_conteo categorias abc c).
    { rewrite list_elem_of_fmap. split.
      - intros ([c' n] & -> & Hin). simpl. by apply Hlineas in Hin as [? _].
      - intros Hen. exists (c, cuenta abc c). split; [done |]. by apply Hlineas. }
    rewrite Hc. unfold en_conteo. destruct categorias; [done |].
    apply cuenta_positiva.
  - intros c n Hin. by apply Hlineas in Hin as [_ ->].
  - intros -> c n Hin. by apply Hlineas in Hin as [Hpos ->].
  - intros Hcats. rewrite <- Htotal.
    assert (Hsin : ∀ c, ¬ en_conteo categorias abc c → cuenta abc c = 0%nat).
    { intros c Hno. destruct (decide (0 < cuenta abc c)%nat) as [Hpos | Hcero]; [| lia].
      destruct Hno. unfold en_conteo. destruct categorias as [cats |]; [| done].
      apply cuenta_positiva in Hpos as (f & Hf & <-). by apply (Hcats cats). }
    unfold lineas_abc. simpl.
    repeat case_decide; simpl;
      repeat match goal with
             | Hno : ¬ en_conteo _ _ _ |- _ => apply Hsin in Hno
             end; lia.
Qed.

Lemma lineas_abc_correctas_witness :
  lineas_abc None (pipeline_utils.clasificacion_abc [("a", 90%Q); ("b", 10%Q)])
  = [(ClaseB, 1%nat); (ClaseC, 1%nat)]
  ∧ (0 < 1)%nat.
Proof.
  destruct (lineas_abc_correctas None
              (pipeline_utils.clasificacion_abc [("a", 90%Q); ("b", 10%Q)]))
    as (_ & _ & _ & Hlinea & _).
  assert (Hl : lineas_abc None
                 (pipeline_utils.clasificacion_abc [("a", 90%Q); ("b", 10%Q)])
               = [(ClaseB, 1%nat); (ClaseC, 1%nat)]) by (by vm_compute).
  split; [exact Hl |].
  apply (Hlinea eq_refl ClaseB 1%nat). rewrite Hl. by left.
Defined.

(** The same table with a categorical column: class A has a line, with
    no product. *)
Example lineas_abc_categorica :
  lineas_abc (Some [ClaseA; ClaseB; ClaseC])
    (pipeline_utils.clasificacion_abc [("a", 90%Q); ("b", 10%Q)])
  = [(ClaseA, 0%nat); (ClaseB, 1%nat); (ClaseC, 1%nat)].
Proof. by vm_compute. Qed.

Lemma format_bytes_escala_witness :
  snd (_format_bytes 1536) = "KB"
  ∧ (1 <= fst (_format_bytes 1536))%Q ∧ (fst (_format_bytes 1536) < 1024)%Q.
Proof.
  assert (Hrango : (Z.abs 1536 ≤ 2 ^ 53)%Z) by lia.
  destruct (format_bytes_escala 1536 Hrango) as (j & _ & _ & Hmenor & Hmayor & _ & _).
  split_and!; [by vm_compute | apply Hmayor; by vm_compute | apply Hmenor; by vm_compute].
Defined.
